(** * Retirement Monte Carlo engine: a shallow embedding and its properties

    The Python sources under [apps/engine/src] are embedded function by
    function.  Python [float]s and numpy [float64] lanes are idealised as
    exact rationals ([Q]): rounding, overflow and signed zeros are outside
    the model.  Python [int]s are [Z].  A numpy array of per-path values is
    a [list] with one entry per path.  Exceptions that the sources can
    raise are explicit outcomes. *)

From Stdlib Require Import String ZArith QArith Qpower Qround Lqa Lia Bool List.
Import ListNotations.

Local Open Scope Q_scope.

(** ** Outcomes of fallible code *)

(** The exceptions the embedded code can raise.  [NanResult] is not an
    exception: it marks a floating result that is [nan] (numpy's mean of
    an empty array), which has no rational value.  [Diverges] marks a
    loop that was still running when the model's fuel ran out. *)
Inductive fault : Type :=
| ZeroDivisionError
| IndexError
| ValueError
| NanResult
| Diverges.

Inductive outcome (A : Type) : Type :=
| Ok (a : A)
| Raise (e : fault).

Arguments Ok {A} a.
Arguments Raise {A} e.

Definition bind {A B : Type} (c : outcome A) (k : A -> outcome B) : outcome B :=
  match c with
  | Ok a => k a
  | Raise e => Raise e
  end.

Notation "x <- c ;; k" := (bind c (fun x => k))
  (at level 61, c at next level, right associativity).

(** ** Lane arithmetic *)

Definition Qleb (x y : Q) : bool := Qle_bool x y.
Definition Qltb (x y : Q) : bool := negb (Qle_bool y x).

(** [np.maximum] and [np.minimum] (and Python's [max], [min]) on one lane. *)
Definition fmax (x y : Q) : Q := if Qleb x y then y else x.
Definition fmin (x y : Q) : Q := if Qleb x y then x else y.

(** The literal [1e-9]. *)
Definition eps : Q := 1 # 1000000000.

(** Python's [x ** e] for a float [x] and an int [e]: a zero base with a
    negative exponent raises. *)
Definition py_pow (x : Q) (e : Z) : outcome Q :=
  if Qeq_bool x 0 && (e <? 0)%Z then Raise ZeroDivisionError else Ok (x ^ e).

(** Python's float division. *)
Definition py_div (a b : Q) : outcome Q :=
  if Qeq_bool b 0 then Raise ZeroDivisionError else Ok (a / b).

(** ** simulation/loan.py *)

Module Loan.

Definition amort_payment (principal rate_real : Q) (term_years : Z) : outcome Q :=
  if Qleb principal 0 then Ok 0
  else
    let r := rate_real in
    let n := term_years in
    p <- py_pow (1 + r) (- n) ;;
    py_div (r * principal) (1 - p).

Definition loan_balance_after_k (principal rate_real payment : Q) (k : Z) : outcome Q :=
  if Qleb principal 0 then Ok 0
  else
    let r := rate_real in
    p <- py_pow (1 + r) k ;;
    p' <- py_pow (1 + r) k ;;
    q <- py_div (p' - 1) r ;;
    Ok (principal * p - payment * q).

End Loan.

(** ** simulation/mortality.py *)

Module Mortality.

(** SSA male life table (2022), ages 53-99: (age, qx, lx). *)
Definition SSA_ROWS : list (Z * Q * Q) :=
  [ (53%Z, 7073 # 1000000, 88825); (54%Z, 7675 # 1000000, 88196);
    (55%Z, 8348 # 1000000, 87520); (56%Z, 9051 # 1000000, 86789);
    (57%Z, 9822 # 1000000, 86003); (58%Z, 10669 # 1000000, 85159);
    (59%Z, 11548 # 1000000, 84250); (60%Z, 12458 # 1000000, 83277);
    (61%Z, 13403 # 1000000, 82240); (62%Z, 14450 # 1000000, 81138);
    (63%Z, 15571 # 1000000, 79965); (64%Z, 16737 # 1000000, 78720);
    (65%Z, 17897 # 1000000, 77402); (66%Z, 19017 # 1000000, 76017);
    (67%Z, 20213 # 1000000, 74572); (68%Z, 21569 # 1000000, 73064);
    (69%Z, 23088 # 1000000, 71488); (70%Z, 24828 # 1000000, 69838);
    (71%Z, 26705 # 1000000, 68104); (72%Z, 28761 # 1000000, 66285);
    (73%Z, 31116 # 1000000, 64379); (74%Z, 33861 # 1000000, 62376);
    (75%Z, 37088 # 1000000, 60263); (76%Z, 41126 # 1000000, 58028);
    (77%Z, 45241 # 1000000, 55642); (78%Z, 49793 # 1000000, 53125);
    (79%Z, 54768 # 1000000, 50479); (80%Z, 60660 # 1000000, 47715);
    (81%Z, 67027 # 1000000, 44820); (82%Z, 73999 # 1000000, 41816);
    (83%Z, 81737 # 1000000, 38722); (84%Z, 90458 # 1000000, 35557);
    (85%Z, 100525 # 1000000, 32340); (86%Z, 111793 # 1000000, 29089);
    (87%Z, 124494 # 1000000, 25837); (88%Z, 138398 # 1000000, 22621);
    (89%Z, 153207 # 1000000, 19490); (90%Z, 169704 # 1000000, 16504);
    (91%Z, 187963 # 1000000, 13703); (92%Z, 208395 # 1000000, 11128);
    (93%Z, 230808 # 1000000, 8809); (94%Z, 253914 # 1000000, 6776);
    (95%Z, 277402 # 1000000, 5055); (96%Z, 300882 # 1000000, 3653);
    (97%Z, 324326 # 1000000, 2554); (98%Z, 347332 # 1000000, 1726);
    (99%Z, 369430 # 1000000, 1126) ].

(** [np.sum] of a float array.  The running total is kept in lowest
    terms ([Qred] does not change the rational it is applied to). *)
Definition np_sum (l : list Q) : Q := fold_right (fun x acc => Qred (x + acc)) 0 l.

(** Element-wise product of two arrays of the same length. *)
Definition np_mul (xs ys : list Q) : list Q :=
  map (fun xy => fst xy * snd xy) (combine xs ys).

(** The [dx = lx * qx] column of the table. *)
Definition dx_column : list Q :=
  np_mul (map snd SSA_ROWS) (map (fun r => snd (fst r)) SSA_ROWS).

Definition mortality_weights : list Z * list Q :=
  let ages := map (fun r => fst (fst r)) SSA_ROWS in
  let qx := map (fun r => snd (fst r)) SSA_ROWS in
  let lx := map snd SSA_ROWS in
  let l0 := nth 0 lx 0 in
  let dx := np_mul lx qx in
  let p := map (fun d => d / l0) dx in
  let s := np_sum p in
  let p := map (fun x => x / s) p in
  (ages, p).

(** [arr.mean()] of a boolean array: [nan] when the array is empty. *)
Definition mean_bool (l : list bool) : outcome Q :=
  match l with
  | [] => Raise NanResult
  | _ => Ok (inject_Z (Z.of_nat (count_occ bool_dec l true))
             / inject_Z (Z.of_nat (length l)))
  end.

(** Sequencing a list of fallible computations, left to right. *)
Fixpoint collect {A : Type} (l : list (outcome A)) : outcome (list A) :=
  match l with
  | [] => Ok []
  | c :: rest => a <- c ;; r <- collect rest ;; Ok (a :: r)
  end.

(** Indexing a numpy array with a Python int: negative indices count from
    the end, anything out of range raises. *)
Definition np_get {A : Type} (l : list A) (i : Z) : outcome A :=
  let n := Z.of_nat (length l) in
  let j := (if i <? 0 then n + i else i)%Z in
  if ((j <? 0) || (n <=? j))%Z then Raise IndexError
  else match nth_error l (Z.to_nat j) with
       | Some a => Ok a
       | None => Raise IndexError
       end.

(** The dict [{int(ages_model[t]): t for t in range(n_years)}] as the
    list of its insertions; a later insertion of a key replaces an
    earlier one, so [dict_get] keeps the last match. *)
Definition age_to_t (ages_model : list Z) : list (Z * Z) :=
  combine ages_model (map Z.of_nat (seq 0 (length ages_model))).

Definition dict_get (d : list (Z * Z)) (key dflt : Z) : Z :=
  fold_left (fun acc kv => if (fst kv =? key)%Z then snd kv else acc) d dflt.

Definition death_weighted_success (fail_idx ages_model : list Z) : outcome (Q * Q) :=
  let '(ages_lt, p_death) := mortality_weights in
  let n_years := length ages_model in
  ruin_by_t <- collect (map (fun t => mean_bool (map (fun f => (f <=? Z.of_nat t)%Z) fail_idx))
                            (seq 0 n_years)) ;;
  let d := age_to_t ages_model in
  ruin_by_age <- collect (map (fun a => np_get ruin_by_t (dict_get d a (Z.of_nat n_years - 1)))
                              ages_lt) ;;
  let p_dw := np_sum (np_mul p_death (map (fun r => 1 - r) ruin_by_age)) in
  p99 <- mean_bool (map (fun f => (Z.of_nat n_years <=? f)%Z) fail_idx) ;;
  Ok (p_dw, p99).

End Mortality.

(** ** simulation/accounts.py *)

Module Accounts.

(** [take_from(arr, amount)] on one lane: the new balance (the in-place
    update of [arr]) and the returned remainder. *)
Definition take_from (arr amount : Q) : Q * Q :=
  let take := fmin amount (fmax arr 0) in
  (arr - take, amount - take).

(** [safe_targets] as the kernel calls it: with [t >= 0] and a schedule
    [w] of at least one entry, where the index [min(t + 1, len(w) - 1)]
    is in range.  On an empty schedule the source raises [IndexError];
    the call with that exception is [Raising.safe_targets] below. *)
Definition safe_targets (w : list Q) (t : nat) (reserve_years reserve_cash_fraction : Q)
  : Q * Q :=
  let nxt := nth (Nat.min (t + 1) (List.length w - 1)) w 0 in
  let tgt_total := reserve_years * nxt in
  let tgt_cash := reserve_cash_fraction * tgt_total in
  let tgt_base := tgt_total - tgt_cash in
  (tgt_cash, tgt_base).

End Accounts.

(** ** simulation/guardrails.py *)

Module Guardrails.

(** [compute_cuts] on one lane: the two [np.where] passes in order. *)
Definition compute_cuts (drawdown dd1 dd2 cut1 cut2 : Q) : Q :=
  let cut := 0 in
  let cut := if Qleb dd2 drawdown then cut2 else cut in
  let cut := if Qleb dd1 drawdown && Qltb drawdown dd2 then cut1 else cut in
  cut.

End Guardrails.

(** ** simulation/engine.py *)

Module Engine.

Import Accounts Guardrails.

(** The pre-generated returns array: [shape1] is [returns.shape[1]] and
    [rows] holds one list of [shape1] yearly returns per row. *)
Record Returns : Type := mkReturns {
  rows : list (list Q);
  shape1 : nat
}.

(** The arguments of [simulate_once]. *)
Record Args : Type := mkArgs {
  (* core *)
  n_sims : Z;
  start_portfolio : Q;
  start_age : Z;
  partial_year_fraction : Q;
  seed : Z;
  returns : Returns;
  (* reserve *)
  reserve_years : Q;
  reserve_cash_fraction : Q;
  safe_real_return : Q;
  (* spending *)
  E : Z;
  floor_annual_real : Q;
  income_applies_to_actual_spend : bool;
  ss_annual_real : Q;
  ss_start_age : Z;
  earned_income_annual_real : Q;
  earned_income_start_age : Z;
  earned_income_end_age : Z;
  allow_surplus_savings : bool;
  surplus_allocation : string;
  (* guardrails *)
  dd1 : Q;
  dd2 : Q;
  cut1 : Q;
  cut2 : Q;
  baseline_e_for_flex : Q;
  baseline_flex_pre : Q;
  baseline_net_post_ss : Q;
  baseline_flex_post : Q;
  (* reverse mortgage *)
  rm_open_age : Z;
  home_value_real : Q;
  rm_plf_at_open : Q;
  rm_limit_real_growth : Q;
  rm_bal_real_rate : Q;
  rm_partial_cover : Q;
  rm_repay_rate : Q;
  payoff_dd_threshold : Q;
  (* loan *)
  loan_amount : Z;
  loan_real_rate : Q;
  loan_term_years : Z;
  loan_bucket_real_return : Q;
  loan_bucket_use_dd : Q;
  loan_bucket_partial_cover : Q
}.

(** [build_withdrawals].  The only call site passes
    [ages = arange(start_age, start_age + n_years)], so [ages[t]] is
    written [age_of t]; with [n_years = 0] the store to [w[0]] (or the
    load of [ages[0]]) raises. *)
Definition build_withdrawals (E : Q) (n_years : nat) (age_of : nat -> Z)
    (partial_year_fraction : Q) (income_applies_to_actual_spend : bool)
    (ss_annual_real : Q) (ss_start_age : Z) (earned_income_annual_real : Q)
    (earned_income_start_age earned_income_end_age : Z) : outcome (list Q) :=
  match n_years with
  | O => Raise IndexError
  | S _ =>
    if income_applies_to_actual_spend then
      Ok (map (fun t => match t with
                        | O => fmax 0 (E * partial_year_fraction)
                        | S _ => fmax 0 E
                        end) (seq 0 n_years))
    else
      let earned_income (age : Z) : Q :=
        if Qleb earned_income_annual_real 0 then 0
        else if ((age <? earned_income_start_age) || (earned_income_end_age <? age))%Z then 0
        else earned_income_annual_real in
      Ok (map (fun t => match t with
                        | O =>
                          let age0 := age_of O in
                          let ei0 := earned_income age0 * partial_year_fraction in
                          let ss0 := if (ss_start_age <=? age0)%Z
                                     then ss_annual_real * partial_year_fraction else 0 in
                          fmax 0 (E * partial_year_fraction - ss0 - ei0)
                        | S _ =>
                          let age := age_of t in
                          let ei := earned_income age in
                          let ss := if (ss_start_age <=? age)%Z then ss_annual_real else 0 in
                          fmax 0 (E - ss - ei)
                        end) (seq 0 n_years))
  end.

(** One path: entry [i] of every per-path array of [simulate_once]. *)
Record Lane : Type := mkLane {
  cash : Q;
  base_treas : Q;
  risky : Q;
  loan_bucket : Q;
  loan_bal : Q;
  hwm : Q;
  max_dd_risky : Q;
  hwm_total : Q;
  max_dd_total : Q;
  rm_limit : Q;
  rm_bal : Q;
  rm_ever_used : bool;
  failed : bool;
  fail_idx : Z
}.

Section Kernel.

Variable a : Args.

Definition n_years : nat := shape1 (returns a).
Definition age_of (t : nat) : Z := (start_age a + Z.of_nat t)%Z.

(** [floor_assets[t]]. *)
Definition floor_assets (t : nat) : Q :=
  match t with
  | O => floor_annual_real a * partial_year_fraction a
  | S _ => floor_annual_real a
  end.

Definition pre_flex_pct : Q :=
  if Qltb 0 (baseline_e_for_flex a)
  then baseline_flex_pre a / baseline_e_for_flex a else 0.

Definition post_flex_pct : Q :=
  if Qltb 0 (baseline_net_post_ss a)
  then baseline_flex_post a / baseline_net_post_ss a else 0.

Definition rm_open_t : Z := (rm_open_age a - start_age a)%Z.
Definition rm_limit_open : Q := home_value_real a * rm_plf_at_open a.
Definition has_loan : bool := (0 <? loan_amount a)%Z.

(** The state of every path before the first year. *)
Definition init_lane (w : list Q) : Lane :=
  let '(tgt_cash0, tgt_base0) :=
    safe_targets w 0 (reserve_years a) (reserve_cash_fraction a) in
  let init_safe := fmin (tgt_cash0 + tgt_base0) (start_portfolio a) in
  let cash0 := fmin tgt_cash0 init_safe in
  let base0 := fmax 0 (init_safe - cash0) in
  let risky0 := start_portfolio a - init_safe in
  let lb := if has_loan then inject_Z (loan_amount a) else 0 in
  mkLane cash0 base0 risky0 lb lb
         risky0 0 (cash0 + base0 + risky0 + lb - lb) 0
         0 0 false false (Z.of_nat n_years).

(** *** The substeps of one year, on one lane *)

(** Growth. *)
Definition grow (r : Q) (l : Lane) : Lane :=
  mkLane (cash l * (1 + safe_real_return a))
         (base_treas l * (1 + safe_real_return a))
         (risky l * (1 + r))
         (if has_loan then loan_bucket l * (1 + loan_bucket_real_return a)
          else loan_bucket l)
         (loan_bal l) (hwm l) (max_dd_risky l) (hwm_total l) (max_dd_total l)
         (rm_limit l) (rm_bal l) (rm_ever_used l) (failed l) (fail_idx l).

(** The year's [drawdown], from a high-water mark and the risky balance. *)
Definition drawdown_of (hwm risky : Q) : Q :=
  if Qltb 0 hwm then 1 - risky / hwm else 0.

(** High-water marks and running maximum drawdowns. *)
Definition mark (l : Lane) : Lane :=
  let hwm' := fmax (hwm l) (risky l) in
  let drawdown := drawdown_of hwm' (risky l) in
  let total_net := cash l + base_treas l + risky l + loan_bucket l - loan_bal l in
  let hwm_total' := fmax (hwm_total l) total_net in
  let dd_total := 1 - (if Qltb 0 hwm_total' then total_net / hwm_total' else 0) in
  mkLane (cash l) (base_treas l) (risky l) (loan_bucket l) (loan_bal l)
         hwm' (fmax (max_dd_risky l) drawdown)
         hwm_total' (fmax (max_dd_total l) dd_total)
         (rm_limit l) (rm_bal l) (rm_ever_used l) (failed l) (fail_idx l).

(** Loan payment before the reverse mortgage opens.  [new_bal] is the
    scalar stored into [loan_bal[:]] at the end of the block. *)
Definition loan_payment (pay : Q) (t : nat) (drawdown new_bal : Q) (l : Lane) : Lane :=
  if has_loan && (Z.of_nat t <? rm_open_t)%Z then
    let '(cash1, rem) := take_from (cash l) pay in
    let '(base1, rem) := take_from (base_treas l) rem in
    let '(risky1, rem) := take_from (risky l) rem in
    let allow := Qleb (loan_bucket_use_dd a) drawdown && negb (failed l) && Qltb eps rem in
    let take := fmin rem (loan_bucket l) in
    let bucket1 := if allow then loan_bucket l - take else loan_bucket l in
    let rem := if allow then rem - take else rem in
    let newly_failed := negb (failed l) && Qltb eps rem in
    mkLane cash1 base1 risky1 bucket1 new_bal
           (hwm l) (max_dd_risky l) (hwm_total l) (max_dd_total l)
           (rm_limit l) (rm_bal l) (rm_ever_used l)
           (if newly_failed then true else failed l)
           (if newly_failed then Z.of_nat t else fail_idx l)
  else l.

(** Opening of the reverse mortgage and payoff of the loan.  The two
    draws on [risky] go through [risky[mask]], which numpy evaluates to
    a fresh array: [take_from] debits that temporary, so only the
    returned remainder reaches the state and [risky] keeps its value. *)
Definition rm_open (t : nat) (drawdown : Q) (l : Lane) : Lane :=
  if (Z.of_nat t =? rm_open_t)%Z then
    let limit1 := rm_limit_open * (1 + rm_limit_real_growth a) in
    if has_loan then
      let payoff := loan_bal l in
      let risky_first := Qleb drawdown (payoff_dd_threshold a) in
      let '(payoff, rm_bal1) :=
        if risky_first then
          let payoff := snd (take_from (risky l) payoff) in
          let avail_rm := fmax 0 (limit1 - rm_bal l) in
          let take := fmin payoff avail_rm in
          (payoff - take, rm_bal l + take)
        else
          let avail_rm := fmax 0 (limit1 - rm_bal l) in
          let take := fmin payoff avail_rm in
          let payoff := payoff - take in
          (snd (take_from (risky l) payoff), rm_bal l + take) in
      let '(base1, payoff) := take_from (base_treas l) payoff in
      let '(cash1, payoff) := take_from (cash l) payoff in
      let '(bucket1, payoff) := take_from (loan_bucket l) payoff in
      let newly_failed := negb (failed l) && Qltb eps payoff in
      mkLane cash1 base1 (risky l) bucket1 0
             (hwm l) (max_dd_risky l) (hwm_total l) (max_dd_total l)
             limit1 rm_bal1 (rm_ever_used l)
             (if newly_failed then true else failed l)
             (if newly_failed then Z.of_nat t else fail_idx l)
    else
      mkLane (cash l) (base_treas l) (risky l) (loan_bucket l) (loan_bal l)
             (hwm l) (max_dd_risky l) (hwm_total l) (max_dd_total l)
             limit1 (rm_bal l) (rm_ever_used l) (failed l) (fail_idx l)
  else l.

(** Growth of the credit line and of the drawn balance. *)
Definition rm_growth (t : nat) (l : Lane) : Lane :=
  if (rm_open_t <=? Z.of_nat t)%Z then
    mkLane (cash l) (base_treas l) (risky l) (loan_bucket l) (loan_bal l)
           (hwm l) (max_dd_risky l) (hwm_total l) (max_dd_total l)
           (rm_limit l * (1 + rm_limit_real_growth a))
           (rm_bal l * (1 + rm_bal_real_rate a))
           (rm_ever_used l) (failed l) (fail_idx l)
  else l.

(** *** Desired spending, feasibility and income of year [t] *)

Definition flex_pct (t : nat) : Q :=
  if (age_of t <? ss_start_age a)%Z then pre_flex_pct else post_flex_pct.

Definition flex_amt (w : list Q) (t : nat) : Q :=
  fmin (flex_pct t * nth t w 0) (nth t w 0).

Definition floor_amt (w : list Q) (t : nat) : Q := nth t w 0 - flex_amt w t.

Definition desired (w : list Q) (t : nat) (drawdown : Q) : Q :=
  let cut := compute_cuts drawdown (dd1 a) (dd2 a) (cut1 a) (cut2 a) in
  floor_amt w t + flex_amt w t * (1 - cut).

Definition avail_rm (l : Lane) : Q := fmax 0 (rm_limit l - rm_bal l).

Definition max_feasible (drawdown : Q) (l : Lane) : Q :=
  let accessible_loan :=
    if Qleb (loan_bucket_use_dd a) drawdown then loan_bucket l else 0 in
  cash l + base_treas l + fmax (risky l) 0 + avail_rm l + accessible_loan.

Definition income_scalar (t : nat) : Q :=
  if income_applies_to_actual_spend a then
    let age := age_of t in
    let ei := if Qltb 0 (earned_income_annual_real a)
                 && (earned_income_start_age a <=? age)%Z
                 && (age <=? earned_income_end_age a)%Z
              then earned_income_annual_real a else 0 in
    let ss := if (ss_start_age a <=? age)%Z then ss_annual_real a else 0 in
    let ei := match t with O => ei * partial_year_fraction a | S _ => ei end in
    let ss := match t with O => ss * partial_year_fraction a | S _ => ss end in
    ss + ei
  else 0.

Definition asset_desired (w : list Q) (t : nat) (drawdown : Q) : Q :=
  if Qltb 0 (income_scalar t)
  then fmax 0 (desired w t drawdown - income_scalar t)
  else desired w t drawdown.

Definition floor_need_assets (t : nat) : Q :=
  if Qltb 0 (income_scalar t)
  then fmax 0 (floor_assets t - income_scalar t)
  else floor_assets t.

(** Income above the desired spending is saved.  The source guards the
    block with [np.any(surplus > 0)]; on a lane whose own surplus is 0
    the guarded statements add 0 to each bucket, so the lane is written
    with the guard on its own surplus. *)
Definition save_surplus (w : list Q) (t : nat) (drawdown : Q) (l : Lane) : Lane :=
  if Qltb 0 (income_scalar t) then
    let surplus := fmax 0 (income_scalar t - desired w t drawdown) in
    if Qltb 0 surplus then
      if String.eqb (surplus_allocation a) "risky_first" then
        mkLane (cash l) (base_treas l) (risky l + surplus)
               (loan_bucket l) (loan_bal l)
               (hwm l) (max_dd_risky l) (hwm_total l) (max_dd_total l)
               (rm_limit l) (rm_bal l) (rm_ever_used l) (failed l) (fail_idx l)
      else
        let '(tgt_cash, tgt_base) :=
          safe_targets w t (reserve_years a) (reserve_cash_fraction a) in
        let add_cash := fmin (fmax 0 (tgt_cash - cash l)) surplus in
        let surplus := surplus - add_cash in
        let add_base := fmin (fmax 0 (tgt_base - base_treas l)) surplus in
        let surplus := surplus - add_base in
        mkLane (cash l + add_cash) (base_treas l + add_base) (risky l + surplus)
               (loan_bucket l) (loan_bal l)
               (hwm l) (max_dd_risky l) (hwm_total l) (max_dd_total l)
               (rm_limit l) (rm_bal l) (rm_ever_used l) (failed l) (fail_idx l)
    else l
  else l.

(** Feasibility of the asset-funded floor. *)
Definition check_floor (t : nat) (max_feasible : Q) (l : Lane) : Lane :=
  let newly_failed := negb (failed l) && Qltb max_feasible (floor_need_assets t - eps) in
  mkLane (cash l) (base_treas l) (risky l) (loan_bucket l) (loan_bal l)
         (hwm l) (max_dd_risky l) (hwm_total l) (max_dd_total l)
         (rm_limit l) (rm_bal l) (rm_ever_used l)
         (if newly_failed then true else failed l)
         (if newly_failed then Z.of_nat t else fail_idx l).

(** [spend_assets], read after the feasibility check has updated [failed]. *)
Definition spend_assets (w : list Q) (t : nat) (drawdown max_feasible : Q) (l : Lane) : Q :=
  let spend := fmin (asset_desired w t drawdown) max_feasible in
  if negb (failed l) then fmax spend (floor_need_assets t) else 0.

(** Funding order. *)
Definition fund (drawdown spend : Q) (l : Lane) : Lane :=
  let rem := spend in
  let '(cash1, rem) := take_from (cash l) rem in
  let '(base1, rem) := take_from (base_treas l) rem in
  let allow := Qleb (loan_bucket_use_dd a) drawdown && negb (failed l)
               && Qltb 0 (loan_bucket l) in
  let take_loan :=
    if allow then fmin (rem * loan_bucket_partial_cover a) (loan_bucket l) else 0 in
  let bucket1 := loan_bucket l - take_loan in
  let rem := rem - take_loan in
  let avail := fmax 0 (rm_limit l - rm_bal l) in
  let take_rm :=
    if Qleb (dd2 a) drawdown && negb (failed l)
    then fmin (rem * rm_partial_cover a) avail else 0 in
  let rm_bal1 := rm_bal l + take_rm in
  let rem := rem - take_rm in
  let '(risky1, rem) := take_from (risky l) rem in
  let avail := fmax 0 (rm_limit l - rm_bal1) in
  let take_rm2 := fmin rem avail in
  let rm_bal2 := rm_bal1 + take_rm2 in
  let rem := rem - take_rm2 in
  let allow2 := Qleb (loan_bucket_use_dd a) drawdown && negb (failed l) && Qltb eps rem in
  let take := fmin rem bucket1 in
  let bucket2 := if allow2 then bucket1 - take else bucket1 in
  mkLane cash1 base1 risky1 bucket2 (loan_bal l)
         (hwm l) (max_dd_risky l) (hwm_total l) (max_dd_total l)
         (rm_limit l) rm_bal2 (rm_ever_used l) (failed l) (fail_idx l).

(** A good year: small drawdown on a path that has not failed. *)
Definition good (drawdown : Q) (l : Lane) : bool :=
  Qltb drawdown (dd1 a) && negb (failed l).

(** The two transfers of the reserve refill. *)
Definition refill_add_cash (w : list Q) (t : nat) (drawdown : Q) (l : Lane) : Q :=
  let '(tgt_cash_r, _) := safe_targets w t (reserve_years a) (reserve_cash_fraction a) in
  let need_cash := fmax 0 (tgt_cash_r - cash l) in
  if good drawdown l then fmin need_cash (fmax (risky l) 0) else 0.

Definition refill_add_base (w : list Q) (t : nat) (drawdown : Q) (l : Lane) : Q :=
  let '(_, tgt_base_r) := safe_targets w t (reserve_years a) (reserve_cash_fraction a) in
  let add_cash := refill_add_cash w t drawdown l in
  let need_base := fmax 0 (tgt_base_r - base_treas l) in
  if good drawdown l then fmin need_base (fmax (risky l - add_cash) 0) else 0.

(** Refill of the reserve in good years. *)
Definition refill (w : list Q) (t : nat) (drawdown : Q) (l : Lane) : Lane :=
  let add_cash := refill_add_cash w t drawdown l in
  let add_base := refill_add_base w t drawdown l in
  mkLane (cash l + add_cash) (base_treas l + add_base)
         (risky l - add_cash - add_base)
         (loan_bucket l) (loan_bal l)
         (hwm l) (max_dd_risky l) (hwm_total l) (max_dd_total l)
         (rm_limit l) (rm_bal l) (rm_ever_used l) (failed l) (fail_idx l).

(** The amount moved from [risky] to the reverse-mortgage balance. *)
Definition repay_take (drawdown : Q) (l : Lane) : Q :=
  let recovered := Qltb drawdown eps && good drawdown l && Qltb 0 (rm_bal l) in
  let repay_amt := if recovered then rm_bal l * rm_repay_rate a else 0 in
  fmin repay_amt (fmax (risky l) 0).

(** Repayment of the reverse mortgage at new highs. *)
Definition repay (drawdown : Q) (l : Lane) : Lane :=
  let take := repay_take drawdown l in
  mkLane (cash l) (base_treas l) (risky l - take) (loan_bucket l) (loan_bal l)
         (hwm l) (max_dd_risky l) (hwm_total l) (max_dd_total l)
         (rm_limit l) (rm_bal l - take) (rm_ever_used l) (failed l) (fail_idx l).

(** The latch [rm_ever_used | (rm_bal > 0)]. *)
Definition latch (l : Lane) : Lane :=
  mkLane (cash l) (base_treas l) (risky l) (loan_bucket l) (loan_bal l)
         (hwm l) (max_dd_risky l) (hwm_total l) (max_dd_total l)
         (rm_limit l) (rm_bal l)
         (rm_ever_used l || Qltb 0 (rm_bal l)) (failed l) (fail_idx l).

(** *** One year on one lane *)

(** The lane after the loan and reverse-mortgage substeps of year [t]
    (growth through RM growth), with the year's drawdown. *)
Definition before_spending (pay : Q) (t : nat) (new_bal r : Q) (l : Lane) : Q * Lane :=
  let l1 := mark (grow r l) in
  let drawdown := drawdown_of (hwm l1) (risky l1) in
  let l2 := loan_payment pay t drawdown new_bal l1 in
  (drawdown, rm_growth t (rm_open t drawdown l2)).

(** The spending substeps of year [t] (income through the RM latch). *)
Definition spending (w : list Q) (t : nat) (drawdown : Q) (l : Lane) : Lane :=
  let mf := max_feasible drawdown l in
  let l1 := check_floor t mf (save_surplus w t drawdown l) in
  let spend := spend_assets w t drawdown mf l1 in
  latch (repay drawdown (refill w t drawdown (fund drawdown spend l1))).

Definition year_lane (pay : Q) (w : list Q) (t : nat) (new_bal r : Q) (l : Lane) : Lane :=
  let '(drawdown, l1) := before_spending pay t new_bal r l in
  spending w t drawdown l1.

(** *** The year loop over all lanes *)

(** [returns[:, t]] as seen by the [n] lanes: a one-row array is
    broadcast, otherwise lane [i] reads row [i]. *)
Definition column (n t : nat) : list Q :=
  match rows (returns a) with
  | [row] => repeat (nth t row 0) n
  | rs => map (fun row => nth t row 0) rs
  end.

(** The scalar assigned to [loan_bal[:]] in year [t] when the payment
    block runs. *)
Definition next_loan_bal (pay : Q) (t : nat) : outcome Q :=
  if has_loan && (Z.of_nat t <? rm_open_t)%Z then
    let k := (Z.of_nat t + 1)%Z in
    if (k <=? loan_term_years a)%Z
    then Loan.loan_balance_after_k (inject_Z (loan_amount a)) (loan_real_rate a) pay k
    else Ok 0
  else Ok 0.

Definition year_step (pay : Q) (w : list Q) (t : nat) (lanes : list Lane)
  : outcome (list Lane) :=
  new_bal <- next_loan_bal pay t ;;
  Ok (map (fun rl => year_lane pay w t new_bal (fst rl) (snd rl))
          (combine (column (List.length lanes) t) lanes)).

(** The lanes after the first [k] iterations of [for t in range(n_years)]. *)
Fixpoint run_years (pay : Q) (w : list Q) (k : nat) : outcome (list Lane) :=
  match k with
  | O => Ok (repeat (init_lane w) (Z.to_nat (n_sims a)))
  | S k' => lanes <- run_years pay w k' ;; year_step pay w k' lanes
  end.

(** [amort_payment] and [build_withdrawals] as [simulate_once] calls them. *)
Definition the_pay : outcome Q :=
  Loan.amort_payment (inject_Z (loan_amount a)) (loan_real_rate a) (loan_term_years a).

Definition the_w : outcome (list Q) :=
  build_withdrawals (inject_Z (E a)) n_years age_of (partial_year_fraction a)
    (income_applies_to_actual_spend a) (ss_annual_real a) (ss_start_age a)
    (earned_income_annual_real a) (earned_income_start_age a)
    (earned_income_end_age a).

(** Whether [risky *= 1.0 + returns[:, t]] broadcasts: the array has
    [n_sims] rows or a single one. *)
Definition broadcastable : bool :=
  let r := Z.of_nat (List.length (rows (returns a))) in
  ((r =? n_sims a) || (r =? 1))%Z.

(** The per-path arrays after the first [k] years of [simulate_once],
    with the exceptions of the set-up code in the order the source
    meets them: [floor_assets[0]] on an empty horizon, [amort_payment],
    [np.full] on a negative [n_sims], [cash[0]] on an empty array, and
    the broadcast of the first year's returns. *)
Definition lanes_after (k : nat) : outcome (list Lane) :=
  match n_years with
  | O => Raise IndexError
  | S _ =>
    pay <- the_pay ;;
    w <- the_w ;;
    if (n_sims a <? 0)%Z then Raise ValueError
    else if (n_sims a =? 0)%Z then Raise IndexError
    else if negb broadcastable then Raise ValueError
    else run_years pay w k
  end.

End Kernel.

(** *** Metrics *)

Record Metrics : Type := mkMetrics {
  p_success_death_weighted : Q;
  p_success_to_age_99 : Q;
  median_max_dd_risky : Q;
  median_max_dd_total : Q;
  home_equity_remaining_median : Q;
  p_any_rm_draw : Q;
  rm_balance_end_median : Q;
  risky_end_median : Q;
  total_net_end_median : Q;
  net_worth_end_median : Q
}.

Fixpoint insert_sorted (x : Q) (l : list Q) : list Q :=
  match l with
  | [] => [x]
  | y :: rest => if Qleb x y then x :: l else y :: insert_sorted x rest
  end.

Definition sort (l : list Q) : list Q := fold_right insert_sorted [] l.

(** [np.median] of a non-empty array: the middle element of the sorted
    array, or the mean of the two middle ones. *)
Definition np_median (l : list Q) : Q :=
  let s := sort l in
  let n := List.length s in
  if Nat.even n then (nth (n / 2 - 1) s 0 + nth (n / 2) s 0) / 2
  else nth (n / 2) s 0.

Definition total_net_end (l : Lane) : Q :=
  cash l + base_treas l + risky l + loan_bucket l - loan_bal l.

Definition home_equity_remaining (a : Args) (l : Lane) : Q :=
  fmax 0 (home_value_real a - rm_bal l).

Definition metrics_of (a : Args) (lanes : list Lane) : outcome Metrics :=
  let ages_model := map (age_of a) (seq 0 (n_years a)) in
  pp <- Mortality.death_weighted_success (map fail_idx lanes) ages_model ;;
  rm_used <- Mortality.mean_bool (map rm_ever_used lanes) ;;
  Ok (mkMetrics (fst pp) (snd pp)
        (np_median (map max_dd_risky lanes))
        (np_median (map max_dd_total lanes))
        (np_median (map (home_equity_remaining a) lanes))
        rm_used
        (np_median (map rm_bal lanes))
        (np_median (map risky lanes))
        (np_median (map total_net_end lanes))
        (np_median (map (fun l => total_net_end l + home_equity_remaining a l) lanes))).

Definition simulate_once (a : Args) : outcome Metrics :=
  lanes <- lanes_after a (n_years a) ;;
  metrics_of a lanes.

End Engine.


(** ** simulation/optimizer.py *)

Module Optimizer.

Import Engine.

(** [int(x)] of a float: truncation toward zero. *)
Definition py_int (x : Q) : Z := Z.quot (Qnum x) (Zpos (Qden x)).

Definition objective_p (optimize_success_metric : string) (both_weight : Q)
    (metrics : Metrics) : Q :=
  let p_dw := p_success_death_weighted metrics in
  let p99 := p_success_to_age_99 metrics in
  if String.eqb optimize_success_metric "age_99" then p99
  else if String.eqb optimize_success_metric "both_min" then fmin p_dw p99
  else if String.eqb optimize_success_metric "both_weighted"
       then both_weight * p_dw + (1 - both_weight) * p99
  else p_dw.

(** The variables of the search after the set-up, with the list of the
    evaluations made so far (spending level and metrics, oldest first);
    the list is not a variable of the source. *)
Record Search : Type := mkSearch {
  lo : Z;
  metrics_lo : Metrics;
  hi : Z;
  evaluated : list (Z * Metrics)
}.

Section Search.

(** [sim E] is [simulate_once(returns=returns, E=E, **sim_kwargs)]. *)
Variable sim : Z -> outcome Metrics.
Variable target : Q.
Variable objective : Metrics -> Q.

(** The [while] loop that widens the bracket.  Python loops have no
    bound; the model stops with [Diverges] when [fuel] iterations were
    not enough. *)
Fixpoint expand (fuel : nat) (s : Search) (metrics_hi : Metrics) : outcome Search :=
  if Qleb target (objective metrics_hi) && (hi s <? 600000)%Z then
    match fuel with
    | O => Raise Diverges
    | S fuel' =>
      let hi' := py_int (inject_Z (hi s) * (125 # 100)) in
      metrics_hi' <- sim hi' ;;
      expand fuel'
             (mkSearch (hi s) metrics_hi hi' (evaluated s ++ [(hi', metrics_hi')]))
             metrics_hi'
    end
  else Ok s.

(** The [for _ in range(e_search_iters)] loop. *)
Fixpoint bisect (iters : nat) (s : Search) : outcome Search :=
  match iters with
  | O => Ok s
  | S iters' =>
    let mid := ((lo s + hi s) / 2)%Z in
    metrics_mid <- sim mid ;;
    if Qleb target (objective metrics_mid)
    then bisect iters' (mkSearch mid metrics_mid (hi s)
                                 (evaluated s ++ [(mid, metrics_mid)]))
    else bisect iters' (mkSearch (lo s) (metrics_lo s) (mid - 1)
                                 (evaluated s ++ [(mid, metrics_mid)]))
  end.

(** The search up to its [return]: the final variables, and whether
    the early return of the degenerate case was taken. *)
Definition search (fuel : nat) (e_lo e_hi e_search_iters : Z)
  : outcome (bool * Search) :=
  metrics_lo <- sim e_lo ;;
  if Qltb (objective metrics_lo) target
  then Ok (true, mkSearch e_lo metrics_lo e_hi [(e_lo, metrics_lo)])
  else
    metrics_hi <- sim e_hi ;;
    s <- expand fuel
                (mkSearch e_lo metrics_lo e_hi [(e_lo, metrics_lo); (e_hi, metrics_hi)])
                metrics_hi ;;
    s <- bisect (Z.to_nat e_search_iters) s ;;
    Ok (false, s).

End Search.

(** [simulate_once(returns=returns, E=E, **sim_kwargs)]: [kw] carries
    the keyword arguments; its [E] and [returns] fields are not read. *)
Definition invoke (kw : Args) (rets : Returns) (e : Z) : outcome Metrics :=
  simulate_once
    (mkArgs
       (n_sims kw) (start_portfolio kw) (start_age kw)
       (partial_year_fraction kw) (seed kw) rets
       (reserve_years kw) (reserve_cash_fraction kw) (safe_real_return kw)
       e (floor_annual_real kw)
       (income_applies_to_actual_spend kw) (ss_annual_real kw)
       (ss_start_age kw) (earned_income_annual_real kw)
       (earned_income_start_age kw) (earned_income_end_age kw)
       (allow_surplus_savings kw) (surplus_allocation kw)
       (dd1 kw) (dd2 kw) (cut1 kw) (cut2 kw)
       (baseline_e_for_flex kw) (baseline_flex_pre kw)
       (baseline_net_post_ss kw) (baseline_flex_post kw)
       (rm_open_age kw) (home_value_real kw) (rm_plf_at_open kw)
       (rm_limit_real_growth kw) (rm_bal_real_rate kw)
       (rm_partial_cover kw) (rm_repay_rate kw) (payoff_dd_threshold kw)
       (loan_amount kw) (loan_real_rate kw) (loan_term_years kw)
       (loan_bucket_real_return kw) (loan_bucket_use_dd kw)
       (loan_bucket_partial_cover kw)).

(** The variables of [find_max_E] at its [return]. *)
Definition find_max_E_state (fuel : nat) (rets : Returns) (target : Q)
    (e_lo e_hi e_search_iters : Z) (optimize_success_metric : string)
    (both_weight : Q) (kw : Args) : outcome (bool * Search) :=
  search (invoke kw rets) target (objective_p optimize_success_metric both_weight)
         fuel e_lo e_hi e_search_iters.

Definition find_max_E (fuel : nat) (rets : Returns) (target : Q)
    (e_lo e_hi e_search_iters : Z) (optimize_success_metric : string)
    (both_weight : Q) (kw : Args) : outcome (Z * Metrics) :=
  r <- find_max_E_state fuel rets target e_lo e_hi e_search_iters
                        optimize_success_metric both_weight kw ;;
  Ok (lo (snd r), metrics_lo (snd r)).

End Optimizer.

(** ** simulation/returns.py, models/schemas.py and main.py *)

Module Api.

Import Engine Optimizer.

(** [ScenarioConfig]: typed fields with defaults, and no validator. *)
Record ScenarioConfig : Type := mkScenarioConfig {
  c_seed : Z;
  c_n_sims : Z;
  c_start_age : Z;
  c_partial_year_fraction : Q;
  return_mu_real : Q;
  return_vol_real : Q;
  mode : string;
  e_fixed : Q;
  target_success_death_weighted : Q;
  e_lo : Z;
  e_hi : Z;
  e_search_iters : Z;
  optimize_success_metric : string;
  both_weight : Q;
  c_ss_annual_real : Q;
  c_ss_start_age : Z;
  c_earned_income_annual_real : Q;
  c_earned_income_start_age : Z;
  c_earned_income_end_age : Z;
  c_income_applies_to_actual_spend : bool;
  c_allow_surplus_savings : bool;
  c_surplus_allocation : string;
  c_floor_annual_real : Q;
  c_reserve_cash_fraction : Q;
  c_safe_real_return : Q;
  c_dd1 : Q;
  c_dd2 : Q;
  c_cut1 : Q;
  c_cut2 : Q;
  c_baseline_e_for_flex : Q;
  c_baseline_flex_pre : Q;
  c_baseline_net_post_ss : Q;
  c_baseline_flex_post : Q;
  c_rm_open_age : Z;
  c_home_value_real : Q;
  c_rm_plf_at_open : Q;
  c_rm_limit_real_growth : Q;
  c_rm_bal_real_rate : Q;
  c_rm_partial_cover : Q;
  c_rm_repay_rate : Q;
  c_payoff_dd_threshold : Q;
  c_loan_real_rate : Q;
  c_loan_term_years : Z;
  c_loan_bucket_real_return : Q;
  c_loan_bucket_use_dd : Q;
  c_loan_bucket_partial_cover : Q;
  start_portfolios : list Q;
  reserve_years_list : list Q;
  loan_amounts : list Z
}.

(** The defaults of [ScenarioConfig]. *)
Definition default_config : ScenarioConfig :=
  mkScenarioConfig
    424242 25000 53 (894444 # 1000000)
    (4 # 100) (10 # 100)
    "optimize" 80000 (90 # 100) 40000 220000 19 "death_weighted" (1 # 2)
    46405 63 0 54 62 true false "reserve_first"
    60000
    (1 # 2) (1 # 100)
    (15 # 100) (25 # 100) (50 # 100) 1 99300 20000 52895 10000
    62 950000 (40 # 100) (15 # 1000) (15 # 1000) (50 # 100) (15 # 100) (5 # 100)
    (3 # 100) 30 (1 # 100) (15 # 100) (50 # 100)
    [1477000] [1] [0%Z].

(** One row of the response; the ten metrics are kept as one record. *)
Record GridPointResult : Type := mkGridPointResult {
  g_start_portfolio : Q;
  g_reserve_years : Q;
  g_loan_amount : Z;
  max_E_real_per_year : option Z;
  E_real_per_year : option Z;
  g_metrics : Metrics
}.

Section Draws.

(** [normal seed n_sims n_years mu vol] stands for the array that
    [np.random.default_rng(seed).normal(mu, vol, size=(n_sims, n_years))]
    returns. *)
Variable normal : Z -> nat -> nat -> Q -> Q -> list (list Q).

(** [generate_returns]: [np.random.default_rng] refuses a negative
    seed, and the generator refuses a negative dimension and a negative
    scale, each with [ValueError]; the draws are clipped below at
    -0.99. *)
Definition generate_returns (seed n_sims n_years : Z) (mu vol : Q) : outcome Returns :=
  if (seed <? 0)%Z then Raise ValueError
  else if ((n_sims <? 0) || (n_years <? 0))%Z then Raise ValueError
  else if Qltb vol 0 then Raise ValueError
  else
    let r := normal seed (Z.to_nat n_sims) (Z.to_nat n_years) mu vol in
    Ok (mkReturns (map (map (fun x => fmax x (-(99 # 100)))) r) (Z.to_nat n_years)).

(** The keyword arguments common to every grid point, with the grid
    coordinates of one point.  [E] and [returns] are passed on each call
    of the kernel and are not read from this record. *)
Definition kw (cfg : ScenarioConfig) (start_p reserve_years : Q) (loan_amount : Z)
  : Args :=
  mkArgs
    (c_n_sims cfg) start_p (c_start_age cfg) (c_partial_year_fraction cfg)
    (c_seed cfg) (mkReturns [] 0)
    reserve_years (c_reserve_cash_fraction cfg) (c_safe_real_return cfg)
    0 (c_floor_annual_real cfg)
    (c_income_applies_to_actual_spend cfg) (c_ss_annual_real cfg)
    (c_ss_start_age cfg) (c_earned_income_annual_real cfg)
    (c_earned_income_start_age cfg) (c_earned_income_end_age cfg)
    (c_allow_surplus_savings cfg) (c_surplus_allocation cfg)
    (c_dd1 cfg) (c_dd2 cfg) (c_cut1 cfg) (c_cut2 cfg)
    (c_baseline_e_for_flex cfg) (c_baseline_flex_pre cfg)
    (c_baseline_net_post_ss cfg) (c_baseline_flex_post cfg)
    (c_rm_open_age cfg) (c_home_value_real cfg) (c_rm_plf_at_open cfg)
    (c_rm_limit_real_growth cfg) (c_rm_bal_real_rate cfg)
    (c_rm_partial_cover cfg) (c_rm_repay_rate cfg) (c_payoff_dd_threshold cfg)
    loan_amount (c_loan_real_rate cfg) (c_loan_term_years cfg)
    (c_loan_bucket_real_return cfg) (c_loan_bucket_use_dd cfg)
    (c_loan_bucket_partial_cover cfg).

(** The grid in sweep order. *)
Definition grid (cfg : ScenarioConfig) : list (Q * Q * Z) :=
  flat_map (fun start_p =>
    flat_map (fun reserve_years =>
      map (fun loan_amount => (start_p, reserve_years, loan_amount))
          (loan_amounts cfg))
      (reserve_years_list cfg))
    (start_portfolios cfg).

(** The body of the innermost loop. *)
Definition grid_point (fuel : nat) (cfg : ScenarioConfig) (rets : Returns)
    (p : Q * Q * Z) : outcome GridPointResult :=
  let '(start_p, reserve_years, loan_amount) := p in
  let kwargs := kw cfg start_p reserve_years loan_amount in
  if String.eqb (mode cfg) "single" then
    metrics <- invoke kwargs rets (py_int (e_fixed cfg)) ;;
    Ok (mkGridPointResult start_p reserve_years loan_amount
                          None (Some (py_int (e_fixed cfg))) metrics)
  else
    r <- find_max_E fuel rets (target_success_death_weighted cfg)
                    (e_lo cfg) (e_hi cfg) (e_search_iters cfg)
                    (optimize_success_metric cfg) (both_weight cfg) kwargs ;;
    Ok (mkGridPointResult start_p reserve_years loan_amount
                          (Some (fst r)) None (snd r)).

(** The returns array of a request: the statements of
    [_run_simulation] before its loops. *)
Definition request_returns (cfg : ScenarioConfig) : outcome Returns :=
  let n_years := (99 - c_start_age cfg + 1)%Z in
  generate_returns (c_seed cfg) (c_n_sims cfg) n_years
                   (return_mu_real cfg) (return_vol_real cfg).

(** [_run_simulation]: the rows of the response. *)
Definition _run_simulation (fuel : nat) (cfg : ScenarioConfig)
  : outcome (list GridPointResult) :=
  rets <- request_returns cfg ;;
  Mortality.collect (map (grid_point fuel cfg rets) (grid cfg)).

(** The spending level of the first call of [simulate_once] at a grid
    point: [int(e_fixed)] in single mode, [e_lo] in optimize mode. *)
Definition first_E (cfg : ScenarioConfig) : Z :=
  if String.eqb (mode cfg) "single" then py_int (e_fixed cfg) else e_lo cfg.

(** The first call of [simulate_once] that [_run_simulation] makes, by
    its spending level and keyword arguments: none when the grid is
    empty, and an exception when one is raised before the loops. *)
Definition first_kernel_call (cfg : ScenarioConfig)
  : outcome (option (Args * Returns * Z)) :=
  rets <- request_returns cfg ;;
  match grid cfg with
  | [] => Ok None
  | (start_p, reserve_years, loan_amount) :: _ =>
    Ok (Some (kw cfg start_p reserve_years loan_amount, rets, first_E cfg))
  end.

End Draws.

End Api.
(** ** Vocabulary of the statements *)

(** The plain sum of a list of rationals. *)
Definition total (l : list Q) : Q := fold_right Qplus 0 l.

(** The share of the entries of [l] that satisfy [f]. *)
Definition share {A : Type} (f : A -> bool) (l : list A) : Q :=
  inject_Z (Z.of_nat (List.length (filter f l))) / inject_Z (Z.of_nat (List.length l)).

(** A boolean test of [Forall2]. *)
Definition forall2b {A B : Type} (f : A -> B -> bool) (xs : list A) (ys : list B) : bool :=
  Nat.eqb (List.length xs) (List.length ys)
  && forallb (fun xy => f (fst xy) (snd xy)) (combine xs ys).

(** The arguments [a] with other values for [seed] and
    [allow_surplus_savings], every other argument kept. *)
Definition with_seed_and_flag (a : Engine.Args) (s : Z) (b : bool) : Engine.Args :=
  Engine.mkArgs
    (Engine.n_sims a) (Engine.start_portfolio a) (Engine.start_age a)
    (Engine.partial_year_fraction a) s (Engine.returns a)
    (Engine.reserve_years a) (Engine.reserve_cash_fraction a)
    (Engine.safe_real_return a)
    (Engine.E a) (Engine.floor_annual_real a)
    (Engine.income_applies_to_actual_spend a) (Engine.ss_annual_real a)
    (Engine.ss_start_age a) (Engine.earned_income_annual_real a)
    (Engine.earned_income_start_age a) (Engine.earned_income_end_age a)
    b (Engine.surplus_allocation a)
    (Engine.dd1 a) (Engine.dd2 a) (Engine.cut1 a) (Engine.cut2 a)
    (Engine.baseline_e_for_flex a) (Engine.baseline_flex_pre a)
    (Engine.baseline_net_post_ss a) (Engine.baseline_flex_post a)
    (Engine.rm_open_age a) (Engine.home_value_real a) (Engine.rm_plf_at_open a)
    (Engine.rm_limit_real_growth a) (Engine.rm_bal_real_rate a)
    (Engine.rm_partial_cover a) (Engine.rm_repay_rate a)
    (Engine.payoff_dd_threshold a)
    (Engine.loan_amount a) (Engine.loan_real_rate a) (Engine.loan_term_years a)
    (Engine.loan_bucket_real_return a) (Engine.loan_bucket_use_dd a)
    (Engine.loan_bucket_partial_cover a).

(** The balances that the kernel keeps non-negative, and the drawn
    reverse-mortgage balance within its limit. *)
Definition balances_ok (l : Engine.Lane) : Prop :=
  0 <= Engine.cash l /\ 0 <= Engine.base_treas l /\ 0 <= Engine.loan_bucket l
  /\ 0 <= Engine.loan_bal l
  /\ 0 <= Engine.rm_bal l /\ Engine.rm_bal l <= Engine.rm_limit l.

(** Ranges of the arguments under which the balances stay in range. *)
Record in_range (a : Engine.Args) : Prop := {
  portfolio_nonneg : 0 <= Engine.start_portfolio a;
  reserve_years_nonneg : 0 <= Engine.reserve_years a;
  reserve_cash_fraction_nonneg : 0 <= Engine.reserve_cash_fraction a;
  safe_growth_nonneg : -(1) <= Engine.safe_real_return a;
  bucket_growth_nonneg : -(1) <= Engine.loan_bucket_real_return a;
  line_at_open_nonneg : 0 <= Engine.home_value_real a * Engine.rm_plf_at_open a;
  balance_growth_nonneg : -(1) <= Engine.rm_bal_real_rate a;
  balance_growth_below_limit_growth :
    Engine.rm_bal_real_rate a <= Engine.rm_limit_real_growth a;
  rm_cover_fraction : 0 <= Engine.rm_partial_cover a <= 1;
  bucket_cover_at_most_one : Engine.loan_bucket_partial_cover a <= 1;
  repay_fraction : 0 <= Engine.rm_repay_rate a <= 1;
  floor_nonneg : 0 <= Engine.floor_annual_real a;
  partial_year_nonneg : 0 <= Engine.partial_year_fraction a;
  loan_rate_positive : (Engine.loan_amount a <= 0)%Z \/ 0 < Engine.loan_real_rate a
}.

(** How one substep may change the failure latch in year [t]: not at
    all, or from unset to set with [fail_idx = t]. *)
Definition latch_step (t : nat) (l l' : Engine.Lane) : Prop :=
  (Engine.failed l' = Engine.failed l /\ Engine.fail_idx l' = Engine.fail_idx l)
  \/ (Engine.failed l = false /\ Engine.failed l' = true
      /\ Engine.fail_idx l' = Z.of_nat t).

(** The arguments [a] at the spending level [e]. *)
Definition with_E (a : Engine.Args) (e : Z) : Engine.Args :=
  Engine.mkArgs
    (Engine.n_sims a) (Engine.start_portfolio a) (Engine.start_age a)
    (Engine.partial_year_fraction a) (Engine.seed a) (Engine.returns a)
    (Engine.reserve_years a) (Engine.reserve_cash_fraction a)
    (Engine.safe_real_return a)
    e (Engine.floor_annual_real a)
    (Engine.income_applies_to_actual_spend a) (Engine.ss_annual_real a)
    (Engine.ss_start_age a) (Engine.earned_income_annual_real a)
    (Engine.earned_income_start_age a) (Engine.earned_income_end_age a)
    (Engine.allow_surplus_savings a) (Engine.surplus_allocation a)
    (Engine.dd1 a) (Engine.dd2 a) (Engine.cut1 a) (Engine.cut2 a)
    (Engine.baseline_e_for_flex a) (Engine.baseline_flex_pre a)
    (Engine.baseline_net_post_ss a) (Engine.baseline_flex_post a)
    (Engine.rm_open_age a) (Engine.home_value_real a) (Engine.rm_plf_at_open a)
    (Engine.rm_limit_real_growth a) (Engine.rm_bal_real_rate a)
    (Engine.rm_partial_cover a) (Engine.rm_repay_rate a)
    (Engine.payoff_dd_threshold a)
    (Engine.loan_amount a) (Engine.loan_real_rate a) (Engine.loan_term_years a)
    (Engine.loan_bucket_real_return a) (Engine.loan_bucket_use_dd a)
    (Engine.loan_bucket_partial_cover a).

(** The value of an outcome that is known to be [Ok]. *)
Definition lanes_of (o : outcome (list Engine.Lane)) : list Engine.Lane :=
  match o with Ok l => l | Raise _ => [] end.

Definition value_of (o : outcome Q) : Q :=
  match o with Ok x => x | Raise _ => 0 end.

Definition schedule_of (o : outcome (list Q)) : list Q :=
  match o with Ok x => x | Raise _ => [] end.

(** [lo] was evaluated with the metrics carried along, and met the
    target. *)
Definition lo_passes (sim : Z -> outcome Engine.Metrics) (target : Q)
    (objective : Engine.Metrics -> Q) (s : Optimizer.Search) : Prop :=
  sim (Optimizer.lo s) = Ok (Optimizer.metrics_lo s)
  /\ target <= objective (Optimizer.metrics_lo s).

(** What the search knows above its final bracket: the bracket end or
    the value after it was evaluated and missed the target, or the
    bracket end is at the cap of the expansion. *)
Definition ceiling (sim : Z -> outcome Engine.Metrics) (target : Q)
    (objective : Engine.Metrics -> Q) (s : Optimizer.Search) : Prop :=
  exists mh,
    (sim (Optimizer.hi s) = Ok mh
     /\ (objective mh < target \/ (600000 <= Optimizer.hi s)%Z))
    \/ (sim (Optimizer.hi s + 1)%Z = Ok mh /\ objective mh < target).

(** Every evaluated level that met the target is at most [lo], or is
    the bracket end [cap]. *)
Definition passing_below (target : Q) (objective : Engine.Metrics -> Q)
    (s : Optimizer.Search) (cap : Z) : Prop :=
  forall e m, In (e, m) (Optimizer.evaluated s) -> target <= objective m ->
              (e <= Optimizer.lo s)%Z \/ e = cap.

(** ** Scenarios *)

Module Scenarios.

(** One path; whole first year; reserve of one year, half in cash; safe
    return 0; no Social Security and no earned income; all of the
    planned spending flexible; guardrails at 15% and 25% with cuts of
    one half and all; principal limit factor one half and a credit line
    that does not grow; loan at 100% over two years. *)
Definition scenario (portfolio : Q) (age : Z) (rets : list Q) (e : Z) (floor : Q)
    (rm_age : Z) (home rm_rate : Q) (loan : Z) : Engine.Args :=
  Engine.mkArgs
    1 portfolio age 1 424242 (Engine.mkReturns [rets] (List.length rets))
    1 (1 # 2) 0
    e floor true 0 200 0 0 0 false "reserve_first"
    (15 # 100) (25 # 100) (1 # 2) 1 1 1 1 1
    rm_age home (1 # 2) 0 rm_rate (1 # 2) (15 # 100) (5 # 100)
    loan 1 2 0 (15 # 100) (1 # 2).

(** Three years at -50% from age 96, a floor of 20, no home, no loan. *)
Definition crash (e : Z) : Engine.Args :=
  scenario 100 96 [-(1 # 2); -(1 # 2); -(1 # 2); 0] e 20 200 0 0 0.

(** No portfolio; a home of 100 whose credit line opens at once and
    pays the floor of 50; the drawn balance grows at [rm_rate]. *)
Definition house_rich (rm_rate : Q) : Engine.Args :=
  scenario 0 98 [0; 0] 50 50 98 100 rm_rate 0.

(** A portfolio of 100 against a floor of 1000, with a loan of 10. *)
Definition indebted : Engine.Args :=
  scenario 100 97 [0; 0; 0] 0 1000 200 0 0 10.

(** Two flat years on a portfolio of 103 with a floor of 1: the second
    year's floor is funded exactly when the first year spent at most
    102. *)
Definition two_years (e : Z) : Engine.Args :=
  scenario 103 98 [0; 0] e 1 200 0 0 0.

(** One flat year without a floor: no spending level fails. *)
Definition carefree (e : Z) : Engine.Args :=
  scenario 100 99 [0] e 0 200 0 0 0.

(** [find_max_E] on a scenario, for the death-weighted objective with
    target one half. *)
Definition optimize (fuel : nat) (a : Engine.Args) (e_lo e_hi iters : Z)
  : outcome (bool * Optimizer.Search) :=
  Optimizer.find_max_E_state fuel (Engine.returns a) (1 # 2) e_lo e_hi iters
                             "death_weighted" (1 # 2) a.

(** Draws that all equal the mean. *)
Definition flat_draws (seed : Z) (n_sims n_years : nat) (mu vol : Q) : list (list Q) :=
  repeat (repeat mu n_years) n_sims.

(** The default configuration with other values for [n_sims],
    [start_age] and [dd1]. *)
Definition config (sims age : Z) (first_guardrail : Q) : Api.ScenarioConfig :=
  Api.mkScenarioConfig
    424242 sims age (894444 # 1000000)
    (4 # 100) (10 # 100)
    "optimize" 80000 (90 # 100) 40000 220000 19 "death_weighted" (1 # 2)
    46405 63 0 54 62 true false "reserve_first"
    60000
    (1 # 2) (1 # 100)
    first_guardrail (25 # 100) (50 # 100) 1 99300 20000 52895 10000
    62 950000 (40 # 100) (15 # 1000) (15 # 1000) (50 # 100) (15 # 100) (5 # 100)
    (3 # 100) 30 (1 # 100) (15 # 100) (50 # 100)
    [1477000] [1] [0%Z].

(** The lane of [indebted] after its first year. *)
Definition indebted_lane : Engine.Lane :=
  nth 0 (lanes_of (Engine.lanes_after indebted 1)) (Engine.init_lane indebted []).

End Scenarios.

From Stdlib Require Import Permutation.

(** ** Vocabulary of the further statements *)

(** What a lane holds in its four accounts, net of the drawn
    reverse-mortgage balance. *)
Definition liquid (l : Engine.Lane) : Q :=
  Engine.cash l + Engine.base_treas l + Engine.risky l + Engine.loan_bucket l
  - Engine.rm_bal l.

(** The part of the year's spending that the funding order takes from
    no source: the value of [rem] after the last funding step of
    [simulate_once] (the steps are those of [Engine.fund]). *)
Definition unfunded (a : Engine.Args) (drawdown spend : Q) (l : Engine.Lane) : Q :=
  let rem := spend in
  let '(_, rem) := Accounts.take_from (Engine.cash l) rem in
  let '(_, rem) := Accounts.take_from (Engine.base_treas l) rem in
  let allow := Qleb (Engine.loan_bucket_use_dd a) drawdown && negb (Engine.failed l)
               && Qltb 0 (Engine.loan_bucket l) in
  let take_loan :=
    if allow
    then fmin (rem * Engine.loan_bucket_partial_cover a) (Engine.loan_bucket l)
    else 0 in
  let bucket1 := Engine.loan_bucket l - take_loan in
  let rem := rem - take_loan in
  let avail := fmax 0 (Engine.rm_limit l - Engine.rm_bal l) in
  let take_rm :=
    if Qleb (Engine.dd2 a) drawdown && negb (Engine.failed l)
    then fmin (rem * Engine.rm_partial_cover a) avail else 0 in
  let rm_bal1 := Engine.rm_bal l + take_rm in
  let rem := rem - take_rm in
  let '(_, rem) := Accounts.take_from (Engine.risky l) rem in
  let avail := fmax 0 (Engine.rm_limit l - rm_bal1) in
  let take_rm2 := fmin rem avail in
  let rem := rem - take_rm2 in
  let allow2 := Qleb (Engine.loan_bucket_use_dd a) drawdown && negb (Engine.failed l)
                && Qltb eps rem in
  let take := fmin rem bucket1 in
  if allow2 then rem - take else rem.

(** Every return of the array is at least [b]. *)
Definition returns_at_least (b : Q) (r : Engine.Returns) : Prop :=
  Forall (Forall (fun x => b <= x)) (Engine.rows r).

(** The grid coordinates of a row of the response. *)
Definition coordinates (g : Api.GridPointResult) : Q * Q * Z :=
  (Api.g_start_portfolio g, Api.g_reserve_years g, Api.g_loan_amount g).

(** The arguments [a] with another loan rate, every other argument
    kept. *)
Definition with_loan_rate (a : Engine.Args) (r : Q) : Engine.Args :=
  Engine.mkArgs
    (Engine.n_sims a) (Engine.start_portfolio a) (Engine.start_age a)
    (Engine.partial_year_fraction a) (Engine.seed a) (Engine.returns a)
    (Engine.reserve_years a) (Engine.reserve_cash_fraction a)
    (Engine.safe_real_return a)
    (Engine.E a) (Engine.floor_annual_real a)
    (Engine.income_applies_to_actual_spend a) (Engine.ss_annual_real a)
    (Engine.ss_start_age a) (Engine.earned_income_annual_real a)
    (Engine.earned_income_start_age a) (Engine.earned_income_end_age a)
    (Engine.allow_surplus_savings a) (Engine.surplus_allocation a)
    (Engine.dd1 a) (Engine.dd2 a) (Engine.cut1 a) (Engine.cut2 a)
    (Engine.baseline_e_for_flex a) (Engine.baseline_flex_pre a)
    (Engine.baseline_net_post_ss a) (Engine.baseline_flex_post a)
    (Engine.rm_open_age a) (Engine.home_value_real a) (Engine.rm_plf_at_open a)
    (Engine.rm_limit_real_growth a) (Engine.rm_bal_real_rate a)
    (Engine.rm_partial_cover a) (Engine.rm_repay_rate a)
    (Engine.payoff_dd_threshold a)
    (Engine.loan_amount a) r (Engine.loan_term_years a)
    (Engine.loan_bucket_real_return a) (Engine.loan_bucket_use_dd a)
    (Engine.loan_bucket_partial_cover a).

(** A lane with 100 in [risky] below a high-water mark of 200, a loan
    balance of 10 and a loan bucket of 10. *)
Definition sample_lane : Engine.Lane :=
  Engine.mkLane 5 5 100 10 10 200 0 220 0 0 0 false false 3.

(** [Scenarios.crash] cut to its three falling years: ages 97 to 99. *)
Definition short_crash (e : Z) : Engine.Args :=
  Scenarios.scenario 100 97 [-(1 # 2); -(1 # 2); -(1 # 2)] e 20 200 0 0 0.

(** A portfolio of 60 that plans 100 a year against a floor of 1000,
    with a loan of 36, and a home of 10 whose credit line opens in the
    second year (age 98). *)
Definition overdue : Engine.Args :=
  Scenarios.scenario 60 97 [0; 0; 0] 100 1000 98 10 0 36.

(** [safe_targets] as a call, with the exception of its index:
    [w[min(t + 1, len(w) - 1)]] is a numpy index, so a negative index
    counts from the end and an index out of range raises.  On a
    schedule with at least one entry and for [t >= 0] it returns what
    [Accounts.safe_targets] gives. *)
Module Raising.

Definition safe_targets (w : list Q) (t : Z) (reserve_years reserve_cash_fraction : Q)
  : outcome (Q * Q) :=
  nxt <- Mortality.np_get w (Z.min (t + 1) (Z.of_nat (List.length w) - 1)) ;;
  let tgt_total := reserve_years * nxt in
  let tgt_cash := reserve_cash_fraction * tgt_total in
  let tgt_base := tgt_total - tgt_cash in
  Ok (tgt_cash, tgt_base).

End Raising.

(** * Properties *)

Lemma Ok_inj {A : Type} (x y : A) : Ok x = Ok y -> x = y.
Proof. intro H. congruence. Qed.

(** ** Comparisons and lane arithmetic *)

Lemma Qleb_true (x y : Q) : Qleb x y = true <-> x <= y.
Proof. unfold Qleb. apply Qle_bool_iff. Qed.

Lemma Qleb_false (x y : Q) : Qleb x y = false <-> y < x.
Proof.
  unfold Qleb. split; intro H.
  - apply Qnot_le_lt. intro C. apply Qle_bool_iff in C. congruence.
  - destruct (Qle_bool x y) eqn:B; [|reflexivity].
    apply Qle_bool_iff in B. exfalso. apply (Qlt_not_le _ _ H B).
Qed.

Lemma Qltb_true (x y : Q) : Qltb x y = true <-> x < y.
Proof.
  unfold Qltb. rewrite negb_true_iff. apply (Qleb_false y x).
Qed.

Lemma Qltb_false (x y : Q) : Qltb x y = false <-> y <= x.
Proof.
  unfold Qltb. rewrite negb_false_iff. apply (Qleb_true y x).
Qed.

Lemma Qeq_bool_false (x y : Q) : ~ x == y -> Qeq_bool x y = false.
Proof.
  intro H. destruct (Qeq_bool x y) eqn:B; [|reflexivity].
  exfalso. apply H. apply Qeq_bool_iff. exact B.
Qed.

(** Replaces every boolean comparison of the goal by the order fact it
    decides, branch by branch. *)
Ltac qcompare :=
  repeat match goal with
  | |- context [Qleb ?x ?y] =>
      let B := fresh "B" in
      destruct (Qleb x y) eqn:B;
      [apply Qleb_true in B | apply Qleb_false in B]
  | |- context [Qltb ?x ?y] =>
      let B := fresh "B" in
      destruct (Qltb x y) eqn:B;
      [apply Qltb_true in B | apply Qltb_false in B]
  end.

Ltac qcompare_in H :=
  repeat match type of H with
  | context [Qleb ?x ?y] =>
      let B := fresh "B" in
      destruct (Qleb x y) eqn:B;
      [apply Qleb_true in B | apply Qleb_false in B]
  | context [Qltb ?x ?y] =>
      let B := fresh "B" in
      destruct (Qltb x y) eqn:B;
      [apply Qltb_true in B | apply Qltb_false in B]
  end.

Lemma fmax_cases (x y : Q) : (x <= y /\ fmax x y = y) \/ (y < x /\ fmax x y = x).
Proof. unfold fmax. qcompare; auto. Qed.

Lemma fmin_cases (x y : Q) : (x <= y /\ fmin x y = x) \/ (y < x /\ fmin x y = y).
Proof. unfold fmin. qcompare; auto. Qed.

Lemma fmax_lb_l (x y : Q) : x <= fmax x y.
Proof. destruct (fmax_cases x y) as [[H ->]|[H ->]]; lra. Qed.

Lemma fmax_lb_r (x y : Q) : y <= fmax x y.
Proof. destruct (fmax_cases x y) as [[H ->]|[H ->]]; lra. Qed.

Lemma fmin_ub_l (x y : Q) : fmin x y <= x.
Proof. destruct (fmin_cases x y) as [[H ->]|[H ->]]; lra. Qed.

Lemma fmin_ub_r (x y : Q) : fmin x y <= y.
Proof. destruct (fmin_cases x y) as [[H ->]|[H ->]]; lra. Qed.

Lemma fmin_glb (x y z : Q) : z <= x -> z <= y -> z <= fmin x y.
Proof. intros. destruct (fmin_cases x y) as [[H' ->]|[H' ->]]; lra. Qed.

(** ** Loan amortization (simulation/loan.py) *)

Section LoanFacts.

Import Loan.

Lemma py_pow_defined (x : Q) (e : Z) :
  ~ (x == 0 /\ (e < 0)%Z) -> py_pow x e = Ok (x ^ e).
Proof.
  intro H. unfold py_pow.
  destruct (Qeq_bool x 0) eqn:B; [|reflexivity].
  destruct (e <? 0)%Z eqn:C; [|reflexivity].
  exfalso. apply H. split.
  - apply Qeq_bool_iff. exact B.
  - apply Z.ltb_lt. exact C.
Qed.

Lemma py_div_defined (x y : Q) : ~ y == 0 -> py_div x y = Ok (x / y).
Proof. intro H. unfold py_div. rewrite (Qeq_bool_false _ _ H). reflexivity. Qed.

Lemma positive_principal (P : Q) : 0 < P -> Qleb P 0 = false.
Proof. intro H. apply Qleb_false. exact H. Qed.

(** C9, as amended.  A non-positive principal gives payment 0 and
    balance 0.  For a positive principal and a non-zero rate, the
    payment is
    [(r*P)/(1 - (1+r)^(-n))] whenever that power is defined and differs
    from 1, the balance after [k] payments is
    [P*(1+r)^k - pay*((1+r)^k - 1)/r] whenever that power is defined,
    and the balance after 0 payments is [P]. *)
Theorem amortization_closed_forms :
  forall (P r pay : Q) (n k : Z),
    (P <= 0 ->
       amort_payment P r n = Ok 0 /\ loan_balance_after_k P r pay k = Ok 0)
    /\ (0 < P -> ~ r == 0 -> ~ (1 + r == 0 /\ (0 < n)%Z) ->
        ~ (1 + r) ^ (- n) == 1 ->
        amort_payment P r n = Ok ((r * P) / (1 - (1 + r) ^ (- n))))
    /\ (0 < P -> ~ r == 0 -> ~ (1 + r == 0 /\ (k < 0)%Z) ->
        exists b, loan_balance_after_k P r pay k = Ok b
                  /\ b == P * (1 + r) ^ k - pay * ((1 + r) ^ k - 1) / r)
    /\ (0 < P -> ~ r == 0 ->
        exists b, loan_balance_after_k P r pay 0 = Ok b /\ b == P).
Proof.
  intros P r pay n k. repeat split.
  - unfold amort_payment. apply Qleb_true in H. rewrite H. reflexivity.
  - unfold loan_balance_after_k. apply Qleb_true in H. rewrite H. reflexivity.
  - intros HP Hr Hdef Hne. unfold amort_payment.
    rewrite (positive_principal _ HP). cbv zeta.
    rewrite py_pow_defined by (intros [H0 Hn]; apply Hdef; split; [exact H0 | lia]).
    cbn [bind]. apply py_div_defined. intro C. apply Hne. lra.
  - intros HP Hr Hdef. unfold loan_balance_after_k.
    rewrite (positive_principal _ HP). cbv zeta.
    rewrite py_pow_defined by exact Hdef. cbn [bind].
    rewrite py_div_defined by exact Hr. cbn [bind].
    eexists. split; [reflexivity|]. field. exact Hr.
  - intros HP Hr. unfold loan_balance_after_k.
    rewrite (positive_principal _ HP). cbv zeta.
    rewrite py_pow_defined by (intros [_ C]; lia). cbn [bind].
    rewrite py_div_defined by exact Hr. cbn [bind].
    eexists. split; [reflexivity|].
    change ((1 + r) ^ 0) with 1. field. exact Hr.
Qed.

(** The closed forms at a loan of 100 over 2 years at 100% interest, and
    at a loan of 0. *)
Lemma amortization_closed_forms_witness :
  (Loan.amort_payment 0 1 2 = Ok 0 /\ Loan.loan_balance_after_k 0 1 5 1 = Ok 0)
  /\ Loan.amort_payment 100 1 2 = Ok ((1 * 100) / (1 - (1 + 1) ^ (- (2))))
  /\ (exists b, Loan.loan_balance_after_k 100 1 5 1 = Ok b
                /\ b == 100 * (1 + 1) ^ 1 - 5 * ((1 + 1) ^ 1 - 1) / 1)
  /\ (exists b, Loan.loan_balance_after_k 100 1 5 0 = Ok b /\ b == 100).
Proof.
  destruct (amortization_closed_forms 0 1 5 2 1) as [H0 _].
  destruct (amortization_closed_forms 100 1 5 2 1) as [_ [H1 [H2 H3]]].
  split; [apply H0; lra|].
  split; [apply H1|].
  - lra.
  - intro C. vm_compute in C. discriminate.
  - intros [C _]. vm_compute in C. discriminate.
  - intro C. vm_compute in C. discriminate.
  - split; [apply H2 | apply H3].
    + lra.
    + intro C. vm_compute in C. discriminate.
    + intros [C _]. vm_compute in C. discriminate.
    + lra.
    + intro C. vm_compute in C. discriminate.
Defined.

(** C9 as stated fails: with [P = 100] and [r = -1] (so [P > 0],
    [r <> 0], and a power that is not 1) the payment over two years
    raises [ZeroDivisionError], from [0.0 ** -2]; so does the balance
    at [k = -1]. *)
Lemma amortization_raises_at_rate_minus_one :
  0 < 100 /\ ~ -(1) == 0 /\ ~ (1 + -(1)) ^ (- (2)) == 1
  /\ amort_payment 100 (-(1)) 2 = Raise ZeroDivisionError
  /\ loan_balance_after_k 100 (-(1)) 5 (-1) = Raise ZeroDivisionError.
Proof.
  split; [lra|]. split; [intro C; vm_compute in C; discriminate|].
  split; [intro C; vm_compute in C; discriminate|].
  split; reflexivity.
Qed.

End LoanFacts.

(** ** Mortality weighting (simulation/mortality.py) *)

Section MortalityFacts.

Import Mortality.


Lemma np_sum_total (l : list Q) : np_sum l == total l.
Proof.
  induction l as [|x l IH].
  - reflexivity.
  - change (np_sum (x :: l)) with (Qred (x + np_sum l)).
    rewrite Qred_correct, IH. reflexivity.
Qed.

Lemma collect_map {A B : Type} (f : A -> outcome B) (g : A -> B) (l : list A) :
  (forall x, In x l -> f x = Ok (g x)) ->
  collect (map f l) = Ok (map g l).
Proof.
  induction l as [|x l IH]; intro H; simpl.
  - reflexivity.
  - rewrite (H x) by (left; reflexivity). simpl.
    rewrite IH by (intros y Hy; apply H; right; exact Hy).
    reflexivity.
Qed.


Lemma count_true_filter {A : Type} (f : A -> bool) (l : list A) :
  count_occ bool_dec (map f l) true = List.length (filter f l).
Proof.
  induction l as [|x l IH]; simpl; [reflexivity|].
  destruct (f x); simpl; rewrite IH; reflexivity.
Qed.

Lemma mean_bool_share {A : Type} (f : A -> bool) (l : list A) :
  l <> [] -> mean_bool (map f l) = Ok (share f l).
Proof.
  intro H. destruct l as [|x l]; [congruence|].
  unfold mean_bool, share.
  destruct (map f (x :: l)) eqn:M; [discriminate|].
  rewrite <- M, count_true_filter, length_map. reflexivity.
Qed.

Lemma filter_length_le {A : Type} (f : A -> bool) (l : list A) :
  (List.length (filter f l) <= List.length l)%nat.
Proof.
  induction l as [|x l IH]; simpl; [lia|]. destruct (f x); simpl; lia.
Qed.

Lemma share_bounds {A : Type} (f : A -> bool) (l : list A) :
  l <> [] -> 0 <= share f l <= 1.
Proof.
  intro H. unfold share.
  assert (Hlen : (0 < List.length l)%nat)
    by (destruct l; [congruence | simpl; lia]).
  pose proof (filter_length_le f l) as Hle.
  assert (Hpos : 0 < inject_Z (Z.of_nat (List.length l))).
  { change 0 with (inject_Z 0). rewrite <- Zlt_Qlt. lia. }
  split.
  - apply Qle_shift_div_l; [exact Hpos|].
    rewrite Qmult_0_l. change 0 with (inject_Z 0). rewrite <- Zle_Qle. lia.
  - apply Qle_shift_div_r; [exact Hpos|].
    rewrite Qmult_1_l. rewrite <- Zle_Qle. lia.
Qed.

Lemma share_ext_in {A : Type} (f g : A -> bool) (l : list A) :
  (forall x, In x l -> f x = g x) -> share f l = share g l.
Proof.
  intro H. unfold share. rewrite (filter_ext_in f g l H). reflexivity.
Qed.

(** A dictionary of year indices only answers with year indices. *)
Lemma dict_get_range (d : list (Z * Z)) (key dflt n : Z) :
  (0 <= dflt < n)%Z ->
  Forall (fun kv => (0 <= snd kv < n)%Z) d ->
  (0 <= dict_get d key dflt < n)%Z.
Proof.
  unfold dict_get. revert dflt.
  induction d as [|kv d IH]; intros dflt Hd Hall; simpl.
  - exact Hd.
  - inversion Hall as [|? ? Hkv Hrest]; subst.
    apply IH; [|exact Hrest].
    destruct (fst kv =? key)%Z; assumption.
Qed.

Lemma age_to_t_range (ages_model : list Z) :
  Forall (fun kv => (0 <= snd kv < Z.of_nat (List.length ages_model))%Z)
         (age_to_t ages_model).
Proof.
  unfold age_to_t. apply Forall_forall. intros [k v] Hin.
  apply in_combine_r in Hin. apply in_map_iff in Hin.
  destruct Hin as [i [<- Hi]]. apply in_seq in Hi. simpl. lia.
Qed.

Lemma np_get_in_range {A : Type} (l : list A) (i : Z) (d : A) :
  (0 <= i < Z.of_nat (List.length l))%Z ->
  np_get l i = Ok (nth (Z.to_nat i) l d).
Proof.
  intro H. unfold np_get. cbv zeta.
  destruct (i <? 0)%Z eqn:B; [apply Z.ltb_lt in B; lia|].
  rewrite B.
  destruct (Z.of_nat (List.length l) <=? i)%Z eqn:C; [apply Z.leb_le in C; lia|].
  simpl.
  destruct (nth_error l (Z.to_nat i)) eqn:N.
  - rewrite (nth_error_nth _ _ d N). reflexivity.
  - apply nth_error_None in N. lia.
Qed.

(** A weighted sum of values in [0,1] lies between 0 and the sum of its
    non-negative weights. *)
Lemma weighted_sum_bounds (ps vs : list Q) :
  Forall (fun p => 0 <= p) ps ->
  Forall (fun v => 0 <= v <= 1) vs ->
  0 <= total (np_mul ps vs) <= total ps.
Proof.
  intro Hp. revert vs.
  induction Hp as [|p ps Hp0 Hps IH]; intros vs Hv.
  - simpl. lra.
  - destruct vs as [|v vs].
    + simpl. clear IH. induction Hps as [|q qs Hq _ IHq]; simpl in *; lra.
    + inversion Hv as [|? ? Hv0 Hvs]; subst.
      specialize (IH vs Hvs). unfold np_mul in *. simpl.
      unfold total in *. simpl. nra.
Qed.

(** Raising the values of a weighted sum with non-negative weights raises
    the sum. *)
Lemma weighted_sum_mono (ps us vs : list Q) :
  Forall (fun p => 0 <= p) ps ->
  Forall2 Qle us vs ->
  total (np_mul ps us) <= total (np_mul ps vs).
Proof.
  intros Hp Huv. revert ps Hp.
  induction Huv as [|u v us vs Huv0 Huv IH]; intros ps Hp.
  - destruct ps; simpl; lra.
  - destruct ps as [|p ps]; [simpl; lra|].
    inversion Hp as [|? ? Hp0 Hps]; subst.
    specialize (IH ps Hps). unfold np_mul, total in *. simpl. nra.
Qed.


Lemma forall2b_Forall2 {A B : Type} (f : A -> B -> bool) (R : A -> B -> Prop) :
  (forall x y, f x y = true -> R x y) ->
  forall xs ys, forall2b f xs ys = true -> Forall2 R xs ys.
Proof.
  intros Hf xs. unfold forall2b.
  induction xs as [|x xs IH]; intros [|y ys] H; simpl in H;
    try discriminate; [constructor|].
  apply andb_true_iff in H. destruct H as [Hlen H].
  apply andb_true_iff in H. destruct H as [Hxy H].
  constructor; [apply Hf; exact Hxy|].
  apply IH. rewrite Hlen. exact H.
Qed.

Lemma weights_nonneg : Forall (fun p => 0 <= p) (snd mortality_weights).
Proof.
  apply Forall_forall. intros p Hp.
  assert (H : forallb (fun p => Qleb 0 p) (snd mortality_weights) = true)
    by (vm_compute; reflexivity).
  rewrite forallb_forall in H. apply Qleb_true. apply H. exact Hp.
Qed.

Lemma weights_total : total (snd mortality_weights) == 1.
Proof.
  rewrite <- np_sum_total. apply Qeq_bool_iff. vm_compute. reflexivity.
Qed.

Lemma weights_length :
  List.length (fst mortality_weights) = 47%nat
  /\ List.length (snd mortality_weights) = 47%nat.
Proof. split; vm_compute; reflexivity. Qed.

(** The outcome of [death_weighted_success] on at least one path and at
    least one model year. *)
Lemma death_weighted_success_value (fail_idx ages_model : list Z) :
  fail_idx <> [] -> ages_model <> [] ->
  let n := List.length ages_model in
  let ruin t := share (fun f => (f <=? Z.of_nat t)%Z) fail_idx in
  let ruin_by_age :=
    map (fun a => nth (Z.to_nat (dict_get (age_to_t ages_model) a (Z.of_nat n - 1)))
                      (map ruin (seq 0 n)) 0)
        (fst mortality_weights) in
  death_weighted_success fail_idx ages_model
  = Ok (np_sum (np_mul (snd mortality_weights) (map (fun r => 1 - r) ruin_by_age)),
        share (fun f => (Z.of_nat n <=? f)%Z) fail_idx).
Proof.
  intros Hf Ha n ruin ruin_by_age.
  unfold death_weighted_success.
  rewrite (surjective_pairing mortality_weights).
  fold n.
  rewrite (collect_map _ ruin)
    by (intros t _; apply mean_bool_share; exact Hf).
  cbn [bind].
  rewrite (collect_map _
    (fun a => nth (Z.to_nat (dict_get (age_to_t ages_model) a (Z.of_nat n - 1)))
                  (map ruin (seq 0 n)) 0)).
  - cbn [bind]. rewrite (mean_bool_share _ _ Hf). cbn [bind]. reflexivity.
  - intros age _. apply np_get_in_range.
    rewrite length_map, length_seq.
    assert (Hn : (0 < n)%nat)
      by (subst n; destruct ages_model; [congruence | simpl; lia]).
    apply dict_get_range; [lia | apply age_to_t_range].
Qed.

(** C7, as amended.  [mortality_weights] returns, over the 47 rows of the
    life table, the vector [dx / sum dx], which sums to 1; and for every
    non-empty [fail_idx] array with entries in [0, horizon], on a
    horizon of at least one year, [death_weighted_success] returns
    [p99 = mean(fail_idx >= horizon) = mean(fail_idx == horizon)] and a
    [p_dw] in [0,1]. *)
Theorem mortality_aggregation :
  (Forall2 Qeq (snd mortality_weights)
               (map (fun d => d / total dx_column) dx_column)
   /\ List.length (snd mortality_weights) = 47%nat
   /\ total (snd mortality_weights) == 1)
  /\ forall fail_idx ages_model : list Z,
       fail_idx <> [] -> ages_model <> [] ->
       let horizon := Z.of_nat (List.length ages_model) in
       Forall (fun f => (0 <= f <= horizon)%Z) fail_idx ->
       exists p_dw p99,
         death_weighted_success fail_idx ages_model = Ok (p_dw, p99)
         /\ p99 = share (fun f => (horizon <=? f)%Z) fail_idx
         /\ p99 = share (fun f => (f =? horizon)%Z) fail_idx
         /\ 0 <= p_dw <= 1.
Proof.
  split.
  - split; [|split].
    + apply (forall2b_Forall2 Qeq_bool Qeq).
      * intros x y H. apply Qeq_bool_iff. exact H.
      * vm_compute. reflexivity.
    + apply weights_length.
    + apply weights_total.
  - intros fail_idx ages_model Hf Ha horizon Hrange.
    rewrite (death_weighted_success_value _ _ Hf Ha). cbv zeta.
    eexists. eexists. split; [reflexivity|]. fold horizon.
    split; [reflexivity|]. split.
    + apply share_ext_in. intros f Hin.
      rewrite Forall_forall in Hrange. specialize (Hrange f Hin).
      destruct (horizon <=? f)%Z eqn:B1, (f =? horizon)%Z eqn:B2;
        try reflexivity; exfalso.
      * apply Z.leb_le in B1. apply Z.eqb_neq in B2. lia.
      * apply Z.leb_gt in B1. apply Z.eqb_eq in B2. lia.
    + rewrite np_sum_total.
      pose proof weights_total as Htot.
      match goal with
      | |- 0 <= total (np_mul _ ?vs) <= 1 =>
          pose proof (weighted_sum_bounds (snd mortality_weights) vs weights_nonneg) as Hb
      end.
      rewrite <- Htot. apply Hb.
      apply Forall_forall. intros v Hv.
      apply in_map_iff in Hv. destruct Hv as [r [<- Hr]].
      apply in_map_iff in Hr. destruct Hr as [age [<- _]].
      set (i := Z.to_nat _).
      destruct (Nat.lt_ge_cases i (List.length ages_model)) as [Hi|Hi].
      * rewrite (nth_indep _ 0 (share (fun f => (f <=? Z.of_nat 0)%Z) fail_idx))
          by (rewrite length_map, length_seq; exact Hi).
        rewrite (map_nth (fun t => share (fun f => (f <=? Z.of_nat t)%Z) fail_idx)).
        pose proof (share_bounds (fun f => (f <=? Z.of_nat (nth i (seq 0 (List.length ages_model)) 0%nat))%Z)
                                 fail_idx Hf) as Hs.
        lra.
      * rewrite nth_overflow by (rewrite length_map, length_seq; exact Hi). lra.
Qed.

(** The aggregation on two paths, one failing in the last of two years. *)
Lemma mortality_aggregation_witness :
  exists p_dw p99,
    death_weighted_success [1%Z; 2%Z] [98%Z; 99%Z] = Ok (p_dw, p99)
    /\ p99 = share (fun f => (2 <=? f)%Z) [1%Z; 2%Z]
    /\ p99 = share (fun f => (f =? 2)%Z) [1%Z; 2%Z]
    /\ 0 <= p_dw <= 1.
Proof.
  destruct mortality_aggregation as [_ H].
  apply (H [1%Z; 2%Z] [98%Z; 99%Z]).
  - discriminate.
  - discriminate.
  - repeat constructor; simpl; lia.
Defined.

(** C7 as stated fails on an empty horizon: the look-up
    [ruin_by_t[n_years - 1]] raises although the single entry of
    [fail_idx] lies in [0, horizon]. *)
Lemma death_weighted_success_empty_horizon :
  Forall (fun f => (0 <= f <= Z.of_nat (List.length (@nil Z)))%Z) [0%Z]
  /\ death_weighted_success [0%Z] [] = Raise IndexError.
Proof.
  split.
  - repeat constructor; simpl; lia.
  - vm_compute. reflexivity.
Qed.

(** On an empty [fail_idx] array the means are [nan]. *)
Example death_weighted_success_no_path :
  death_weighted_success [] [98%Z; 99%Z] = Raise NanResult.
Proof. vm_compute. reflexivity. Qed.

End MortalityFacts.

(** ** The simulation kernel (simulation/engine.py) *)

Section UnreadArguments.

Import Accounts Guardrails Engine.

Create Rewrite HintDb unread.

Ltac reduce_projections :=
  cbv beta iota delta
    [with_seed_and_flag n_sims start_portfolio start_age partial_year_fraction
     seed returns reserve_years reserve_cash_fraction safe_real_return E
     floor_annual_real income_applies_to_actual_spend ss_annual_real
     ss_start_age earned_income_annual_real earned_income_start_age
     earned_income_end_age allow_surplus_savings surplus_allocation dd1 dd2
     cut1 cut2 baseline_e_for_flex baseline_flex_pre baseline_net_post_ss
     baseline_flex_post rm_open_age home_value_real rm_plf_at_open
     rm_limit_real_growth rm_bal_real_rate rm_partial_cover rm_repay_rate
     payoff_dd_threshold loan_amount loan_real_rate loan_term_years
     loan_bucket_real_return loan_bucket_use_dd loan_bucket_partial_cover].

(** Every definition of the kernel takes the same value at arguments
    that differ in [seed] and [allow_surplus_savings] only: its body
    reads the other fields and the definitions before it. *)
Ltac unread f :=
  unfold f; autorewrite with unread; reduce_projections; reflexivity.

Lemma n_years_unread a s b : n_years (with_seed_and_flag a s b) = n_years a.
Proof. unread n_years. Qed.
#[local] Hint Rewrite n_years_unread : unread.

Lemma age_of_unread a s b : age_of (with_seed_and_flag a s b) = age_of a.
Proof. unread age_of. Qed.
#[local] Hint Rewrite age_of_unread : unread.

Lemma floor_assets_unread a s b : floor_assets (with_seed_and_flag a s b) = floor_assets a.
Proof. unread floor_assets. Qed.
#[local] Hint Rewrite floor_assets_unread : unread.

Lemma pre_flex_pct_unread a s b : pre_flex_pct (with_seed_and_flag a s b) = pre_flex_pct a.
Proof. unread pre_flex_pct. Qed.
#[local] Hint Rewrite pre_flex_pct_unread : unread.

Lemma post_flex_pct_unread a s b : post_flex_pct (with_seed_and_flag a s b) = post_flex_pct a.
Proof. unread post_flex_pct. Qed.
#[local] Hint Rewrite post_flex_pct_unread : unread.

Lemma rm_open_t_unread a s b : rm_open_t (with_seed_and_flag a s b) = rm_open_t a.
Proof. unread rm_open_t. Qed.
#[local] Hint Rewrite rm_open_t_unread : unread.

Lemma rm_limit_open_unread a s b : rm_limit_open (with_seed_and_flag a s b) = rm_limit_open a.
Proof. unread rm_limit_open. Qed.
#[local] Hint Rewrite rm_limit_open_unread : unread.

Lemma has_loan_unread a s b : has_loan (with_seed_and_flag a s b) = has_loan a.
Proof. unread has_loan. Qed.
#[local] Hint Rewrite has_loan_unread : unread.

Lemma init_lane_unread a s b : init_lane (with_seed_and_flag a s b) = init_lane a.
Proof. unread init_lane. Qed.
#[local] Hint Rewrite init_lane_unread : unread.

Lemma grow_unread a s b : grow (with_seed_and_flag a s b) = grow a.
Proof. unread grow. Qed.
#[local] Hint Rewrite grow_unread : unread.

Lemma loan_payment_unread a s b : loan_payment (with_seed_and_flag a s b) = loan_payment a.
Proof. unread loan_payment. Qed.
#[local] Hint Rewrite loan_payment_unread : unread.

Lemma rm_open_unread a s b : rm_open (with_seed_and_flag a s b) = rm_open a.
Proof. unread rm_open. Qed.
#[local] Hint Rewrite rm_open_unread : unread.

Lemma rm_growth_unread a s b : rm_growth (with_seed_and_flag a s b) = rm_growth a.
Proof. unread rm_growth. Qed.
#[local] Hint Rewrite rm_growth_unread : unread.

Lemma flex_pct_unread a s b : flex_pct (with_seed_and_flag a s b) = flex_pct a.
Proof. unread flex_pct. Qed.
#[local] Hint Rewrite flex_pct_unread : unread.

Lemma flex_amt_unread a s b : flex_amt (with_seed_and_flag a s b) = flex_amt a.
Proof. unread flex_amt. Qed.
#[local] Hint Rewrite flex_amt_unread : unread.

Lemma floor_amt_unread a s b : floor_amt (with_seed_and_flag a s b) = floor_amt a.
Proof. unread floor_amt. Qed.
#[local] Hint Rewrite floor_amt_unread : unread.

Lemma desired_unread a s b : desired (with_seed_and_flag a s b) = desired a.
Proof. unread desired. Qed.
#[local] Hint Rewrite desired_unread : unread.

Lemma max_feasible_unread a s b : max_feasible (with_seed_and_flag a s b) = max_feasible a.
Proof. unread max_feasible. Qed.
#[local] Hint Rewrite max_feasible_unread : unread.

Lemma income_scalar_unread a s b : income_scalar (with_seed_and_flag a s b) = income_scalar a.
Proof. unread income_scalar. Qed.
#[local] Hint Rewrite income_scalar_unread : unread.

Lemma asset_desired_unread a s b : asset_desired (with_seed_and_flag a s b) = asset_desired a.
Proof. unread asset_desired. Qed.
#[local] Hint Rewrite asset_desired_unread : unread.

Lemma floor_need_assets_unread a s b : floor_need_assets (with_seed_and_flag a s b) = floor_need_assets a.
Proof. unread floor_need_assets. Qed.
#[local] Hint Rewrite floor_need_assets_unread : unread.

Lemma save_surplus_unread a s b : save_surplus (with_seed_and_flag a s b) = save_surplus a.
Proof. unread save_surplus. Qed.
#[local] Hint Rewrite save_surplus_unread : unread.

Lemma check_floor_unread a s b : check_floor (with_seed_and_flag a s b) = check_floor a.
Proof. unread check_floor. Qed.
#[local] Hint Rewrite check_floor_unread : unread.

Lemma spend_assets_unread a s b : spend_assets (with_seed_and_flag a s b) = spend_assets a.
Proof. unread spend_assets. Qed.
#[local] Hint Rewrite spend_assets_unread : unread.

Lemma fund_unread a s b : fund (with_seed_and_flag a s b) = fund a.
Proof. unread fund. Qed.
#[local] Hint Rewrite fund_unread : unread.

Lemma good_unread a s b : good (with_seed_and_flag a s b) = good a.
Proof. unread good. Qed.
#[local] Hint Rewrite good_unread : unread.

Lemma refill_add_cash_unread a s b : refill_add_cash (with_seed_and_flag a s b) = refill_add_cash a.
Proof. unread refill_add_cash. Qed.
#[local] Hint Rewrite refill_add_cash_unread : unread.

Lemma refill_add_base_unread a s b : refill_add_base (with_seed_and_flag a s b) = refill_add_base a.
Proof. unread refill_add_base. Qed.
#[local] Hint Rewrite refill_add_base_unread : unread.

Lemma refill_unread a s b : refill (with_seed_and_flag a s b) = refill a.
Proof. unread refill. Qed.
#[local] Hint Rewrite refill_unread : unread.

Lemma repay_take_unread a s b : repay_take (with_seed_and_flag a s b) = repay_take a.
Proof. unread repay_take. Qed.
#[local] Hint Rewrite repay_take_unread : unread.

Lemma repay_unread a s b : repay (with_seed_and_flag a s b) = repay a.
Proof. unread repay. Qed.
#[local] Hint Rewrite repay_unread : unread.

Lemma before_spending_unread a s b : before_spending (with_seed_and_flag a s b) = before_spending a.
Proof. unread before_spending. Qed.
#[local] Hint Rewrite before_spending_unread : unread.

Lemma spending_unread a s b : spending (with_seed_and_flag a s b) = spending a.
Proof. unread spending. Qed.
#[local] Hint Rewrite spending_unread : unread.

Lemma year_lane_unread a s b : year_lane (with_seed_and_flag a s b) = year_lane a.
Proof. unread year_lane. Qed.
#[local] Hint Rewrite year_lane_unread : unread.

Lemma column_unread a s b : column (with_seed_and_flag a s b) = column a.
Proof. unread column. Qed.
#[local] Hint Rewrite column_unread : unread.

Lemma next_loan_bal_unread a s b : next_loan_bal (with_seed_and_flag a s b) = next_loan_bal a.
Proof. unread next_loan_bal. Qed.
#[local] Hint Rewrite next_loan_bal_unread : unread.

Lemma year_step_unread a s b : year_step (with_seed_and_flag a s b) = year_step a.
Proof. unread year_step. Qed.
#[local] Hint Rewrite year_step_unread : unread.

Lemma run_years_unread a s b : run_years (with_seed_and_flag a s b) = run_years a.
Proof. unread run_years. Qed.
#[local] Hint Rewrite run_years_unread : unread.

Lemma the_pay_unread a s b : the_pay (with_seed_and_flag a s b) = the_pay a.
Proof. unread the_pay. Qed.
#[local] Hint Rewrite the_pay_unread : unread.

Lemma the_w_unread a s b : the_w (with_seed_and_flag a s b) = the_w a.
Proof. unread the_w. Qed.
#[local] Hint Rewrite the_w_unread : unread.

Lemma broadcastable_unread a s b : broadcastable (with_seed_and_flag a s b) = broadcastable a.
Proof. unread broadcastable. Qed.
#[local] Hint Rewrite broadcastable_unread : unread.

Lemma lanes_after_unread a s b : lanes_after (with_seed_and_flag a s b) = lanes_after a.
Proof. unread lanes_after. Qed.
#[local] Hint Rewrite lanes_after_unread : unread.

Lemma home_equity_remaining_unread a s b : home_equity_remaining (with_seed_and_flag a s b) = home_equity_remaining a.
Proof. unread home_equity_remaining. Qed.
#[local] Hint Rewrite home_equity_remaining_unread : unread.

Lemma metrics_of_unread a s b : metrics_of (with_seed_and_flag a s b) = metrics_of a.
Proof. unread metrics_of. Qed.
#[local] Hint Rewrite metrics_of_unread : unread.

(** C10.  [simulate_once] reads neither [seed] nor
    [allow_surplus_savings]: changing them, with every other argument
    (the returns array included) kept, gives the same metrics. *)
Theorem seed_and_surplus_flag_unused :
  forall (a : Args) (s : Z) (b : bool),
    simulate_once (with_seed_and_flag a s b) = simulate_once a.
Proof.
  intros a s b. unfold simulate_once.
  rewrite lanes_after_unread, n_years_unread, metrics_of_unread.
  reflexivity.
Qed.

End UnreadArguments.

(** *** The substeps, one lane at a time *)

Import Accounts Guardrails Engine.

Ltac lane_simpl :=
  cbn [cash base_treas risky loan_bucket loan_bal hwm max_dd_risky hwm_total
       max_dd_total rm_limit rm_bal rm_ever_used failed fail_idx fst snd].

Section Substeps.

(** What a withdrawal leaves in the account and in the remainder. *)
Lemma take_from_spec (arr amount arr' rem : Q) :
  take_from arr amount = (arr', rem) ->
  arr - arr' == amount - rem
  /\ (0 <= arr -> 0 <= arr')
  /\ (0 <= amount -> 0 <= rem <= amount /\ arr' <= arr)
  /\ (amount <= 0 -> rem == 0).
Proof.
  unfold take_from. intro H. injection H as <- <-.
  destruct (fmax_cases arr 0) as [[H1 ->]|[H1 ->]];
    [destruct (fmin_cases amount 0) as [[H2 ->]|[H2 ->]]
    |destruct (fmin_cases amount arr) as [[H2 ->]|[H2 ->]]];
    repeat split; intros; lra.
Qed.

Lemma take_from_zero (arr amount : Q) :
  amount == 0 -> fst (take_from arr amount) == arr /\ snd (take_from arr amount) == 0.
Proof.
  intro H. destruct (take_from arr amount) as [arr' rem] eqn:T.
  apply take_from_spec in T. destruct T as (T1 & _ & _ & T4). simpl.
  assert (rem == 0) by (apply T4; lra). split; lra.
Qed.

Variable a : Args.

(** The fields of the lane after funding, in terms of the amounts the
    funding order moves. *)
Lemma fund_fields (drawdown spend : Q) (l : Lane) :
  exists cash1 rem1 base1 rem2 take_loan take_rm risky1 rem5 take_rm2 bucket2,
    take_from (cash l) spend = (cash1, rem1)
    /\ take_from (base_treas l) rem1 = (base1, rem2)
    /\ take_loan =
       (if Qleb (loan_bucket_use_dd a) drawdown && negb (failed l)
           && Qltb 0 (loan_bucket l)
        then fmin (rem2 * loan_bucket_partial_cover a) (loan_bucket l) else 0)
    /\ take_rm =
       (if Qleb (dd2 a) drawdown && negb (failed l)
        then fmin ((rem2 - take_loan) * rm_partial_cover a)
                  (fmax 0 (rm_limit l - rm_bal l))
        else 0)
    /\ take_from (risky l) (rem2 - take_loan - take_rm) = (risky1, rem5)
    /\ take_rm2 = fmin rem5 (fmax 0 (rm_limit l - (rm_bal l + take_rm)))
    /\ bucket2 =
       (if Qleb (loan_bucket_use_dd a) drawdown && negb (failed l)
           && Qltb eps (rem5 - take_rm2)
        then loan_bucket l - take_loan
             - fmin (rem5 - take_rm2) (loan_bucket l - take_loan)
        else loan_bucket l - take_loan)
    /\ fund a drawdown spend l
       = mkLane cash1 base1 risky1 bucket2 (loan_bal l)
                (hwm l) (max_dd_risky l) (hwm_total l) (max_dd_total l)
                (rm_limit l) (rm_bal l + take_rm + take_rm2)
                (rm_ever_used l) (failed l) (fail_idx l).
Proof.
  unfold fund.
  destruct (take_from (cash l) spend) as [cash1 rem1] eqn:T1.
  destruct (take_from (base_treas l) rem1) as [base1 rem2] eqn:T2.
  cbv zeta.
  destruct (take_from (risky l) _) as [risky1 rem5] eqn:T3.
  exists cash1, rem1, base1, rem2. do 2 eexists. exists risky1, rem5.
  do 2 eexists.
  split; [reflexivity|]. split; [exact T2|].
  split; [reflexivity|]. split; [reflexivity|].
  split; [exact T3|].
  split; [reflexivity|]. split; reflexivity.
Qed.

End Substeps.

(** *** Fields that a substep leaves alone *)

Create Rewrite HintDb frame.

Ltac untouched :=
  intros;
  first
    [ reflexivity
    | match goal with
      | |- _ (fund ?a ?d ?s ?l) = _ =>
          destruct (fund_fields a d s l)
            as (? & ? & ? & ? & ? & ? & ? & ? & ? & ? & _ & _ & _ & _ & _ & _ & _ & ->);
          reflexivity
      end
    | unfold save_surplus, loan_payment, rm_open, rm_growth;
      repeat match goal with
             | |- context [take_from ?x ?y] => destruct (take_from x y)
             | |- context [safe_targets ?w ?t ?x ?y] => destruct (safe_targets w t x y)
             | |- context [if ?c then _ else _] => destruct c
             end;
      reflexivity ].

Lemma latch_cash l : cash (latch  l) = cash l.
Proof. untouched. Qed.
#[global] Hint Rewrite latch_cash : frame.

Lemma latch_base_treas l : base_treas (latch  l) = base_treas l.
Proof. untouched. Qed.
#[global] Hint Rewrite latch_base_treas : frame.

Lemma latch_risky l : risky (latch  l) = risky l.
Proof. untouched. Qed.
#[global] Hint Rewrite latch_risky : frame.

Lemma latch_loan_bucket l : loan_bucket (latch  l) = loan_bucket l.
Proof. untouched. Qed.
#[global] Hint Rewrite latch_loan_bucket : frame.

Lemma latch_loan_bal l : loan_bal (latch  l) = loan_bal l.
Proof. untouched. Qed.
#[global] Hint Rewrite latch_loan_bal : frame.

Lemma latch_hwm l : hwm (latch  l) = hwm l.
Proof. untouched. Qed.
#[global] Hint Rewrite latch_hwm : frame.

Lemma latch_max_dd_risky l : max_dd_risky (latch  l) = max_dd_risky l.
Proof. untouched. Qed.
#[global] Hint Rewrite latch_max_dd_risky : frame.

Lemma latch_hwm_total l : hwm_total (latch  l) = hwm_total l.
Proof. untouched. Qed.
#[global] Hint Rewrite latch_hwm_total : frame.

Lemma latch_max_dd_total l : max_dd_total (latch  l) = max_dd_total l.
Proof. untouched. Qed.
#[global] Hint Rewrite latch_max_dd_total : frame.

Lemma latch_rm_limit l : rm_limit (latch  l) = rm_limit l.
Proof. untouched. Qed.
#[global] Hint Rewrite latch_rm_limit : frame.

Lemma latch_rm_bal l : rm_bal (latch  l) = rm_bal l.
Proof. untouched. Qed.
#[global] Hint Rewrite latch_rm_bal : frame.

Lemma latch_failed l : failed (latch  l) = failed l.
Proof. untouched. Qed.
#[global] Hint Rewrite latch_failed : frame.

Lemma latch_fail_idx l : fail_idx (latch  l) = fail_idx l.
Proof. untouched. Qed.
#[global] Hint Rewrite latch_fail_idx : frame.

Lemma repay_cash a drawdown l : cash (repay a drawdown l) = cash l.
Proof. untouched. Qed.
#[global] Hint Rewrite repay_cash : frame.

Lemma repay_base_treas a drawdown l : base_treas (repay a drawdown l) = base_treas l.
Proof. untouched. Qed.
#[global] Hint Rewrite repay_base_treas : frame.

Lemma repay_loan_bucket a drawdown l : loan_bucket (repay a drawdown l) = loan_bucket l.
Proof. untouched. Qed.
#[global] Hint Rewrite repay_loan_bucket : frame.

Lemma repay_loan_bal a drawdown l : loan_bal (repay a drawdown l) = loan_bal l.
Proof. untouched. Qed.
#[global] Hint Rewrite repay_loan_bal : frame.

Lemma repay_hwm a drawdown l : hwm (repay a drawdown l) = hwm l.
Proof. untouched. Qed.
#[global] Hint Rewrite repay_hwm : frame.

Lemma repay_max_dd_risky a drawdown l : max_dd_risky (repay a drawdown l) = max_dd_risky l.
Proof. untouched. Qed.
#[global] Hint Rewrite repay_max_dd_risky : frame.

Lemma repay_hwm_total a drawdown l : hwm_total (repay a drawdown l) = hwm_total l.
Proof. untouched. Qed.
#[global] Hint Rewrite repay_hwm_total : frame.

Lemma repay_max_dd_total a drawdown l : max_dd_total (repay a drawdown l) = max_dd_total l.
Proof. untouched. Qed.
#[global] Hint Rewrite repay_max_dd_total : frame.

Lemma repay_rm_limit a drawdown l : rm_limit (repay a drawdown l) = rm_limit l.
Proof. untouched. Qed.
#[global] Hint Rewrite repay_rm_limit : frame.

Lemma repay_rm_ever_used a drawdown l : rm_ever_used (repay a drawdown l) = rm_ever_used l.
Proof. untouched. Qed.
#[global] Hint Rewrite repay_rm_ever_used : frame.

Lemma repay_failed a drawdown l : failed (repay a drawdown l) = failed l.
Proof. untouched. Qed.
#[global] Hint Rewrite repay_failed : frame.

Lemma repay_fail_idx a drawdown l : fail_idx (repay a drawdown l) = fail_idx l.
Proof. untouched. Qed.
#[global] Hint Rewrite repay_fail_idx : frame.

Lemma refill_loan_bucket a w t drawdown l : loan_bucket (refill a w t drawdown l) = loan_bucket l.
Proof. untouched. Qed.
#[global] Hint Rewrite refill_loan_bucket : frame.

Lemma refill_loan_bal a w t drawdown l : loan_bal (refill a w t drawdown l) = loan_bal l.
Proof. untouched. Qed.
#[global] Hint Rewrite refill_loan_bal : frame.

Lemma refill_hwm a w t drawdown l : hwm (refill a w t drawdown l) = hwm l.
Proof. untouched. Qed.
#[global] Hint Rewrite refill_hwm : frame.

Lemma refill_max_dd_risky a w t drawdown l : max_dd_risky (refill a w t drawdown l) = max_dd_risky l.
Proof. untouched. Qed.
#[global] Hint Rewrite refill_max_dd_risky : frame.

Lemma refill_hwm_total a w t drawdown l : hwm_total (refill a w t drawdown l) = hwm_total l.
Proof. untouched. Qed.
#[global] Hint Rewrite refill_hwm_total : frame.

Lemma refill_max_dd_total a w t drawdown l : max_dd_total (refill a w t drawdown l) = max_dd_total l.
Proof. untouched. Qed.
#[global] Hint Rewrite refill_max_dd_total : frame.

Lemma refill_rm_limit a w t drawdown l : rm_limit (refill a w t drawdown l) = rm_limit l.
Proof. untouched. Qed.
#[global] Hint Rewrite refill_rm_limit : frame.

Lemma refill_rm_bal a w t drawdown l : rm_bal (refill a w t drawdown l) = rm_bal l.
Proof. untouched. Qed.
#[global] Hint Rewrite refill_rm_bal : frame.

Lemma refill_rm_ever_used a w t drawdown l : rm_ever_used (refill a w t drawdown l) = rm_ever_used l.
Proof. untouched. Qed.
#[global] Hint Rewrite refill_rm_ever_used : frame.

Lemma refill_failed a w t drawdown l : failed (refill a w t drawdown l) = failed l.
Proof. untouched. Qed.
#[global] Hint Rewrite refill_failed : frame.

Lemma refill_fail_idx a w t drawdown l : fail_idx (refill a w t drawdown l) = fail_idx l.
Proof. untouched. Qed.
#[global] Hint Rewrite refill_fail_idx : frame.

Lemma check_floor_cash a t mf l : cash (check_floor a t mf l) = cash l.
Proof. untouched. Qed.
#[global] Hint Rewrite check_floor_cash : frame.

Lemma check_floor_base_treas a t mf l : base_treas (check_floor a t mf l) = base_treas l.
Proof. untouched. Qed.
#[global] Hint Rewrite check_floor_base_treas : frame.

Lemma check_floor_risky a t mf l : risky (check_floor a t mf l) = risky l.
Proof. untouched. Qed.
#[global] Hint Rewrite check_floor_risky : frame.

Lemma check_floor_loan_bucket a t mf l : loan_bucket (check_floor a t mf l) = loan_bucket l.
Proof. untouched. Qed.
#[global] Hint Rewrite check_floor_loan_bucket : frame.

Lemma check_floor_loan_bal a t mf l : loan_bal (check_floor a t mf l) = loan_bal l.
Proof. untouched. Qed.
#[global] Hint Rewrite check_floor_loan_bal : frame.

Lemma check_floor_hwm a t mf l : hwm (check_floor a t mf l) = hwm l.
Proof. untouched. Qed.
#[global] Hint Rewrite check_floor_hwm : frame.

Lemma check_floor_max_dd_risky a t mf l : max_dd_risky (check_floor a t mf l) = max_dd_risky l.
Proof. untouched. Qed.
#[global] Hint Rewrite check_floor_max_dd_risky : frame.

Lemma check_floor_hwm_total a t mf l : hwm_total (check_floor a t mf l) = hwm_total l.
Proof. untouched. Qed.
#[global] Hint Rewrite check_floor_hwm_total : frame.

Lemma check_floor_max_dd_total a t mf l : max_dd_total (check_floor a t mf l) = max_dd_total l.
Proof. untouched. Qed.
#[global] Hint Rewrite check_floor_max_dd_total : frame.

Lemma check_floor_rm_limit a t mf l : rm_limit (check_floor a t mf l) = rm_limit l.
Proof. untouched. Qed.
#[global] Hint Rewrite check_floor_rm_limit : frame.

Lemma check_floor_rm_bal a t mf l : rm_bal (check_floor a t mf l) = rm_bal l.
Proof. untouched. Qed.
#[global] Hint Rewrite check_floor_rm_bal : frame.

Lemma check_floor_rm_ever_used a t mf l : rm_ever_used (check_floor a t mf l) = rm_ever_used l.
Proof. untouched. Qed.
#[global] Hint Rewrite check_floor_rm_ever_used : frame.

Lemma mark_cash l : cash (mark  l) = cash l.
Proof. untouched. Qed.
#[global] Hint Rewrite mark_cash : frame.

Lemma mark_base_treas l : base_treas (mark  l) = base_treas l.
Proof. untouched. Qed.
#[global] Hint Rewrite mark_base_treas : frame.

Lemma mark_risky l : risky (mark  l) = risky l.
Proof. untouched. Qed.
#[global] Hint Rewrite mark_risky : frame.

Lemma mark_loan_bucket l : loan_bucket (mark  l) = loan_bucket l.
Proof. untouched. Qed.
#[global] Hint Rewrite mark_loan_bucket : frame.

Lemma mark_loan_bal l : loan_bal (mark  l) = loan_bal l.
Proof. untouched. Qed.
#[global] Hint Rewrite mark_loan_bal : frame.

Lemma mark_rm_limit l : rm_limit (mark  l) = rm_limit l.
Proof. untouched. Qed.
#[global] Hint Rewrite mark_rm_limit : frame.

Lemma mark_rm_bal l : rm_bal (mark  l) = rm_bal l.
Proof. untouched. Qed.
#[global] Hint Rewrite mark_rm_bal : frame.

Lemma mark_rm_ever_used l : rm_ever_used (mark  l) = rm_ever_used l.
Proof. untouched. Qed.
#[global] Hint Rewrite mark_rm_ever_used : frame.

Lemma mark_failed l : failed (mark  l) = failed l.
Proof. untouched. Qed.
#[global] Hint Rewrite mark_failed : frame.

Lemma mark_fail_idx l : fail_idx (mark  l) = fail_idx l.
Proof. untouched. Qed.
#[global] Hint Rewrite mark_fail_idx : frame.

Lemma grow_loan_bal a r l : loan_bal (grow a r l) = loan_bal l.
Proof. untouched. Qed.
#[global] Hint Rewrite grow_loan_bal : frame.

Lemma grow_hwm a r l : hwm (grow a r l) = hwm l.
Proof. untouched. Qed.
#[global] Hint Rewrite grow_hwm : frame.

Lemma grow_max_dd_risky a r l : max_dd_risky (grow a r l) = max_dd_risky l.
Proof. untouched. Qed.
#[global] Hint Rewrite grow_max_dd_risky : frame.

Lemma grow_hwm_total a r l : hwm_total (grow a r l) = hwm_total l.
Proof. untouched. Qed.
#[global] Hint Rewrite grow_hwm_total : frame.

Lemma grow_max_dd_total a r l : max_dd_total (grow a r l) = max_dd_total l.
Proof. untouched. Qed.
#[global] Hint Rewrite grow_max_dd_total : frame.

Lemma grow_rm_limit a r l : rm_limit (grow a r l) = rm_limit l.
Proof. untouched. Qed.
#[global] Hint Rewrite grow_rm_limit : frame.

Lemma grow_rm_bal a r l : rm_bal (grow a r l) = rm_bal l.
Proof. untouched. Qed.
#[global] Hint Rewrite grow_rm_bal : frame.

Lemma grow_rm_ever_used a r l : rm_ever_used (grow a r l) = rm_ever_used l.
Proof. untouched. Qed.
#[global] Hint Rewrite grow_rm_ever_used : frame.

Lemma grow_failed a r l : failed (grow a r l) = failed l.
Proof. untouched. Qed.
#[global] Hint Rewrite grow_failed : frame.

Lemma grow_fail_idx a r l : fail_idx (grow a r l) = fail_idx l.
Proof. untouched. Qed.
#[global] Hint Rewrite grow_fail_idx : frame.

Lemma fund_loan_bal a drawdown spend l : loan_bal (fund a drawdown spend l) = loan_bal l.
Proof. untouched. Qed.
#[global] Hint Rewrite fund_loan_bal : frame.

Lemma fund_hwm a drawdown spend l : hwm (fund a drawdown spend l) = hwm l.
Proof. untouched. Qed.
#[global] Hint Rewrite fund_hwm : frame.

Lemma fund_max_dd_risky a drawdown spend l : max_dd_risky (fund a drawdown spend l) = max_dd_risky l.
Proof. untouched. Qed.
#[global] Hint Rewrite fund_max_dd_risky : frame.

Lemma fund_hwm_total a drawdown spend l : hwm_total (fund a drawdown spend l) = hwm_total l.
Proof. untouched. Qed.
#[global] Hint Rewrite fund_hwm_total : frame.

Lemma fund_max_dd_total a drawdown spend l : max_dd_total (fund a drawdown spend l) = max_dd_total l.
Proof. untouched. Qed.
#[global] Hint Rewrite fund_max_dd_total : frame.

Lemma fund_rm_limit a drawdown spend l : rm_limit (fund a drawdown spend l) = rm_limit l.
Proof. untouched. Qed.
#[global] Hint Rewrite fund_rm_limit : frame.

Lemma fund_rm_ever_used a drawdown spend l : rm_ever_used (fund a drawdown spend l) = rm_ever_used l.
Proof. untouched. Qed.
#[global] Hint Rewrite fund_rm_ever_used : frame.

Lemma fund_failed a drawdown spend l : failed (fund a drawdown spend l) = failed l.
Proof. untouched. Qed.
#[global] Hint Rewrite fund_failed : frame.

Lemma fund_fail_idx a drawdown spend l : fail_idx (fund a drawdown spend l) = fail_idx l.
Proof. untouched. Qed.
#[global] Hint Rewrite fund_fail_idx : frame.

Lemma save_surplus_loan_bucket a w t drawdown l : loan_bucket (save_surplus a w t drawdown l) = loan_bucket l.
Proof. untouched. Qed.
#[global] Hint Rewrite save_surplus_loan_bucket : frame.

Lemma save_surplus_loan_bal a w t drawdown l : loan_bal (save_surplus a w t drawdown l) = loan_bal l.
Proof. untouched. Qed.
#[global] Hint Rewrite save_surplus_loan_bal : frame.

Lemma save_surplus_hwm a w t drawdown l : hwm (save_surplus a w t drawdown l) = hwm l.
Proof. untouched. Qed.
#[global] Hint Rewrite save_surplus_hwm : frame.

Lemma save_surplus_max_dd_risky a w t drawdown l : max_dd_risky (save_surplus a w t drawdown l) = max_dd_risky l.
Proof. untouched. Qed.
#[global] Hint Rewrite save_surplus_max_dd_risky : frame.

Lemma save_surplus_hwm_total a w t drawdown l : hwm_total (save_surplus a w t drawdown l) = hwm_total l.
Proof. untouched. Qed.
#[global] Hint Rewrite save_surplus_hwm_total : frame.

Lemma save_surplus_max_dd_total a w t drawdown l : max_dd_total (save_surplus a w t drawdown l) = max_dd_total l.
Proof. untouched. Qed.
#[global] Hint Rewrite save_surplus_max_dd_total : frame.

Lemma save_surplus_rm_limit a w t drawdown l : rm_limit (save_surplus a w t drawdown l) = rm_limit l.
Proof. untouched. Qed.
#[global] Hint Rewrite save_surplus_rm_limit : frame.

Lemma save_surplus_rm_bal a w t drawdown l : rm_bal (save_surplus a w t drawdown l) = rm_bal l.
Proof. untouched. Qed.
#[global] Hint Rewrite save_surplus_rm_bal : frame.

Lemma save_surplus_rm_ever_used a w t drawdown l : rm_ever_used (save_surplus a w t drawdown l) = rm_ever_used l.
Proof. untouched. Qed.
#[global] Hint Rewrite save_surplus_rm_ever_used : frame.

Lemma save_surplus_failed a w t drawdown l : failed (save_surplus a w t drawdown l) = failed l.
Proof. untouched. Qed.
#[global] Hint Rewrite save_surplus_failed : frame.

Lemma save_surplus_fail_idx a w t drawdown l : fail_idx (save_surplus a w t drawdown l) = fail_idx l.
Proof. untouched. Qed.
#[global] Hint Rewrite save_surplus_fail_idx : frame.

Lemma loan_payment_hwm a pay t drawdown new_bal l : hwm (loan_payment a pay t drawdown new_bal l) = hwm l.
Proof. untouched. Qed.
#[global] Hint Rewrite loan_payment_hwm : frame.

Lemma loan_payment_max_dd_risky a pay t drawdown new_bal l : max_dd_risky (loan_payment a pay t drawdown new_bal l) = max_dd_risky l.
Proof. untouched. Qed.
#[global] Hint Rewrite loan_payment_max_dd_risky : frame.

Lemma loan_payment_hwm_total a pay t drawdown new_bal l : hwm_total (loan_payment a pay t drawdown new_bal l) = hwm_total l.
Proof. untouched. Qed.
#[global] Hint Rewrite loan_payment_hwm_total : frame.

Lemma loan_payment_max_dd_total a pay t drawdown new_bal l : max_dd_total (loan_payment a pay t drawdown new_bal l) = max_dd_total l.
Proof. untouched. Qed.
#[global] Hint Rewrite loan_payment_max_dd_total : frame.

Lemma loan_payment_rm_limit a pay t drawdown new_bal l : rm_limit (loan_payment a pay t drawdown new_bal l) = rm_limit l.
Proof. untouched. Qed.
#[global] Hint Rewrite loan_payment_rm_limit : frame.

Lemma loan_payment_rm_bal a pay t drawdown new_bal l : rm_bal (loan_payment a pay t drawdown new_bal l) = rm_bal l.
Proof. untouched. Qed.
#[global] Hint Rewrite loan_payment_rm_bal : frame.

Lemma loan_payment_rm_ever_used a pay t drawdown new_bal l : rm_ever_used (loan_payment a pay t drawdown new_bal l) = rm_ever_used l.
Proof. untouched. Qed.
#[global] Hint Rewrite loan_payment_rm_ever_used : frame.

Lemma rm_open_risky a t drawdown l : risky (rm_open a t drawdown l) = risky l.
Proof. untouched. Qed.
#[global] Hint Rewrite rm_open_risky : frame.

Lemma rm_open_hwm a t drawdown l : hwm (rm_open a t drawdown l) = hwm l.
Proof. untouched. Qed.
#[global] Hint Rewrite rm_open_hwm : frame.

Lemma rm_open_max_dd_risky a t drawdown l : max_dd_risky (rm_open a t drawdown l) = max_dd_risky l.
Proof. untouched. Qed.
#[global] Hint Rewrite rm_open_max_dd_risky : frame.

Lemma rm_open_hwm_total a t drawdown l : hwm_total (rm_open a t drawdown l) = hwm_total l.
Proof. untouched. Qed.
#[global] Hint Rewrite rm_open_hwm_total : frame.

Lemma rm_open_max_dd_total a t drawdown l : max_dd_total (rm_open a t drawdown l) = max_dd_total l.
Proof. untouched. Qed.
#[global] Hint Rewrite rm_open_max_dd_total : frame.

Lemma rm_open_rm_ever_used a t drawdown l : rm_ever_used (rm_open a t drawdown l) = rm_ever_used l.
Proof. untouched. Qed.
#[global] Hint Rewrite rm_open_rm_ever_used : frame.

Lemma rm_growth_cash a t l : cash (rm_growth a t l) = cash l.
Proof. untouched. Qed.
#[global] Hint Rewrite rm_growth_cash : frame.

Lemma rm_growth_base_treas a t l : base_treas (rm_growth a t l) = base_treas l.
Proof. untouched. Qed.
#[global] Hint Rewrite rm_growth_base_treas : frame.

Lemma rm_growth_risky a t l : risky (rm_growth a t l) = risky l.
Proof. untouched. Qed.
#[global] Hint Rewrite rm_growth_risky : frame.

Lemma rm_growth_loan_bucket a t l : loan_bucket (rm_growth a t l) = loan_bucket l.
Proof. untouched. Qed.
#[global] Hint Rewrite rm_growth_loan_bucket : frame.

Lemma rm_growth_loan_bal a t l : loan_bal (rm_growth a t l) = loan_bal l.
Proof. untouched. Qed.
#[global] Hint Rewrite rm_growth_loan_bal : frame.

Lemma rm_growth_hwm a t l : hwm (rm_growth a t l) = hwm l.
Proof. untouched. Qed.
#[global] Hint Rewrite rm_growth_hwm : frame.

Lemma rm_growth_max_dd_risky a t l : max_dd_risky (rm_growth a t l) = max_dd_risky l.
Proof. untouched. Qed.
#[global] Hint Rewrite rm_growth_max_dd_risky : frame.

Lemma rm_growth_hwm_total a t l : hwm_total (rm_growth a t l) = hwm_total l.
Proof. untouched. Qed.
#[global] Hint Rewrite rm_growth_hwm_total : frame.

Lemma rm_growth_max_dd_total a t l : max_dd_total (rm_growth a t l) = max_dd_total l.
Proof. untouched. Qed.
#[global] Hint Rewrite rm_growth_max_dd_total : frame.

Lemma rm_growth_rm_ever_used a t l : rm_ever_used (rm_growth a t l) = rm_ever_used l.
Proof. untouched. Qed.
#[global] Hint Rewrite rm_growth_rm_ever_used : frame.

Lemma rm_growth_failed a t l : failed (rm_growth a t l) = failed l.
Proof. untouched. Qed.
#[global] Hint Rewrite rm_growth_failed : frame.

Lemma rm_growth_fail_idx a t l : fail_idx (rm_growth a t l) = fail_idx l.
Proof. untouched. Qed.
#[global] Hint Rewrite rm_growth_fail_idx : frame.


(** *** Balances stay in range *)

Section Balances.
Variable a : Args.
Hypothesis R : in_range a.

Lemma grow_ok r l : balances_ok l -> balances_ok (grow a r l).
Proof.
  destruct R. unfold grow, balances_ok. lane_simpl.
  intros (H1 & H2 & H3 & H4 & H5 & H6).
  destruct (has_loan a); repeat split; try assumption; nra.
Qed.

Lemma mark_ok l : balances_ok l -> balances_ok (mark l).
Proof. unfold mark, balances_ok. lane_simpl. tauto. Qed.

Lemma loan_payment_ok pay t dd nb l :
  0 <= nb -> balances_ok l -> balances_ok (loan_payment a pay t dd nb l).
Proof.
  intros Hnb (H1 & H2 & H3 & H4 & H5 & H6). unfold loan_payment.
  destruct (has_loan a && _); [|repeat split; assumption].
  destruct (take_from (cash l) pay) as [c1 r1] eqn:T1.
  destruct (take_from (base_treas l) r1) as [b1 r2] eqn:T2.
  destruct (take_from (risky l) r2) as [k1 r3] eqn:T3.
  apply take_from_spec in T1, T2, T3.
  cbv zeta. unfold balances_ok. lane_simpl.
  pose proof (fmin_ub_r r3 (loan_bucket l)).
  repeat split; try tauto.
  destruct (_ && _ && _); lra.
Qed.

Lemma rm_open_ok t dd l :
  balances_ok l -> ((Z.of_nat t = rm_open_t a)%Z -> rm_limit l == 0) ->
  balances_ok (rm_open a t dd l).
Proof.
  intros (H1 & H2 & H3 & H4 & H5 & H6) Hclosed. unfold rm_open.
  destruct (Z.of_nat t =? rm_open_t a)%Z eqn:B; [|repeat split; assumption].
  apply Z.eqb_eq in B. specialize (Hclosed B).
  assert (Hlim : 0 <= rm_limit_open a * (1 + rm_limit_real_growth a)).
  { destruct R. unfold rm_limit_open. nra. }
  set (limit1 := rm_limit_open a * (1 + rm_limit_real_growth a)) in *.
  destruct (has_loan a).
  - cbv zeta.
    destruct (Qleb dd (payoff_dd_threshold a)).
    + destruct (take_from (risky l) (loan_bal l)) as [k1 p1] eqn:T0.
      lane_simpl.
      destruct (take_from (base_treas l) _) as [b1 p2] eqn:T1.
      destruct (take_from (cash l) p2) as [c1 p3] eqn:T2.
      destruct (take_from (loan_bucket l) p3) as [u1 p4] eqn:T3.
      apply take_from_spec in T0, T1, T2, T3.
      unfold balances_ok. lane_simpl.
      pose proof (fmin_ub_r p1 (fmax 0 (limit1 - rm_bal l))).
      assert (0 <= fmin p1 (fmax 0 (limit1 - rm_bal l)))
        by (apply fmin_glb; [tauto | apply fmax_lb_l]).
      destruct (fmax_cases 0 (limit1 - rm_bal l)) as [[E1 E2]|[E1 E2]];
        rewrite E2 in *; repeat split; try tauto; lra.
    + destruct (take_from (risky l) _) as [k1 p1] eqn:T0.
      lane_simpl.
      destruct (take_from (base_treas l) p1) as [b1 p2] eqn:T1.
      destruct (take_from (cash l) p2) as [c1 p3] eqn:T2.
      destruct (take_from (loan_bucket l) p3) as [u1 p4] eqn:T3.
      apply take_from_spec in T1, T2, T3.
      unfold balances_ok. lane_simpl.
      pose proof (fmin_ub_r (loan_bal l) (fmax 0 (limit1 - rm_bal l))).
      assert (0 <= fmin (loan_bal l) (fmax 0 (limit1 - rm_bal l)))
        by (apply fmin_glb; [tauto | apply fmax_lb_l]).
      destruct (fmax_cases 0 (limit1 - rm_bal l)) as [[E1 E2]|[E1 E2]];
        rewrite E2 in *; repeat split; try tauto; lra.
  - unfold balances_ok. lane_simpl. repeat split; try assumption; lra.
Qed.

Lemma rm_growth_ok t l : balances_ok l -> balances_ok (rm_growth a t l).
Proof.
  intros (H1 & H2 & H3 & H4 & H5 & H6). unfold rm_growth.
  destruct (rm_open_t a <=? Z.of_nat t)%Z; [|repeat split; assumption].
  destruct R. unfold balances_ok. lane_simpl.
  repeat split; try assumption; nra.
Qed.

(** Before the line opens, neither substep touches it. *)
Lemma opening_closed t dd l :
  (Z.of_nat t < rm_open_t a)%Z ->
  rm_limit (rm_growth a t (rm_open a t dd l)) = rm_limit l.
Proof.
  intro H. unfold rm_growth, rm_open.
  destruct (Z.of_nat t =? rm_open_t a)%Z eqn:B; [apply Z.eqb_eq in B; lia|].
  destruct (rm_open_t a <=? Z.of_nat t)%Z eqn:C; [apply Z.leb_le in C; lia|].
  reflexivity.
Qed.

Lemma save_surplus_ok w t dd l : balances_ok l -> balances_ok (save_surplus a w t dd l).
Proof.
  intros (H1 & H2 & H3 & H4 & H5 & H6). unfold save_surplus.
  destruct (Qltb 0 (income_scalar a t)); [|repeat split; assumption].
  cbv zeta.
  destruct (Qltb 0 _) eqn:S; [|repeat split; assumption].
  apply Qltb_true in S.
  destruct (String.eqb _ _); [repeat split; assumption|].
  destruct (safe_targets _ _ _ _) as [tc tb].
  unfold balances_ok. lane_simpl.
  set (s := fmax 0 _) in *.
  assert (0 <= fmin (fmax 0 (tc - cash l)) s)
    by (apply fmin_glb; [apply fmax_lb_l | lra]).
  pose proof (fmin_ub_r (fmax 0 (tc - cash l)) s).
  assert (0 <= fmin (fmax 0 (tb - base_treas l)) (s - fmin (fmax 0 (tc - cash l)) s))
    by (apply fmin_glb; [apply fmax_lb_l | lra]).
  repeat split; try assumption; lra.
Qed.

Lemma check_floor_ok t mf l : balances_ok l -> balances_ok (check_floor a t mf l).
Proof. unfold check_floor, balances_ok. lane_simpl. tauto. Qed.

Lemma floor_need_assets_nonneg t : 0 <= floor_need_assets a t.
Proof.
  unfold floor_need_assets.
  destruct (Qltb 0 (income_scalar a t)); [apply fmax_lb_l|].
  destruct R. unfold floor_assets. destruct t; [nra | assumption].
Qed.

Lemma spend_assets_nonneg w t dd mf l : 0 <= spend_assets a w t dd mf l.
Proof.
  unfold spend_assets. cbv zeta.
  destruct (negb (failed l)); [|lra].
  pose proof (floor_need_assets_nonneg t).
  pose proof (fmax_lb_r (fmin (asset_desired a w t dd) mf) (floor_need_assets a t)).
  lra.
Qed.

Lemma fund_ok dd sp l : 0 <= sp -> balances_ok l -> balances_ok (fund a dd sp l).
Proof.
  intros Hsp (H1 & H2 & H3 & H4 & H5 & H6).
  destruct (fund_fields a dd sp l)
    as (c1 & r1 & b1 & r2 & tl & tr & k1 & r5 & tr2 & u2
        & T1 & T2 & Etl & Etr & T3 & Etr2 & Eu2 & ->).
  apply take_from_spec in T1, T2, T3.
  destruct R as [_ _ _ _ _ _ _ _ [Rc0 Rc1] Rb1 _ _ _ _].
  assert (Hr2 : 0 <= r2) by tauto.
  assert (Htl : tl <= loan_bucket l /\ tl <= r2).
  { subst tl.
    destruct (Qleb (loan_bucket_use_dd a) dd && negb (failed l) && Qltb 0 (loan_bucket l)).
    - pose proof (fmin_ub_l (r2 * loan_bucket_partial_cover a) (loan_bucket l)).
      pose proof (fmin_ub_r (r2 * loan_bucket_partial_cover a) (loan_bucket l)).
      split; [lra | nra].
    - split; lra. }
  assert (Havail : 0 <= fmax 0 (rm_limit l - rm_bal l)
                   /\ rm_bal l + fmax 0 (rm_limit l - rm_bal l) <= rm_limit l).
  { destruct (fmax_cases 0 (rm_limit l - rm_bal l)) as [[E1 ->]|[E1 ->]]; split; lra. }
  assert (Htr : 0 <= tr /\ tr <= r2 - tl /\ rm_bal l + tr <= rm_limit l).
  { subst tr. destruct (Qleb (dd2 a) dd && negb (failed l)).
    - pose proof (fmin_ub_l ((r2 - tl) * rm_partial_cover a)
                            (fmax 0 (rm_limit l - rm_bal l))).
      pose proof (fmin_ub_r ((r2 - tl) * rm_partial_cover a)
                            (fmax 0 (rm_limit l - rm_bal l))).
      assert (0 <= fmin ((r2 - tl) * rm_partial_cover a)
                        (fmax 0 (rm_limit l - rm_bal l)))
        by (apply fmin_glb; [nra | tauto]).
      repeat split; [lra | nra | lra].
    - repeat split; lra. }
  assert (Hr5 : 0 <= r5) by (apply T3; lra).
  assert (Htr2 : 0 <= tr2 /\ rm_bal l + tr + tr2 <= rm_limit l).
  { subst tr2.
    pose proof (fmin_ub_r r5 (fmax 0 (rm_limit l - (rm_bal l + tr)))).
    assert (0 <= fmin r5 (fmax 0 (rm_limit l - (rm_bal l + tr))))
      by (apply fmin_glb; [lra | apply fmax_lb_l]).
    destruct (fmax_cases 0 (rm_limit l - (rm_bal l + tr))) as [[E1 E2]|[E1 E2]];
      rewrite E2 in *; split; lra. }
  assert (Hu2 : 0 <= u2).
  { subst u2.
    destruct (Qleb (loan_bucket_use_dd a) dd && negb (failed l) && Qltb eps (r5 - tr2));
      [|lra].
    pose proof (fmin_ub_r (r5 - tr2) (loan_bucket l - tl)). lra. }
  unfold balances_ok. lane_simpl.
  repeat split; try tauto; lra.
Qed.

Lemma refill_add_cash_nonneg w t dd l : 0 <= refill_add_cash a w t dd l.
Proof.
  unfold refill_add_cash. destruct (safe_targets _ _ _ _) as [tc tb].
  cbv zeta. destruct (good a dd l); [|lra].
  apply fmin_glb; [apply fmax_lb_l | apply fmax_lb_r].
Qed.

Lemma refill_add_base_nonneg w t dd l : 0 <= refill_add_base a w t dd l.
Proof.
  unfold refill_add_base. destruct (safe_targets _ _ _ _) as [tc tb].
  cbv zeta. destruct (good a dd l); [|lra].
  apply fmin_glb; [apply fmax_lb_l | apply fmax_lb_r].
Qed.

Lemma refill_ok w t dd l : balances_ok l -> balances_ok (refill a w t dd l).
Proof.
  intros (H1 & H2 & H3 & H4 & H5 & H6).
  pose proof (refill_add_cash_nonneg w t dd l).
  pose proof (refill_add_base_nonneg w t dd l).
  unfold refill, balances_ok. cbv zeta. lane_simpl.
  repeat split; try assumption; lra.
Qed.

Lemma repay_take_bounds dd l :
  0 <= rm_bal l -> 0 <= repay_take a dd l <= rm_bal l.
Proof.
  intro H. destruct R as [_ _ _ _ _ _ _ _ _ _ [Rr0 Rr1] _ _ _].
  unfold repay_take. cbv zeta.
  set (amt := if Qltb dd eps && good a dd l && Qltb 0 (rm_bal l)
              then rm_bal l * rm_repay_rate a else 0).
  assert (0 <= amt <= rm_bal l)
    by (subst amt;
        destruct (Qltb dd eps && good a dd l && Qltb 0 (rm_bal l));
        split; try lra; nra).
  pose proof (fmin_ub_l amt (fmax (risky l) 0)).
  assert (0 <= fmin amt (fmax (risky l) 0))
    by (apply fmin_glb; [lra | apply fmax_lb_r]).
  lra.
Qed.

Lemma repay_ok dd l : balances_ok l -> balances_ok (repay a dd l).
Proof.
  intros (H1 & H2 & H3 & H4 & H5 & H6).
  pose proof (repay_take_bounds dd l H5).
  unfold repay, balances_ok. cbv zeta. lane_simpl.
  repeat split; try assumption; lra.
Qed.

Lemma latch_ok l : balances_ok l -> balances_ok (latch l).
Proof. unfold latch, balances_ok. lane_simpl. tauto. Qed.

(** One year keeps the balances in range, given a non-negative loan
    balance for the year and a line that is still closed when it opens. *)
Lemma year_lane_ok pay w t nb r l :
  0 <= nb -> balances_ok l ->
  ((Z.of_nat t <= rm_open_t a)%Z -> rm_limit l == 0) ->
  balances_ok (year_lane a pay w t nb r l)
  /\ ((Z.of_nat (S t) <= rm_open_t a)%Z ->
      rm_limit (year_lane a pay w t nb r l) == 0).
Proof.
  intros Hnb Hl Hclosed.
  unfold year_lane, before_spending, spending. cbv zeta.
  set (l1 := mark (grow a r l)).
  set (dd := drawdown_of (hwm l1) (risky l1)).
  set (l2 := loan_payment a pay t dd nb l1).
  set (l3 := rm_growth a t (rm_open a t dd l2)).
  assert (Hlim2 : rm_limit l2 = rm_limit l)
    by (subst l2 l1; autorewrite with frame; reflexivity).
  assert (H2 : balances_ok l2)
    by (apply loan_payment_ok; [exact Hnb | apply mark_ok, grow_ok, Hl]).
  assert (H3 : balances_ok l3).
  { apply rm_growth_ok, rm_open_ok; [exact H2|].
    intro E. rewrite Hlim2. apply Hclosed. lia. }
  split.
  - apply latch_ok, repay_ok, refill_ok, fund_ok;
      [apply spend_assets_nonneg | apply check_floor_ok, save_surplus_ok, H3].
  - intro Hlt.
    assert (E : rm_limit l3 = rm_limit l2) by (apply opening_closed; lia).
    autorewrite with frame. rewrite E, Hlim2. apply Hclosed. lia.
Qed.
End Balances.

(** *** The loan balance along the amortization schedule *)

Section Schedule.

Import Loan.

(** With a positive rate the balance after [k] of [n] payments is not
    negative. *)
Lemma amortized_balance_nonneg (P r pay nb : Q) (n k : Z) :
  0 < P -> 0 < r -> (1 <= k <= n)%Z ->
  amort_payment P r n = Ok pay ->
  loan_balance_after_k P r pay k = Ok nb ->
  0 <= nb.
Proof.
  intros HP Hr Hk Hpay Hnb.
  assert (Hq : ~ 1 + r == 0) by lra.
  unfold amort_payment in Hpay. rewrite (positive_principal _ HP) in Hpay.
  cbv zeta in Hpay. rewrite py_pow_defined in Hpay by tauto.
  cbn [bind] in Hpay. unfold py_div in Hpay.
  destruct (Qeq_bool _ 0); [discriminate|]. injection Hpay as <-.
  unfold loan_balance_after_k in Hnb. rewrite (positive_principal _ HP) in Hnb.
  cbv zeta in Hnb. rewrite py_pow_defined in Hnb by tauto.
  cbn [bind] in Hnb. rewrite py_div_defined in Hnb by lra.
  cbn [bind] in Hnb. injection Hnb as <-.
  set (q := 1 + r) in *.
  assert (Hu : 1 <= q ^ k) by (apply Qpower_1_le; [subst q; lra | lia]).
  assert (Hv : 1 < q ^ n) by (apply Qpower_1_lt; [subst q; lra | lia]).
  assert (Huv : q ^ k <= q ^ n) by (apply Qpower_le_compat_l; [lia | subst q; lra]).
  rewrite Qpower_opp.
  set (u := q ^ k) in *. set (v := q ^ n) in *.
  assert (E : P * u - r * P / (1 - / v) * ((u - 1) / r) == P * (v - u) / (v - 1)).
  { field. repeat split; lra. }
  rewrite E. apply Qle_shift_div_l; nra.
Qed.

(** A positive rate and term make the payment computable. *)
Lemma amort_payment_defined (P r : Q) (n : Z) :
  0 < P -> 0 < r -> (0 < n)%Z -> exists pay, amort_payment P r n = Ok pay.
Proof.
  intros HP Hr Hn. unfold amort_payment.
  rewrite (positive_principal _ HP). cbv zeta.
  rewrite py_pow_defined by (intros [C _]; lra). cbn [bind].
  rewrite py_div_defined; [eexists; reflexivity|].
  assert (Hv : 1 < (1 + r) ^ n) by (apply Qpower_1_lt; [lra | lia]).
  rewrite Qpower_opp. intro C.
  assert (E : / (1 + r) ^ n == 1) by lra.
  assert (F : (1 + r) ^ n * / (1 + r) ^ n == 1) by (apply Qmult_inv_r; lra).
  rewrite E in F. lra.
Qed.

End Schedule.

(** *** Whole runs *)

Section Runs.

Variable a : Args.

Lemma has_loan_positive : has_loan a = true -> 0 < inject_Z (loan_amount a).
Proof.
  unfold has_loan. intro H. apply Z.ltb_lt in H.
  change 0 with (inject_Z 0). rewrite <- Zlt_Qlt. exact H.
Qed.

Lemma no_loan_nonpositive : has_loan a = false -> inject_Z (loan_amount a) <= 0.
Proof.
  unfold has_loan. intro H. apply Z.ltb_ge in H.
  change 0 with (inject_Z 0). rewrite <- Zle_Qle. exact H.
Qed.

(** Every planned withdrawal is non-negative. *)
Lemma the_w_nonneg (w : list Q) : the_w a = Ok w -> forall t, 0 <= nth t w 0.
Proof.
  unfold the_w, build_withdrawals. intros H t.
  destruct (n_years a) as [|m] eqn:N; [discriminate|].
  rewrite <- N in H. clear N m.
  assert (G : forall f : nat -> Q, (forall i, 0 <= f i) ->
              0 <= nth t (map f (seq 0 (n_years a))) 0).
  { intros f Hf. destruct (Nat.lt_ge_cases t (n_years a)) as [Lt|Ge].
    - rewrite (nth_indep _ 0 (f O)) by (rewrite length_map, length_seq; exact Lt).
      rewrite map_nth. apply Hf.
    - rewrite nth_overflow by (rewrite length_map, length_seq; exact Ge). lra. }
  destruct (income_applies_to_actual_spend a); injection H as <-;
    apply G; intros [|i]; apply fmax_lb_l.
Qed.

(** The lanes of a year come from the lanes of the year before, lane
    by lane. *)
Lemma year_step_lanes (pay : Q) (w : list Q) (t : nat) (lanes lanes' : list Lane) :
  year_step a pay w t lanes = Ok lanes' ->
  exists nb, next_loan_bal a pay t = Ok nb
    /\ forall i l', nth_error lanes' i = Some l' ->
         exists l r, nth_error lanes i = Some l
                     /\ l' = year_lane a pay w t nb r l.
Proof.
  unfold year_step. destruct (next_loan_bal a pay t) as [nb|e]; [|discriminate].
  cbn [bind]. intro H. injection H as <-. exists nb. split; [reflexivity|].
  intros i l' Hi. rewrite nth_error_map in Hi.
  destruct (nth_error (combine _ lanes) i) as [[r l]|] eqn:C; [|discriminate].
  injection Hi as <-. exists l, r. split; [|reflexivity].
  revert i C. generalize (column a (List.length lanes) t) as col.
  induction lanes as [|x xs IH]; intros col i C.
  - destruct col; destruct i; discriminate.
  - destruct col as [|c col]; [destruct i; discriminate|].
    destruct i as [|i]; simpl in *.
    + injection C as _ <-. reflexivity.
    + apply (IH col i C).
Qed.

(** The balance stored by the payment block is not negative. *)
Lemma next_loan_bal_nonneg (pay nb : Q) (t : nat) :
  in_range a -> the_pay a = Ok pay -> next_loan_bal a pay t = Ok nb -> 0 <= nb.
Proof.
  intros R Hpay. unfold next_loan_bal.
  destruct (has_loan a) eqn:L; cbn [andb]; [|intro H; injection H as <-; lra].
  destruct (Z.of_nat t <? rm_open_t a)%Z; [|intro H; injection H as <-; lra].
  cbv zeta.
  destruct (Z.of_nat t + 1 <=? loan_term_years a)%Z eqn:K;
    [|intro H; injection H as <-; lra].
  apply Z.leb_le in K. intro H.
  destruct (loan_rate_positive a R) as [C|Hr].
  - unfold has_loan in L. apply Z.ltb_lt in L. lia.
  - apply (amortized_balance_nonneg (inject_Z (loan_amount a)) (loan_real_rate a)
             pay nb (loan_term_years a) (Z.of_nat t + 1));
      [apply has_loan_positive, L | exact Hr | lia | exact Hpay | exact H].
Qed.

Lemma init_lane_ok (w : list Q) :
  in_range a -> (forall t, 0 <= nth t w 0) ->
  balances_ok (init_lane a w) /\ rm_limit (init_lane a w) == 0.
Proof.
  intros R Hw. unfold init_lane, safe_targets. cbv zeta.
  set (nxt := nth _ w 0).
  assert (Hn : 0 <= nxt) by apply Hw.
  destruct R. unfold balances_ok. lane_simpl.
  set (tc := reserve_cash_fraction a * (reserve_years a * nxt)).
  set (tt := reserve_years a * nxt).
  assert (0 <= tt) by (subst tt; nra).
  assert (0 <= tc) by (subst tc; fold tt; nra).
  assert (0 <= fmin (tc + (tt - tc)) (start_portfolio a))
    by (apply fmin_glb; lra).
  assert (Hlb : 0 <= (if has_loan a then inject_Z (loan_amount a) else 0)).
  { destruct (has_loan a) eqn:L; [|lra].
    apply Qlt_le_weak, has_loan_positive, L. }
  repeat split; try lra.
  - apply fmin_glb; lra.
  - apply fmax_lb_l.
Qed.

(** The balances are in range after every year, and the credit line is
    at 0 until the year it opens. *)
Lemma run_years_ok (pay : Q) (w : list Q) :
  in_range a -> the_pay a = Ok pay -> (forall t, 0 <= nth t w 0) ->
  forall k lanes, run_years a pay w k = Ok lanes ->
  Forall (fun l => balances_ok l
                   /\ ((Z.of_nat k <= rm_open_t a)%Z -> rm_limit l == 0)) lanes.
Proof.
  intros R Hpay Hw. induction k as [|k IH]; intros lanes H.
  - simpl in H. injection H as <-. apply Forall_forall. intros l Hl.
    apply repeat_spec in Hl. subst l.
    destruct (init_lane_ok w R Hw) as [H1 H2]. split; [exact H1 | intros _; exact H2].
  - simpl in H. destruct (run_years a pay w k) as [prev|e]; [|discriminate].
    cbn [bind] in H. specialize (IH prev eq_refl).
    apply year_step_lanes in H. destruct H as (nb & Hnb & Hl).
    apply Forall_forall. intros l' Hin.
    apply In_nth_error in Hin. destruct Hin as [i Hi].
    destruct (Hl i l' Hi) as (l & r & Hprev & ->).
    rewrite Forall_forall in IH.
    destruct (IH l (nth_error_In _ _ Hprev)) as [B C].
    apply year_lane_ok; try assumption.
    apply (next_loan_bal_nonneg pay nb k R Hpay Hnb).
Qed.

(** The set-up code that a successful call has passed. *)
Lemma lanes_after_run (k : nat) (lanes : list Lane) :
  lanes_after a k = Ok lanes ->
  exists pay w, the_pay a = Ok pay /\ the_w a = Ok w
                /\ run_years a pay w k = Ok lanes.
Proof.
  unfold lanes_after. destruct (n_years a); [discriminate|].
  destruct (the_pay a) as [pay|]; [|discriminate].
  destruct (the_w a) as [w|]; [|discriminate]. cbn [bind].
  destruct (n_sims a <? 0)%Z; [discriminate|].
  destruct (n_sims a =? 0)%Z; [discriminate|].
  destruct (negb (broadcastable a)); [discriminate|].
  intro H. exists pay, w. auto.
Qed.

(** A run that reaches year [k] has reached every earlier year. *)
Lemma lanes_after_earlier (k : nat) (lanes : list Lane) :
  lanes_after a (S k) = Ok lanes -> exists prev, lanes_after a k = Ok prev.
Proof.
  unfold lanes_after. destruct (n_years a); [discriminate|].
  destruct (the_pay a) as [pay|]; [|discriminate].
  destruct (the_w a) as [w|]; [|discriminate]. cbn [bind].
  destruct (n_sims a <? 0)%Z; [discriminate|].
  destruct (n_sims a =? 0)%Z; [discriminate|].
  destruct (negb (broadcastable a)); [discriminate|].
  simpl. destruct (run_years a pay w k) as [prev|]; [|discriminate].
  intros _. exists prev. reflexivity.
Qed.

(** Past the set-up code, [lanes_after] is the year loop. *)
Lemma lanes_after_loop (k : nat) (lanes : list Lane) (pay : Q) (w : list Q) :
  lanes_after a k = Ok lanes -> the_pay a = Ok pay -> the_w a = Ok w ->
  forall j, lanes_after a j = run_years a pay w j.
Proof.
  intros H Hp Hw. unfold lanes_after in *. rewrite Hp, Hw in *. revert H.
  destruct (n_years a); [discriminate|].
  cbn [bind].
  destruct (n_sims a <? 0)%Z; [discriminate|].
  destruct (n_sims a =? 0)%Z; [discriminate|].
  destruct (negb (broadcastable a)); [discriminate|].
  reflexivity.
Qed.

(** The latch after a year: set before, or a positive balance now. *)
Lemma year_lane_latch (pay : Q) (w : list Q) (t : nat) (nb r : Q) (l : Lane) :
  rm_ever_used (year_lane a pay w t nb r l)
  = rm_ever_used l || Qltb 0 (rm_bal (year_lane a pay w t nb r l)).
Proof.
  unfold year_lane, before_spending, spending. cbv zeta.
  rewrite latch_rm_bal. unfold latch at 1. lane_simpl.
  autorewrite with frame. reflexivity.
Qed.

(** [rm_ever_used] records exactly the years, from the opening on, that
    ended with a positive balance. *)
Lemma latch_history (pay : Q) (w : list Q) :
  in_range a -> the_pay a = Ok pay -> (forall t, 0 <= nth t w 0) ->
  forall k lanes, run_years a pay w k = Ok lanes ->
  forall i l, nth_error lanes i = Some l ->
    (rm_ever_used l = true <->
     exists j lanes_j l_j,
       (j < k)%nat /\ (rm_open_t a <= Z.of_nat j)%Z
       /\ run_years a pay w (S j) = Ok lanes_j
       /\ nth_error lanes_j i = Some l_j /\ 0 < rm_bal l_j).
Proof.
  intros R Hpay Hw. induction k as [|k IH]; intros lanes H i l Hi.
  - simpl in H. injection H as <-.
    apply nth_error_In, repeat_spec in Hi. subst l. split.
    + unfold init_lane. destruct (safe_targets _ _ _ _). cbv zeta. lane_simpl.
      discriminate.
    + intros (j & _ & _ & Hj & _). lia.
  - pose proof (run_years_ok pay w R Hpay Hw (S k) lanes H) as Hok.
    rewrite Forall_forall in Hok.
    destruct (Hok l (nth_error_In _ _ Hi)) as [Hb Hclosed].
    pose proof H as Hrun. simpl in H.
    destruct (run_years a pay w k) as [prev|e] eqn:Hprev; [|discriminate].
    cbn [bind] in H. apply year_step_lanes in H.
    destruct H as (nb & Hnb & Hl).
    destruct (Hl i l Hi) as (l0 & r & Hi0 & ->).
    specialize (IH prev eq_refl i l0 Hi0).
    rewrite year_lane_latch, orb_true_iff, IH. split.
    + intros [(j & lj & l_j & Hj & Hopen & Hrj & Hij & Hpos) | Hnow].
      * exists j, lj, l_j. repeat split; try assumption. lia.
      * apply Qltb_true in Hnow.
        exists k, lanes, (year_lane a pay w k nb r l0).
        repeat split; try assumption; [lia|].
        destruct (Z_lt_ge_dec (Z.of_nat k) (rm_open_t a)) as [C|C]; [|lia].
        exfalso. destruct Hb as (_ & _ & _ & _ & B5 & B6).
        assert (rm_limit (year_lane a pay w k nb r l0) == 0) by (apply Hclosed; lia).
        lra.
    + intros (j & lj & l_j & Hj & Hopen & Hrj & Hij & Hpos).
      destruct (Nat.eq_dec j k) as [->|Hne].
      * right. rewrite Hrun in Hrj. injection Hrj as <-.
        rewrite Hi in Hij. injection Hij as <-.
        apply Qltb_true. exact Hpos.
      * left. exists j, lj, l_j. repeat split; try assumption. lia.
Qed.

End Runs.

(** C3, as amended.  For arguments in the ranges of [in_range], at the
    end of every year and on every path, [cash], [base_treas],
    [rm_bal], [rm_limit] and [loan_bucket] are non-negative and
    [rm_bal <= rm_limit]; and [rm_ever_used] is true on a path exactly
    when [rm_bal] was positive on that path at the end of some year
    [j >= rm_open_t]. *)
Theorem balances_in_range :
  forall a : Args, in_range a ->
  forall (k : nat) (lanes : list Lane), lanes_after a k = Ok lanes ->
    Forall (fun l => 0 <= cash l /\ 0 <= base_treas l /\ 0 <= rm_bal l
                     /\ 0 <= rm_limit l /\ 0 <= loan_bucket l
                     /\ rm_bal l <= rm_limit l) lanes
    /\ forall i l, nth_error lanes i = Some l ->
         (rm_ever_used l = true <->
          exists j lanes_j l_j,
            (j < k)%nat /\ (rm_open_t a <= Z.of_nat j)%Z
            /\ lanes_after a (S j) = Ok lanes_j
            /\ nth_error lanes_j i = Some l_j /\ 0 < rm_bal l_j).
Proof.
  intros a R k lanes H.
  destruct (lanes_after_run a k lanes H) as (pay & w & Hpay & Hw & Hrun).
  pose proof (the_w_nonneg a w Hw) as Hw0.
  split.
  - pose proof (run_years_ok a pay w R Hpay Hw0 k lanes Hrun) as Hok.
    apply Forall_forall. intros l Hl. rewrite Forall_forall in Hok.
    destruct (Hok l Hl) as [(B1 & B2 & B3 & B4 & B5 & B6) _].
    repeat split; try assumption; lra.
  - intros i l Hi.
    rewrite (latch_history a pay w R Hpay Hw0 k lanes Hrun i l Hi).
    split; intros (j & lj & l_j & Hj & Hopen & Hrj & Hrest);
      exists j, lj, l_j; repeat split; try assumption.
    + rewrite (lanes_after_loop a k lanes pay w H Hpay Hw). exact Hrj.
    + apply Hrest.
    + apply Hrest.
    + rewrite <- (lanes_after_loop a k lanes pay w H Hpay Hw). exact Hrj.
    + apply Hrest.
    + apply Hrest.
Qed.

(** *** Runs without a loan *)

Section NoLoan.

Variable a : Args.
Hypothesis no_loan : has_loan a = false.

Lemma fund_empty_bucket (dd sp : Q) (l : Lane) :
  loan_bucket l == 0 -> loan_bucket (fund a dd sp l) == 0.
Proof.
  intro H.
  destruct (fund_fields a dd sp l)
    as (c1 & r1 & b1 & r2 & tl & tr & k1 & r5 & tr2 & u2
        & _ & _ & Etl & _ & _ & _ & Eu2 & ->).
  lane_simpl.
  assert (Hb : Qltb 0 (loan_bucket l) = false) by (apply Qltb_false; lra).
  rewrite Hb, andb_false_r in Etl. subst tl u2.
  destruct (Qleb (loan_bucket_use_dd a) dd && negb (failed l)
            && Qltb eps (r5 - tr2)) eqn:A; [|lra].
  apply andb_true_iff in A. destruct A as [_ A]. apply Qltb_true in A.
  unfold eps in A.
  destruct (fmin_cases (r5 - tr2) (loan_bucket l - 0)) as [[E1 ->]|[E1 ->]]; lra.
Qed.

Lemma year_lane_no_loan (pay : Q) (w : list Q) (t : nat) (nb r : Q) (l : Lane) :
  loan_bucket l == 0 /\ loan_bal l == 0 ->
  loan_bucket (year_lane a pay w t nb r l) == 0
  /\ loan_bal (year_lane a pay w t nb r l) == 0.
Proof.
  intros [H1 H2]. unfold year_lane, before_spending, spending. cbv zeta.
  assert (Hp : forall dd l0, loan_payment a pay t dd nb l0 = l0)
    by (intros; unfold loan_payment; rewrite no_loan; reflexivity).
  assert (Ho : forall dd l0,
             loan_bucket (rm_open a t dd l0) = loan_bucket l0
             /\ loan_bal (rm_open a t dd l0) = loan_bal l0).
  { intros. unfold rm_open. rewrite no_loan.
    destruct (Z.of_nat t =? rm_open_t a)%Z; split; reflexivity. }
  assert (Hg : loan_bucket (grow a r l) = loan_bucket l)
    by (unfold grow; rewrite no_loan; reflexivity).
  rewrite Hp. split.
  - autorewrite with frame. apply fund_empty_bucket.
    autorewrite with frame. rewrite (proj1 (Ho _ _)).
    autorewrite with frame. rewrite Hg. exact H1.
  - autorewrite with frame. rewrite (proj2 (Ho _ _)).
    autorewrite with frame. exact H2.
Qed.

Lemma run_years_no_loan (pay : Q) (w : list Q) (k : nat) (lanes : list Lane) :
  run_years a pay w k = Ok lanes ->
  Forall (fun l => loan_bucket l == 0 /\ loan_bal l == 0) lanes.
Proof.
  revert lanes. induction k as [|k IH]; intros lanes H.
  - simpl in H. injection H as <-. apply Forall_forall. intros l Hl.
    apply repeat_spec in Hl. subst l.
    unfold init_lane. destruct (safe_targets _ _ _ _). cbv zeta. lane_simpl.
    rewrite no_loan. split; reflexivity.
  - simpl in H. destruct (run_years a pay w k) as [prev|e]; [|discriminate].
    cbn [bind] in H. specialize (IH prev eq_refl).
    apply year_step_lanes in H. destruct H as (nb & _ & Hl).
    apply Forall_forall. intros l' Hin.
    apply In_nth_error in Hin. destruct Hin as [i Hi].
    destruct (Hl i l' Hi) as (l & r & Hprev & ->).
    rewrite Forall_forall in IH.
    apply year_lane_no_loan, IH, (nth_error_In _ _ Hprev).
Qed.

(** Without a loan the year loop raises nothing. *)
Lemma run_years_defined (pay : Q) (w : list Q) (k : nat) :
  exists lanes, run_years a pay w k = Ok lanes.
Proof.
  induction k as [|k [prev IH]]; simpl.
  - eexists. reflexivity.
  - rewrite IH. cbn [bind]. unfold year_step, next_loan_bal.
    rewrite no_loan. cbn [andb bind]. eexists. reflexivity.
Qed.

End NoLoan.

(** C8.  With [loan_amount = 0], at the end of every year of the run
    and on every path [loan_bucket] and [loan_bal] are 0 and the total
    net wealth is [cash + base_treas + risky]; and the run reaches
    every year whenever the horizon and the number of paths are
    positive and the returns broadcast. *)
Theorem no_loan_frame :
  forall a : Args, loan_amount a = 0%Z ->
    (forall (k : nat) (lanes : list Lane), lanes_after a k = Ok lanes ->
       Forall (fun l => loan_bucket l == 0 /\ loan_bal l == 0
                        /\ total_net_end l == cash l + base_treas l + risky l)
              lanes)
    /\ ((0 < n_years a)%nat -> (0 < n_sims a)%Z -> broadcastable a = true ->
        forall k : nat, exists lanes, lanes_after a k = Ok lanes).
Proof.
  intros a H0.
  assert (L : has_loan a = false) by (unfold has_loan; rewrite H0; reflexivity).
  split.
  - intros k lanes H.
    destruct (lanes_after_run a k lanes H) as (pay & w & _ & _ & Hrun).
    pose proof (run_years_no_loan a L pay w k lanes Hrun) as Hz.
    apply Forall_forall. intros l Hl. rewrite Forall_forall in Hz.
    destruct (Hz l Hl) as [Z1 Z2]. unfold total_net_end.
    repeat split; try assumption. lra.
  - intros Hy Hs Hb k. unfold lanes_after.
    destruct (n_years a) as [|m] eqn:N; [lia|].
    unfold the_pay, Loan.amort_payment. rewrite H0.
    change (Qleb (inject_Z 0) 0) with true. cbn [bind].
    unfold the_w, build_withdrawals. rewrite N.
    destruct (income_applies_to_actual_spend a); cbn [bind];
      (destruct (n_sims a <? 0)%Z eqn:S1; [apply Z.ltb_lt in S1; lia|]);
      (destruct (n_sims a =? 0)%Z eqn:S2; [apply Z.eqb_eq in S2; lia|]);
      rewrite Hb; cbn [negb]; apply (run_years_defined a L).
Qed.

(** *** Paths that have failed *)

Section Failed.

Variable a : Args.

Lemma loan_payment_failed (pay : Q) (t : nat) (dd nb : Q) (l : Lane) :
  failed l = true ->
  failed (loan_payment a pay t dd nb l) = true
  /\ fail_idx (loan_payment a pay t dd nb l) = fail_idx l.
Proof.
  intro F. unfold loan_payment.
  destruct (has_loan a && _); [|split; [exact F | reflexivity]].
  destruct (take_from _ _) as [c1 r1].
  destruct (take_from _ _) as [b1 r2].
  destruct (take_from _ _) as [k1 r3].
  cbv zeta. lane_simpl. rewrite F. split; reflexivity.
Qed.

Lemma rm_open_failed (t : nat) (dd : Q) (l : Lane) :
  failed l = true ->
  failed (rm_open a t dd l) = true /\ fail_idx (rm_open a t dd l) = fail_idx l.
Proof.
  intro F. unfold rm_open.
  destruct (Z.of_nat t =? rm_open_t a)%Z; [|split; [exact F | reflexivity]].
  cbv zeta. destruct (has_loan a); [|split; [exact F | reflexivity]].
  destruct (Qleb dd (payoff_dd_threshold a));
    destruct (take_from (base_treas l) _) as [b1 p2];
    destruct (take_from (cash l) p2) as [c1 p3];
    destruct (take_from (loan_bucket l) p3) as [u1 p4];
    lane_simpl; rewrite F; split; reflexivity.
Qed.

(** The substeps before spending keep a failed path failed. *)
Lemma before_spending_failed (pay : Q) (t : nat) (nb r : Q) (l : Lane) :
  failed l = true ->
  failed (snd (before_spending a pay t nb r l)) = true
  /\ fail_idx (snd (before_spending a pay t nb r l)) = fail_idx l.
Proof.
  intro F. unfold before_spending. cbv zeta. lane_simpl.
  set (l1 := mark (grow a r l)).
  assert (F1 : failed l1 = true) by (subst l1; autorewrite with frame; exact F).
  set (dd := drawdown_of (hwm l1) (risky l1)).
  rewrite rm_growth_failed, rm_growth_fail_idx.
  destruct (loan_payment_failed pay t dd nb l1 F1) as [F2 I2].
  destruct (rm_open_failed t dd _ F2) as [F3 I3].
  split; [exact F3|]. rewrite I3, I2. subst l1. autorewrite with frame.
  reflexivity.
Qed.

(** Saving surplus income only adds to the buckets. *)
Lemma save_surplus_adds (w : list Q) (t : nat) (dd : Q) (l : Lane) :
  cash l <= cash (save_surplus a w t dd l)
  /\ base_treas l <= base_treas (save_surplus a w t dd l)
  /\ risky l <= risky (save_surplus a w t dd l).
Proof.
  unfold save_surplus.
  destruct (Qltb 0 (income_scalar a t)); [|repeat split; lra].
  cbv zeta.
  destruct (Qltb 0 _) eqn:S; [|repeat split; lra].
  apply Qltb_true in S.
  destruct (String.eqb _ _); [lane_simpl; repeat split; lra|].
  destruct (safe_targets _ _ _ _) as [tc tb]. lane_simpl.
  set (s := fmax 0 _) in *.
  assert (0 <= fmin (fmax 0 (tc - cash l)) s)
    by (apply fmin_glb; [apply fmax_lb_l | lra]).
  pose proof (fmin_ub_r (fmax 0 (tc - cash l)) s).
  assert (0 <= fmin (fmax 0 (tb - base_treas l)) (s - fmin (fmax 0 (tc - cash l)) s))
    by (apply fmin_glb; [apply fmax_lb_l | lra]).
  pose proof (fmin_ub_r (fmax 0 (tb - base_treas l))
                        (s - fmin (fmax 0 (tc - cash l)) s)).
  repeat split; lra.
Qed.

(** Funding a spend of 0 on a failed path moves nothing. *)
Lemma fund_nothing (dd : Q) (l : Lane) :
  failed l = true ->
  cash (fund a dd 0 l) == cash l
  /\ base_treas (fund a dd 0 l) == base_treas l
  /\ risky (fund a dd 0 l) == risky l
  /\ loan_bucket (fund a dd 0 l) == loan_bucket l
  /\ rm_bal (fund a dd 0 l) == rm_bal l.
Proof.
  intros F.
  destruct (fund_fields a dd 0 l)
    as (c1 & r1 & b1 & r2 & tl & tr & k1 & r5 & tr2 & u2
        & T1 & T2 & Etl & Etr & T3 & Etr2 & Eu2 & ->).
  rewrite F in *. cbn [negb] in *. rewrite ?andb_false_r in *.
  cbn [andb] in *. subst tl tr u2.
  apply take_from_spec in T1. destruct T1 as (C1 & _ & _ & Z1).
  assert (Hr1 : r1 == 0) by (apply Z1; lra).
  apply take_from_spec in T2. destruct T2 as (C2 & _ & _ & Z2).
  assert (Hr2 : r2 == 0) by (apply Z2; lra).
  apply take_from_spec in T3. destruct T3 as (C3 & _ & _ & Z3).
  assert (Hr5 : r5 == 0) by (apply Z3; lra).
  assert (Htr2 : tr2 == 0).
  { subst tr2.
    pose proof (fmax_lb_l 0 (rm_limit l - (rm_bal l + 0))).
    destruct (fmin_cases r5 (fmax 0 (rm_limit l - (rm_bal l + 0))))
      as [[E1 ->]|[E1 ->]]; lra. }
  lane_simpl. repeat split; lra.
Qed.

(** What the spending substeps do to a failed path. *)
Lemma spending_failed (w : list Q) (t : nat) (dd : Q) (l1 : Lane) :
  failed l1 = true ->
  let mf := max_feasible a dd l1 in
  let l2 := check_floor a t mf (save_surplus a w t dd l1) in
  let l3 := fund a dd (spend_assets a w t dd mf l2) l2 in
  let l' := spending a w t dd l1 in
  spend_assets a w t dd mf l2 = 0
  /\ refill_add_cash a w t dd l3 = 0
  /\ refill_add_base a w t dd l3 = 0
  /\ repay_take a dd (refill a w t dd l3) = 0
  /\ (cash l3 == cash l2 /\ base_treas l3 == base_treas l2
      /\ risky l3 == risky l2 /\ loan_bucket l3 == loan_bucket l2
      /\ rm_bal l3 == rm_bal l2)
  /\ (cash l1 <= cash l' /\ base_treas l1 <= base_treas l'
      /\ risky l1 <= risky l' /\ loan_bucket l' == loan_bucket l1
      /\ rm_bal l' == rm_bal l1 /\ rm_limit l' = rm_limit l1
      /\ failed l' = true /\ fail_idx l' = fail_idx l1).
Proof.
  intros F mf l2 l3 l'.
  assert (F2 : failed l2 = true).
  { subst l2. unfold check_floor. lane_simpl. autorewrite with frame.
    rewrite F. reflexivity. }
  assert (I2 : fail_idx l2 = fail_idx l1).
  { subst l2. unfold check_floor. lane_simpl. autorewrite with frame.
    rewrite F. reflexivity. }
  assert (Hsp : spend_assets a w t dd mf l2 = 0)
    by (unfold spend_assets; rewrite F2; reflexivity).
  assert (F3 : failed l3 = true) by (subst l3; autorewrite with frame; exact F2).
  assert (G3 : good a dd l3 = false)
    by (unfold good; rewrite F3; apply andb_false_r).
  assert (Hac : refill_add_cash a w t dd l3 = 0).
  { unfold refill_add_cash. destruct (safe_targets _ _ _ _).
    rewrite G3. reflexivity. }
  assert (Hab : refill_add_base a w t dd l3 = 0).
  { unfold refill_add_base. destruct (safe_targets _ _ _ _).
    rewrite G3. reflexivity. }
  assert (Hrt : repay_take a dd (refill a w t dd l3) = 0).
  { unfold repay_take, good. cbv zeta. autorewrite with frame. rewrite F3.
    cbn [negb]. rewrite !andb_false_r. cbn [andb].
    unfold fmin. rewrite (proj2 (Qleb_true 0 _) (fmax_lb_r _ 0)). reflexivity. }
  assert (Hfund : cash l3 == cash l2 /\ base_treas l3 == base_treas l2
                  /\ risky l3 == risky l2 /\ loan_bucket l3 == loan_bucket l2
                  /\ rm_bal l3 == rm_bal l2)
    by (subst l3; rewrite Hsp; apply fund_nothing; exact F2).
  destruct Hfund as (E1 & E2 & E3 & E4 & E5).
  destruct (save_surplus_adds w t dd l1) as (S1 & S2 & S3).
  assert (C2 : cash l2 = cash (save_surplus a w t dd l1)
               /\ base_treas l2 = base_treas (save_surplus a w t dd l1)
               /\ risky l2 = risky (save_surplus a w t dd l1)
               /\ loan_bucket l2 = loan_bucket l1
               /\ rm_bal l2 = rm_bal l1 /\ rm_limit l2 = rm_limit l1)
    by (subst l2; autorewrite with frame; repeat split; reflexivity).
  destruct C2 as (K1 & K2 & K3 & K4 & K5 & K6).
  rewrite <- K1 in S1. rewrite <- K2 in S2. rewrite <- K3 in S3.
  assert (El' : l' = latch (repay a dd (refill a w t dd l3))) by reflexivity.
  split; [exact Hsp|]. split; [exact Hac|]. split; [exact Hab|].
  split; [exact Hrt|].
  split; [exact (conj E1 (conj E2 (conj E3 (conj E4 E5))))|].
  rewrite El'. autorewrite with frame.
  split; [unfold refill; lane_simpl; rewrite Hac; lra|].
  split; [unfold refill; lane_simpl; rewrite Hab; lra|].
  split.
  { unfold repay. lane_simpl. rewrite Hrt. unfold refill. lane_simpl.
    rewrite Hac, Hab. lra. }
  split; [rewrite E4, K4; reflexivity|].
  split.
  { unfold repay. lane_simpl. rewrite Hrt. autorewrite with frame.
    rewrite <- K5. lra. }
  split; [subst l3; autorewrite with frame; exact K6|].
  split; [exact F3|].
  subst l3. autorewrite with frame. exact I2.
Qed.

Lemma loan_payment_latch (pay : Q) (t : nat) (dd nb : Q) (l : Lane) :
  latch_step t l (loan_payment a pay t dd nb l).
Proof.
  unfold loan_payment, latch_step.
  destruct (has_loan a && _); [|left; split; reflexivity].
  destruct (take_from _ _) as [c1 r1].
  destruct (take_from _ _) as [b1 r2].
  destruct (take_from _ _) as [k1 r3].
  cbv zeta. lane_simpl.
  destruct (failed l); cbn [negb andb]; [left; split; reflexivity|].
  match goal with |- context [if ?c then true else false] => destruct c end;
    [right | left]; repeat split; reflexivity.
Qed.

Lemma rm_open_latch (t : nat) (dd : Q) (l : Lane) :
  latch_step t l (rm_open a t dd l).
Proof.
  unfold rm_open, latch_step.
  destruct (Z.of_nat t =? rm_open_t a)%Z; [|left; split; reflexivity].
  cbv zeta. destruct (has_loan a); [|left; split; reflexivity].
  destruct (Qleb dd (payoff_dd_threshold a));
    destruct (take_from (base_treas l) _) as [b1 p2];
    destruct (take_from (cash l) p2) as [c1 p3];
    destruct (take_from (loan_bucket l) p3) as [u1 p4];
    lane_simpl;
    (destruct (failed l); cbn [negb andb]; [left; split; reflexivity|]);
    (destruct (Qltb eps p4); [right | left]; repeat split; reflexivity).
Qed.

Lemma check_floor_latch (t : nat) (mf : Q) (l : Lane) :
  latch_step t l (check_floor a t mf l).
Proof.
  unfold check_floor, latch_step. lane_simpl.
  destruct (failed l); cbn [negb andb]; [left; split; reflexivity|].
  destruct (Qltb mf _); [right | left]; repeat split; reflexivity.
Qed.

(** After a year, a set latch carries a year at or before it and an
    unset latch still carries the sentinel. *)
Lemma year_lane_latch_index (pay : Q) (w : list Q) (t : nat) (nb r : Q)
      (l : Lane) (sentinel : Z) :
  (failed l = true -> (fail_idx l < Z.of_nat t)%Z) ->
  (failed l = false -> fail_idx l = sentinel) ->
  let l' := year_lane a pay w t nb r l in
  (failed l' = true -> (fail_idx l' < Z.of_nat (S t))%Z)
  /\ (failed l' = false -> fail_idx l' = sentinel).
Proof.
  intros H1 H2 l'.
  assert (G : forall x y, latch_step t x y ->
            ((failed x = true -> (fail_idx x < Z.of_nat (S t))%Z)
             /\ (failed x = false -> fail_idx x = sentinel)) ->
            (failed y = true -> (fail_idx y < Z.of_nat (S t))%Z)
            /\ (failed y = false -> fail_idx y = sentinel)).
  { intros x y [[E1 E2]|[E1 [E2 E3]]] [A B].
    - rewrite E1, E2. split; assumption.
    - rewrite E2, E3. split; [intros _; lia | discriminate]. }
  subst l'. unfold year_lane, before_spending, spending. cbv zeta.
  autorewrite with frame.
  eapply G; [apply check_floor_latch|]. autorewrite with frame.
  eapply G; [apply rm_open_latch|].
  eapply G; [apply loan_payment_latch|]. autorewrite with frame.
  split; [intro F; specialize (H1 F); lia | exact H2].
Qed.

Lemma run_years_latch_index (pay : Q) (w : list Q) (k : nat) (lanes : list Lane) :
  run_years a pay w k = Ok lanes ->
  Forall (fun l => (failed l = true -> (fail_idx l < Z.of_nat k)%Z)
                   /\ (failed l = false -> fail_idx l = Z.of_nat (n_years a)))
         lanes.
Proof.
  revert lanes. induction k as [|k IH]; intros lanes H.
  - simpl in H. injection H as <-. apply Forall_forall. intros l Hl.
    apply repeat_spec in Hl. subst l.
    unfold init_lane. destruct (safe_targets _ _ _ _). cbv zeta. lane_simpl.
    split; [discriminate | reflexivity].
  - simpl in H. destruct (run_years a pay w k) as [prev|e]; [|discriminate].
    cbn [bind] in H. specialize (IH prev eq_refl).
    apply year_step_lanes in H. destruct H as (nb & _ & Hl).
    apply Forall_forall. intros l' Hin.
    apply In_nth_error in Hin. destruct Hin as [i Hi].
    destruct (Hl i l' Hi) as (l & r & Hprev & ->).
    rewrite Forall_forall in IH.
    destruct (IH l (nth_error_In _ _ Hprev)) as [A B].
    apply year_lane_latch_index; assumption.
Qed.

End Failed.

(** C2, as amended.  On a path that failed in an earlier year
    ([fail_idx < k]), in year [k]: [spend_assets] is 0; the funding
    order, the reserve refill and the repayment of the reverse mortgage
    move nothing; and the substeps from the income application to the
    end of the year take nothing out of [cash], [base_treas], [risky],
    [loan_bucket] or the reverse-mortgage availability, and leave the
    latch as it was. *)
Theorem failed_path_inert :
  forall (a : Args) (k : nat) (lanes : list Lane) (pay : Q) (w : list Q),
    lanes_after a k = Ok lanes -> (k < n_years a)%nat ->
    the_pay a = Ok pay -> the_w a = Ok w ->
    forall l : Lane, In l lanes -> (fail_idx l < Z.of_nat k)%Z ->
    forall nb r : Q,
      let dd := fst (before_spending a pay k nb r l) in
      let l1 := snd (before_spending a pay k nb r l) in
      let mf := max_feasible a dd l1 in
      let l2 := check_floor a k mf (save_surplus a w k dd l1) in
      let l3 := fund a dd (spend_assets a w k dd mf l2) l2 in
      let l' := year_lane a pay w k nb r l in
      spend_assets a w k dd mf l2 = 0
      /\ refill_add_cash a w k dd l3 = 0
      /\ refill_add_base a w k dd l3 = 0
      /\ repay_take a dd (refill a w k dd l3) = 0
      /\ (cash l3 == cash l2 /\ base_treas l3 == base_treas l2
          /\ risky l3 == risky l2 /\ loan_bucket l3 == loan_bucket l2
          /\ rm_bal l3 == rm_bal l2)
      /\ (cash l1 <= cash l' /\ base_treas l1 <= base_treas l'
          /\ risky l1 <= risky l' /\ loan_bucket l' == loan_bucket l1
          /\ rm_bal l' == rm_bal l1 /\ rm_limit l' = rm_limit l1
          /\ failed l' = true /\ fail_idx l' = fail_idx l).
Proof.
  intros a k lanes pay w H Hk Hpay Hw l Hl Hidx nb r dd l1 mf l2 l3 l'.
  rewrite (lanes_after_loop a k lanes pay w H Hpay Hw k) in H.
  pose proof (run_years_latch_index a pay w k lanes H) as Hlatch.
  rewrite Forall_forall in Hlatch. destruct (Hlatch l Hl) as [_ Hunset].
  assert (F : failed l = true).
  { destruct (failed l); [reflexivity|]. specialize (Hunset eq_refl). lia. }
  destruct (before_spending_failed a pay k nb r l F) as [F1 I1].
  fold l1 in F1, I1.
  assert (El' : l' = spending a w k dd l1) by reflexivity.
  rewrite El', <- I1. exact (spending_failed a w k dd l1 F1).
Qed.

(** *** Spending level, failure years and success probabilities *)

Section Monotone.

Import Mortality.

Lemma filter_length_mono {A : Type} (f g : A -> bool) (xs ys : list A) :
  Forall2 (fun x y => f x = true -> g y = true) xs ys ->
  (List.length (filter f xs) <= List.length (filter g ys))%nat.
Proof.
  induction 1 as [|x y xs ys Hxy _ IH]; simpl; [lia|].
  destruct (f x); [rewrite (Hxy eq_refl); simpl; lia|].
  destruct (g y); simpl; lia.
Qed.

Lemma share_mono {A : Type} (f g : A -> bool) (xs ys : list A) :
  Forall2 (fun x y => f x = true -> g y = true) xs ys ->
  share f xs <= share g ys.
Proof.
  intro H. unfold share.
  rewrite <- (Forall2_length H).
  pose proof (filter_length_mono f g xs ys H) as Hle.
  destruct xs as [|x xs].
  - inversion H; subst. simpl. lra.
  - assert (Hpos : 0 < inject_Z (Z.of_nat (List.length (x :: xs)))).
    { change 0 with (inject_Z 0). rewrite <- Zlt_Qlt. simpl. lia. }
    apply Qle_shift_div_l; [exact Hpos|].
    unfold Qdiv. rewrite <- Qmult_assoc, (Qmult_comm (/ _)), Qmult_inv_r by lra.
    rewrite Qmult_1_r, <- Zle_Qle. lia.
Qed.

Lemma nth_map_mono {A : Type} (g1 g2 : A -> Q) (l : list A) (i : nat) :
  (forall x, g1 x <= g2 x) -> nth i (map g1 l) 0 <= nth i (map g2 l) 0.
Proof.
  intro H. revert i. induction l as [|x l IH]; intros [|i]; simpl;
    try lra; [apply H | apply IH].
Qed.

(** A successful call of [death_weighted_success] had at least one path
    and one model year. *)
Lemma death_weighted_success_inputs (fail_idx ages_model : list Z) (pp : Q * Q) :
  death_weighted_success fail_idx ages_model = Ok pp ->
  fail_idx <> [] /\ ages_model <> [].
Proof.
  intro H. split; intro C; subst.
  - destruct ages_model as [|y ys]; [vm_compute in H; discriminate|].
    unfold death_weighted_success in H.
    destruct mortality_weights as [al pd].
    simpl in H. discriminate.
  - vm_compute in H. discriminate.
Qed.

(** Later failures on every path give higher success probabilities. *)
Lemma success_monotone (f1 f2 ages_model : list Z) (pp1 pp2 : Q * Q) :
  Forall2 (fun x y => (y <= x)%Z) f1 f2 ->
  death_weighted_success f1 ages_model = Ok pp1 ->
  death_weighted_success f2 ages_model = Ok pp2 ->
  fst pp2 <= fst pp1 /\ snd pp2 <= snd pp1.
Proof.
  intros Hf H1 H2.
  destruct (death_weighted_success_inputs _ _ _ H1) as [N1 Na].
  destruct (death_weighted_success_inputs _ _ _ H2) as [N2 _].
  rewrite (death_weighted_success_value _ _ N1 Na) in H1.
  rewrite (death_weighted_success_value _ _ N2 Na) in H2.
  cbv zeta in H1, H2. apply Ok_inj in H1, H2. subst pp1 pp2.
  cbn [fst snd]. split.
  - rewrite !np_sum_total. apply weighted_sum_mono; [apply weights_nonneg|].
    induction (fst mortality_weights) as [|age ages IH]; cbn [map];
      [constructor|].
    constructor; [|exact IH].
    assert (forall i,
      nth i (map (fun t => share (fun f => (f <=? Z.of_nat t)%Z) f1)
                 (seq 0 (List.length ages_model))) 0
      <= nth i (map (fun t => share (fun f => (f <=? Z.of_nat t)%Z) f2)
                    (seq 0 (List.length ages_model))) 0) as Hn.
    { intro i. apply nth_map_mono. intro t. apply share_mono.
      eapply Forall2_impl; [|exact Hf]. cbv beta. intros x y Hxy Hx.
      apply Z.leb_le in Hx. apply Z.leb_le. lia. }
    specialize (Hn (Z.to_nat (dict_get (age_to_t ages_model) age
                                       (Z.of_nat (List.length ages_model) - 1)))).
    lra.
  - apply share_mono. apply Forall2_flip.
    eapply Forall2_impl; [|exact Hf]. cbv beta. intros x y Hxy Hy.
    apply Z.leb_le in Hy. apply Z.leb_le. lia.
Qed.

End Monotone.

(** C1, as amended.  The planned withdrawal of every year does not
    decrease with the spending level [E] (for a non-negative
    [partial_year_fraction]); and for two runs of [simulate_once] on the
    same arguments at spending levels [E1] and [E2], whenever the
    [fail_idx] at [E1] is at least the [fail_idx] at [E2] on every
    path, [p_success_death_weighted] and [p_success_to_age_99] at [E1]
    are at least those at [E2]. *)
Theorem later_failures_raise_success :
  forall (a : Args) (E1 E2 : Z),
    (forall w1 w2, (E1 <= E2)%Z -> 0 <= partial_year_fraction a ->
       the_w (with_E a E1) = Ok w1 -> the_w (with_E a E2) = Ok w2 ->
       Forall2 Qle w1 w2)
    /\ (forall lanes1 lanes2 m1 m2,
          lanes_after (with_E a E1) (n_years a) = Ok lanes1 ->
          lanes_after (with_E a E2) (n_years a) = Ok lanes2 ->
          simulate_once (with_E a E1) = Ok m1 ->
          simulate_once (with_E a E2) = Ok m2 ->
          Forall2 (fun l1 l2 => (fail_idx l2 <= fail_idx l1)%Z) lanes1 lanes2 ->
          p_success_death_weighted m2 <= p_success_death_weighted m1
          /\ p_success_to_age_99 m2 <= p_success_to_age_99 m1).
Proof.
  intros a E1 E2. split.
  - intros w1 w2 HE Hp H1 H2. unfold the_w, build_withdrawals in H1, H2.
    change (n_years (with_E a E1)) with (n_years a) in H1.
    change (n_years (with_E a E2)) with (n_years a) in H2.
    change (age_of (with_E a E1)) with (age_of a) in H1.
    change (age_of (with_E a E2)) with (age_of a) in H2.
    cbn [with_E E partial_year_fraction income_applies_to_actual_spend
         ss_annual_real ss_start_age earned_income_annual_real
         earned_income_start_age earned_income_end_age] in H1, H2.
    destruct (n_years a) as [|m] eqn:N; [discriminate|].
    rewrite <- N in H1, H2. clear N m.
    assert (HQ : inject_Z E1 <= inject_Z E2) by (rewrite <- Zle_Qle; exact HE).
    assert (G : forall f g : nat -> Q, (forall t, f t <= g t) ->
                forall l, Forall2 Qle (map f l) (map g l)).
    { intros f g Hfg l. induction l; simpl; constructor; auto. }
    assert (M : forall x y, x <= y -> fmax 0 x <= fmax 0 y).
    { intros x y Hxy.
      destruct (fmax_cases 0 x) as [[? ->]|[? ->]];
        destruct (fmax_cases 0 y) as [[? ->]|[? ->]]; lra. }
    destruct (income_applies_to_actual_spend a);
      apply Ok_inj in H1, H2; subst w1 w2; apply G; intros [|t];
      apply M; cbv zeta beta; nra.
  - intros lanes1 lanes2 m1 m2 L1 L2 S1 S2 Hf.
    unfold simulate_once in S1, S2.
    change (n_years (with_E a E1)) with (n_years a) in S1.
    change (n_years (with_E a E2)) with (n_years a) in S2.
    rewrite L1 in S1. rewrite L2 in S2. cbn [bind] in S1, S2.
    unfold metrics_of in S1, S2.
    change (n_years (with_E a E1)) with (n_years a) in S1.
    change (n_years (with_E a E2)) with (n_years a) in S2.
    change (age_of (with_E a E1)) with (age_of a) in S1.
    change (age_of (with_E a E2)) with (age_of a) in S2.
    destruct (Mortality.death_weighted_success (map fail_idx lanes1) _)
      as [pp1|] eqn:D1; [|discriminate].
    destruct (Mortality.death_weighted_success (map fail_idx lanes2) _)
      as [pp2|] eqn:D2; [|discriminate].
    cbn [bind] in S1, S2.
    destruct (Mortality.mean_bool (map rm_ever_used lanes1)); [|discriminate].
    destruct (Mortality.mean_bool (map rm_ever_used lanes2)); [|discriminate].
    cbn [bind] in S1, S2. apply Ok_inj in S1, S2. subst m1 m2.
    cbn [p_success_death_weighted p_success_to_age_99].
    apply (success_monotone (map fail_idx lanes1) (map fail_idx lanes2)
             (map (age_of a) (seq 0 (n_years a))) pp1 pp2);
      [|exact D1 | exact D2].
    clear -Hf. induction Hf; simpl; constructor; assumption.
Qed.

(** *** The claims on the scenarios *)

Section OnScenarios.

Import Scenarios.

(** C1 as stated fails: under three years at -50%, the path fails in
    year 2 at [E = 20] and only in year 3 at [E = 60] (the larger
    reserve is kept out of the falling risky asset), and the
    death-weighted success is lower at the lower spending level.  On
    [short_crash], the horizon of these three years alone, the path at
    [E = 60] does not fail at all: the success to age 99 is 0 at
    [E = 20] and 1 at [E = 60]. *)
Lemma higher_spending_later_failure :
  (20 <= 60)%Z
  /\ map fail_idx (lanes_of (lanes_after (crash 20) 4)) = [2%Z]
  /\ map fail_idx (lanes_of (lanes_after (crash 60) 4)) = [3%Z]
  /\ (exists m1 m2,
        simulate_once (crash 20) = Ok m1 /\ simulate_once (crash 60) = Ok m2
        /\ p_success_death_weighted m1 < p_success_death_weighted m2)
  /\ n_years (short_crash 20) = 3%nat
  /\ map fail_idx (lanes_of (lanes_after (short_crash 20) 3)) = [2%Z]
  /\ map fail_idx (lanes_of (lanes_after (short_crash 60) 3)) = [3%Z]
  /\ exists m1 m2,
       simulate_once (short_crash 20) = Ok m1
       /\ simulate_once (short_crash 60) = Ok m2
       /\ p_success_death_weighted m1 < p_success_death_weighted m2
       /\ p_success_to_age_99 m1 == 0 /\ p_success_to_age_99 m2 == 1.
Proof.
  split; [lia|]. split; [vm_compute; reflexivity|].
  split; [vm_compute; reflexivity|].
  split.
  { eexists. eexists. split; [vm_compute; reflexivity|].
    split; [vm_compute; reflexivity|]. vm_compute. reflexivity. }
  split; [reflexivity|]. split; [vm_compute; reflexivity|].
  split; [vm_compute; reflexivity|].
  eexists. eexists. split; [vm_compute; reflexivity|].
  split; [vm_compute; reflexivity|].
  split; [vm_compute; reflexivity|]. split; vm_compute; reflexivity.
Qed.

(** The amended C1 on the same scenario: the schedule at 20 is below
    the schedule at 60, and the later failure at 60 gives the higher
    success probabilities. *)
Lemma later_failures_raise_success_witness :
  Forall2 Qle (schedule_of (the_w (with_E (crash 0) 20)))
              (schedule_of (the_w (with_E (crash 0) 60)))
  /\ exists m1 m2,
       simulate_once (with_E (crash 0) 60) = Ok m1
       /\ simulate_once (with_E (crash 0) 20) = Ok m2
       /\ p_success_death_weighted m2 <= p_success_death_weighted m1
       /\ p_success_to_age_99 m2 <= p_success_to_age_99 m1.
Proof.
  split.
  - destruct (later_failures_raise_success (crash 0) 20 60) as [A _].
    apply A; [lia | vm_compute; discriminate
              | vm_compute; reflexivity | vm_compute; reflexivity].
  - destruct (later_failures_raise_success (crash 0) 60 20) as [_ B].
    eexists. eexists.
    split; [vm_compute; reflexivity|]. split; [vm_compute; reflexivity|].
    apply (B (lanes_of (lanes_after (crash 60) 4))
             (lanes_of (lanes_after (crash 20) 4)));
      [vm_compute; reflexivity | vm_compute; reflexivity
       | vm_compute; reflexivity | vm_compute; reflexivity |].
    vm_compute. repeat constructor. discriminate.
Defined.

(** C2 as stated fails: the path of [indebted] fails in year 0, and in
    year 1, with a return of 0, the loan payment still takes 40/3 out
    of its risky balance.  The path of [overdue] fails in year 0 too,
    and in year 1, when its credit line opens, the payoff of the loan
    draws 5 on the line and takes money from cash, from Treasuries and
    from the loan bucket; [risky] is not debited. *)
Lemma failed_path_still_pays_loan :
  (exists l1 l2,
     lanes_after indebted 1 = Ok [l1] /\ lanes_after indebted 2 = Ok [l2]
     /\ failed l1 = true /\ fail_idx l1 = 0%Z
     /\ risky l2 == risky l1 - (40 # 3))
  /\ rm_open_t overdue = 1%Z
  /\ exists l1 l2,
       lanes_after overdue 1 = Ok [l1] /\ lanes_after overdue 2 = Ok [l2]
       /\ failed l1 = true /\ fail_idx l1 = 0%Z
       /\ cash l2 < cash l1 /\ base_treas l2 < base_treas l1
       /\ loan_bucket l2 < loan_bucket l1
       /\ rm_bal l1 == 0 /\ rm_bal l2 == 5 /\ rm_limit l2 - rm_bal l2 == 0
       /\ risky l2 == risky l1.
Proof.
  split.
  { eexists. eexists. split; [vm_compute; reflexivity|].
    split; [vm_compute; reflexivity|].
    split; [reflexivity|]. split; [reflexivity|].
    vm_compute. reflexivity. }
  split; [reflexivity|].
  eexists. eexists. split; [vm_compute; reflexivity|].
  split; [vm_compute; reflexivity|].
  split; [reflexivity|]. split; [reflexivity|].
  repeat (split; [vm_compute; reflexivity|]). vm_compute. reflexivity.
Qed.

(** The amended C2 on the failed path of [indebted] in year 1. *)
Lemma failed_path_inert_witness :
  let pay := value_of (the_pay indebted) in
  let w := schedule_of (the_w indebted) in
  let l1 := snd (before_spending indebted pay 1 0 0 indebted_lane) in
  let l' := year_lane indebted pay w 1 0 0 indebted_lane in
  cash l1 <= cash l' /\ base_treas l1 <= base_treas l'
  /\ risky l1 <= risky l' /\ loan_bucket l' == loan_bucket l1
  /\ rm_bal l' == rm_bal l1 /\ rm_limit l' = rm_limit l1
  /\ failed l' = true /\ fail_idx l' = fail_idx indebted_lane.
Proof.
  intros pay w l1 l'.
  assert (H1 : lanes_after indebted 1 = Ok [indebted_lane])
    by (vm_compute; reflexivity).
  assert (H2 : (1 < n_years indebted)%nat) by (vm_compute; lia).
  assert (H3 : the_pay indebted = Ok pay) by (vm_compute; reflexivity).
  assert (H4 : the_w indebted = Ok w) by (vm_compute; reflexivity).
  assert (H5 : In indebted_lane [indebted_lane]) by (left; reflexivity).
  assert (H6 : (fail_idx indebted_lane < Z.of_nat 1)%Z) by (vm_compute; reflexivity).
  exact (proj2 (proj2 (proj2 (proj2 (proj2
    (failed_path_inert indebted 1 [indebted_lane] pay w H1 H2 H3 H4
       indebted_lane H5 H6 0 0)))))).
Defined.

(** C3 as stated fails: with a drawn balance that grows at 10% against
    a credit line that does not grow, the second year of [house_rich]
    ends with [rm_bal = 55] above [rm_limit = 50]. *)
Lemma balance_outgrows_line :
  exists l, lanes_after (house_rich (1 # 10)) 2 = Ok [l]
            /\ rm_limit l == 50 /\ rm_bal l == 55 /\ ~ rm_bal l <= rm_limit l.
Proof.
  eexists. split; [vm_compute; reflexivity|].
  split; [vm_compute; reflexivity|]. split; [vm_compute; reflexivity|].
  vm_compute. intro C. apply C. reflexivity.
Qed.

Lemma house_rich_in_range : in_range (house_rich 0).
Proof.
  constructor; cbn; try split; lra.
Defined.

(** The amended C3 on [house_rich] with a balance that does not grow. *)
Lemma balances_in_range_witness :
  Forall (fun l => 0 <= cash l /\ 0 <= base_treas l /\ 0 <= rm_bal l
                   /\ 0 <= rm_limit l /\ 0 <= loan_bucket l
                   /\ rm_bal l <= rm_limit l)
         (lanes_of (lanes_after (house_rich 0) 2)).
Proof.
  apply (balances_in_range (house_rich 0) house_rich_in_range 2).
  vm_compute. reflexivity.
Defined.

(** C8 on [crash], which has no loan. *)
Lemma no_loan_frame_witness :
  Forall (fun l => loan_bucket l == 0 /\ loan_bal l == 0
                   /\ total_net_end l == cash l + base_treas l + risky l)
         (lanes_of (lanes_after (crash 60) 4))
  /\ exists lanes, lanes_after (crash 60) 4 = Ok lanes.
Proof.
  destruct (no_loan_frame (crash 60) eq_refl) as [A B]. split.
  - apply (A 4%nat). vm_compute. reflexivity.
  - apply B; [vm_compute; lia | reflexivity | reflexivity].
Defined.

End OnScenarios.

(** ** The optimizer (simulation/optimizer.py) *)

Section SearchFacts.

Import Optimizer.

Variable sim : Z -> outcome Metrics.
Variable target : Q.
Variable objective : Metrics -> Q.

Lemma grow_bracket (h : Z) :
  py_int (inject_Z h * (125 # 100)) = Z.quot (h * 125) 100.
Proof. reflexivity. Qed.

Lemma grow_bracket_up (h : Z) : (4 <= h)%Z -> (h + 1 <= Z.quot (h * 125) 100)%Z.
Proof.
  intro H. rewrite Z.quot_div_nonneg by lia.
  apply Z.div_le_lower_bound; lia.
Qed.

Lemma grow_bracket_nonneg (h : Z) : (0 <= h)%Z -> (h <= Z.quot (h * 125) 100)%Z.
Proof.
  intro H. rewrite Z.quot_div_nonneg by lia.
  apply Z.div_le_lower_bound; lia.
Qed.

Lemma grow_bracket_neg (h : Z) : (h < 0)%Z -> (Z.quot (h * 125) 100 < 0)%Z.
Proof.
  intro H. replace (h * 125)%Z with (- ((- h) * 125))%Z by ring.
  rewrite Z.quot_opp_l by lia. rewrite Z.quot_div_nonneg by lia.
  assert (1 <= (- h * 125) / 100)%Z by (apply Z.div_le_lower_bound; lia).
  lia.
Qed.

(** The expansion keeps [lo] evaluated and passing, and stops at a
    bracket end that was evaluated and missed the target or is at the
    cap. *)
Lemma expand_sound (fuel : nat) :
  forall s mhi s',
    expand sim target objective fuel s mhi = Ok s' ->
    lo_passes sim target objective s -> sim (hi s) = Ok mhi ->
    lo_passes sim target objective s'
    /\ exists mh, sim (hi s') = Ok mh
                  /\ (objective mh < target \/ (600000 <= hi s')%Z).
Proof.
  induction fuel as [|fuel IH]; intros s mhi s' H Hlo Hhi; simpl in H.
  - destruct (Qleb target (objective mhi) && (hi s <? 600000)%Z) eqn:C;
      [discriminate|].
    apply Ok_inj in H. subst s'. split; [exact Hlo|]. exists mhi.
    split; [exact Hhi|].
    apply andb_false_iff in C. destruct C as [C|C].
    + left. apply Qleb_false. exact C.
    + right. apply Z.ltb_ge. exact C.
  - destruct (Qleb target (objective mhi) && (hi s <? 600000)%Z) eqn:C.
    + apply andb_true_iff in C. destruct C as [C1 C2]. apply Qleb_true in C1.
      destruct (sim (py_int (inject_Z (hi s) * (125 # 100)))) as [mh'|e] eqn:S;
        [|discriminate].
      cbn [bind] in H. apply (IH _ _ _ H).
      * split; [exact Hhi | exact C1].
      * exact S.
    + apply Ok_inj in H. subst s'. split; [exact Hlo|]. exists mhi.
      split; [exact Hhi|].
      apply andb_false_iff in C. destruct C as [C|C].
      * left. apply Qleb_false. exact C.
      * right. apply Z.ltb_ge. exact C.
Qed.

(** The bisection keeps [lo] evaluated and passing and keeps a ceiling
    above the bracket. *)
Lemma bisect_sound (iters : nat) :
  forall s s',
    bisect sim target objective iters s = Ok s' ->
    lo_passes sim target objective s -> ceiling sim target objective s ->
    lo_passes sim target objective s' /\ ceiling sim target objective s'.
Proof.
  induction iters as [|iters IH]; intros s s' H Hlo Hc; simpl in H.
  - apply Ok_inj in H. subst s'. split; assumption.
  - destruct (sim ((lo s + hi s) / 2)%Z) as [mm|e] eqn:S; [|discriminate].
    cbn [bind] in H.
    destruct (Qleb target (objective mm)) eqn:C.
    + apply Qleb_true in C. apply (IH _ _ H).
      * split; [exact S | exact C].
      * exact Hc.
    + apply Qleb_false in C. apply (IH _ _ H).
      * exact Hlo.
      * exists mm. right. cbn [hi].
        replace ((lo s + hi s) / 2 - 1 + 1)%Z with ((lo s + hi s) / 2)%Z by lia.
        split; assumption.
Qed.

(** With an evaluation that raises nothing, the expansion from a
    bracket end of at least 4 stops within [600000 - hi] iterations. *)
Lemma expand_returns (Hsim : forall e, exists m, sim e = Ok m) (fuel : nat) :
  forall s mhi,
    (4 <= hi s)%Z -> (600000 - hi s <= Z.of_nat fuel)%Z ->
    exists s', expand sim target objective fuel s mhi = Ok s'.
Proof.
  induction fuel as [|fuel IH]; intros s mhi H4 Hf; simpl.
  - destruct (Qleb target (objective mhi) && (hi s <? 600000)%Z) eqn:C;
      [|eexists; reflexivity].
    apply andb_true_iff in C. destruct C as [_ C]. apply Z.ltb_lt in C. lia.
  - destruct (Qleb target (objective mhi) && (hi s <? 600000)%Z) eqn:C;
      [|eexists; reflexivity].
    rewrite grow_bracket.
    destruct (Hsim (Z.quot (hi s * 125) 100)) as [mh' ->]. cbn [bind].
    pose proof (grow_bracket_up (hi s) H4).
    apply IH; cbn [hi]; lia.
Qed.

Lemma bisect_returns (Hsim : forall e, exists m, sim e = Ok m) (iters : nat) :
  forall s, exists s', bisect sim target objective iters s = Ok s'.
Proof.
  induction iters as [|iters IH]; intro s; simpl.
  - eexists. reflexivity.
  - destruct (Hsim ((lo s + hi s) / 2)%Z) as [mm ->]. cbn [bind].
    destruct (Qleb target (objective mm)); apply IH.
Qed.

(** An expansion that starts below 0 stays below 0. *)
Lemma expand_negative (fuel : nat) :
  forall s mhi s',
    expand sim target objective fuel s mhi = Ok s' -> (hi s < 0)%Z -> (hi s' < 0)%Z.
Proof.
  induction fuel as [|fuel IH]; intros s mhi s' H Hn; simpl in H.
  - destruct (_ && _); [discriminate|]. apply Ok_inj in H. subst s'. exact Hn.
  - destruct (_ && _).
    + rewrite grow_bracket in H.
      destruct (sim (Z.quot (hi s * 125) 100)) as [mh'|e]; [|discriminate].
      cbn [bind] in H. apply (IH _ _ _ H). cbn [hi].
      apply grow_bracket_neg. exact Hn.
    + apply Ok_inj in H. subst s'. exact Hn.
Qed.

(** An expansion that ends at the cap has kept every passing evaluation
    at or below [lo], the bracket end apart. *)
Lemma expand_evaluated (fuel : nat) :
  forall s mhi s',
    expand sim target objective fuel s mhi = Ok s' -> (600000 <= hi s')%Z ->
    (lo s <= hi s)%Z -> lo_passes sim target objective s -> sim (hi s) = Ok mhi ->
    passing_below target objective s (hi s) ->
    In (lo s, metrics_lo s) (evaluated s) -> In (hi s, mhi) (evaluated s) ->
    (lo s' <= hi s')%Z /\ lo_passes sim target objective s'
    /\ passing_below target objective s' (hi s')
    /\ In (lo s', metrics_lo s') (evaluated s')
    /\ exists mh, In (hi s', mh) (evaluated s') /\ sim (hi s') = Ok mh.
Proof.
  induction fuel as [|fuel IH]; intros s mhi s' H Hcap Hle Hlo Hhi Hpb Hinlo Hinhi;
    simpl in H.
  - destruct (_ && _); [discriminate|]. apply Ok_inj in H. subst s'.
    repeat split; try assumption; try apply Hlo. exists mhi. split; assumption.
  - destruct (Qleb target (objective mhi) && (hi s <? 600000)%Z) eqn:C.
    + apply andb_true_iff in C. destruct C as [C1 C2]. apply Qleb_true in C1.
      rewrite grow_bracket in H.
      destruct (sim (Z.quot (hi s * 125) 100)) as [mh'|e] eqn:S; [|discriminate].
      cbn [bind] in H.
      destruct (Z_lt_ge_dec (hi s) 0) as [Neg|Pos].
      * exfalso. pose proof (expand_negative _ _ _ _ H) as N. cbn [hi] in N.
        specialize (N (grow_bracket_neg _ Neg)). lia.
      * apply (IH _ _ _ H Hcap); cbn [lo hi metrics_lo evaluated].
        -- apply grow_bracket_nonneg. lia.
        -- split; [exact Hhi | exact C1].
        -- exact S.
        -- unfold passing_below. cbn [lo hi metrics_lo evaluated].
           intros e m Hin Hp. apply in_app_or in Hin. destruct Hin as [Hin|Hin].
           ++ left. destruct (Hpb e m Hin Hp); lia.
           ++ right. destruct Hin as [Hin|[]]. congruence.
        -- apply in_or_app. left. exact Hinhi.
        -- apply in_or_app. right. left. reflexivity.
    + apply Ok_inj in H. subst s'.
      repeat split; try assumption; try apply Hlo. exists mhi. split; assumption.
Qed.

(** The bisection below a bracket end [cap] keeps every passing
    evaluation at or below [lo], [cap] apart. *)
Lemma bisect_evaluated (cap : Z) (iters : nat) :
  forall s s',
    bisect sim target objective iters s = Ok s' ->
    (lo s <= hi s)%Z -> (hi s <= cap)%Z -> lo_passes sim target objective s ->
    passing_below target objective s cap ->
    In (lo s, metrics_lo s) (evaluated s) ->
    (lo s' <= hi s')%Z /\ (hi s' <= cap)%Z /\ lo_passes sim target objective s'
    /\ passing_below target objective s' cap
    /\ In (lo s', metrics_lo s') (evaluated s')
    /\ incl (evaluated s) (evaluated s').
Proof.
  induction iters as [|iters IH]; intros s s' H Hle Hcap Hlo Hpb Hin; simpl in H.
  - apply Ok_inj in H. subst s'.
    repeat split; try assumption; try apply Hlo. apply incl_refl.
  - destruct (sim ((lo s + hi s) / 2)%Z) as [mm|e] eqn:S; [|discriminate].
    cbn [bind] in H.
    assert (Hmid : (lo s <= (lo s + hi s) / 2 <= hi s)%Z).
    { split; [apply Z.div_le_lower_bound | apply Z.div_le_upper_bound]; lia. }
    destruct (Qleb target (objective mm)) eqn:C.
    + apply Qleb_true in C.
      destruct (IH _ _ H) as (A1 & A2 & A3 & A4 & A5 & A6);
        cbn [lo hi metrics_lo evaluated]; try lia.
      * split; [exact S | exact C].
      * unfold passing_below. cbn [lo hi metrics_lo evaluated].
        intros e m Hi Hp. apply in_app_or in Hi. destruct Hi as [Hi|Hi].
        -- destruct (Hpb e m Hi Hp); [left; lia | right; assumption].
        -- destruct Hi as [Hi|[]]. left. injection Hi as <- _. lia.
      * apply in_or_app. right. left. reflexivity.
      * repeat split; try assumption; try apply A3.
        intros x Hx. apply A6. apply in_or_app. left. exact Hx.
    + apply Qleb_false in C.
      assert (Hne : ((lo s + hi s) / 2 <> lo s)%Z).
      { intro Eq. rewrite Eq in S. destruct Hlo as [L1 L2].
        rewrite L1 in S. apply Ok_inj in S. subst mm. lra. }
      destruct (IH _ _ H) as (A1 & A2 & A3 & A4 & A5 & A6);
        cbn [lo hi metrics_lo evaluated]; try lia; try assumption.
      * unfold passing_below. cbn [lo hi metrics_lo evaluated].
        intros e m Hi Hp. apply in_app_or in Hi. destruct Hi as [Hi|Hi].
        -- apply (Hpb e m Hi Hp).
        -- destruct Hi as [Hi|[]]. injection Hi as _ <-. lra.
      * apply in_or_app. left. exact Hin.
      * repeat split; try assumption; try apply A3.
        intros x Hx. apply A6. apply in_or_app. left. exact Hx.
Qed.

(** A passing bracket end of 3 is its own successor, [int(3 * 1.25)]
    being 3: the expansion never leaves it. *)
Lemma search_stuck (e_lo iters : Z) (m0 m3 : Metrics) :
  sim e_lo = Ok m0 -> target <= objective m0 ->
  sim 3%Z = Ok m3 -> target <= objective m3 ->
  forall fuel, search sim target objective fuel e_lo 3 iters = Raise Diverges.
Proof.
  intros S0 P0 S3 P3 fuel. unfold search. rewrite S0. cbn [bind].
  rewrite (proj2 (Qltb_false _ _) P0). rewrite S3. cbn [bind].
  assert (L : forall s, hi s = 3%Z ->
              expand sim target objective fuel s m3 = Raise Diverges).
  { induction fuel as [|fuel IH]; intros s Hs; cbn [expand];
      rewrite (proj2 (Qleb_true _ _) P3), Hs;
      change (true && (3 <? 600000)%Z) with true; cbv iota; [reflexivity|].
    change (py_int (inject_Z 3 * (125 # 100))) with 3%Z.
    rewrite S3. cbn [bind]. apply IH. reflexivity. }
  rewrite L by reflexivity. reflexivity.
Qed.

End SearchFacts.
(** *** The bracket of the search *)

Section SearchBracket.

Import Optimizer.

Variable sim : Z -> outcome Metrics.
Variable target : Q.
Variable objective : Metrics -> Q.

Lemma grow_bracket_cap (h : Z) :
  (0 <= h < 600000)%Z -> (Z.quot (h * 125) 100 <= 749999)%Z.
Proof.
  intro H. rewrite Z.quot_div_nonneg by lia.
  assert (h * 125 / 100 < 750000)%Z by (apply Z.div_lt_upper_bound; lia). lia.
Qed.

(** The expansion only raises the bracket, and not past 749999 unless
    it started there. *)
Lemma expand_range (fuel : nat) :
  forall s mhi s',
    expand sim target objective fuel s mhi = Ok s' ->
    (lo s <= hi s)%Z -> (0 <= hi s)%Z ->
    (lo s <= lo s')%Z /\ (lo s' <= hi s')%Z
    /\ (hi s' <= Z.max (hi s) 749999)%Z.
Proof.
  induction fuel as [|fuel IH]; intros s mhi s' H Hb H0; simpl in H.
  - destruct (Qleb target (objective mhi) && (hi s <? 600000)%Z); [discriminate|].
    apply Ok_inj in H. subst s'. lia.
  - destruct (Qleb target (objective mhi) && (hi s <? 600000)%Z) eqn:C.
    + apply andb_true_iff in C. destruct C as [_ C]. apply Z.ltb_lt in C.
      destruct (sim (py_int (inject_Z (hi s) * (125 # 100)))) as [mh'|e];
        [|discriminate].
      cbn [bind] in H. apply IH in H; cbn [lo hi] in *.
      * rewrite grow_bracket in H.
        pose proof (grow_bracket_cap (hi s) ltac:(lia)). lia.
      * rewrite grow_bracket. apply grow_bracket_nonneg, H0.
      * rewrite grow_bracket. pose proof (grow_bracket_nonneg (hi s) H0). lia.
    + apply Ok_inj in H. subst s'. lia.
Qed.

(** The bisection keeps the bracket in order, never lowers [lo] and
    never raises [hi]. *)
Lemma bisect_range (iters : nat) :
  forall s s',
    bisect sim target objective iters s = Ok s' ->
    (lo s <= hi s)%Z -> lo_passes sim target objective s ->
    (lo s <= lo s')%Z /\ (lo s' <= hi s')%Z /\ (hi s' <= hi s)%Z.
Proof.
  induction iters as [|iters IH]; intros s s' H Hb Hlo; simpl in H.
  - apply Ok_inj in H. subst s'. lia.
  - destruct (sim ((lo s + hi s) / 2)%Z) as [mm|e] eqn:S; [|discriminate].
    cbn [bind] in H.
    assert (Hmid : (lo s <= (lo s + hi s) / 2 <= hi s)%Z).
    { split; [apply Z.div_le_lower_bound; lia | apply Z.div_le_upper_bound; lia]. }
    destruct (Qleb target (objective mm)) eqn:B.
    + apply Qleb_true in B. apply IH in H; cbn [lo hi metrics_lo] in *.
      * lia.
      * lia.
      * split; [exact S | exact B].
    + apply Qleb_false in B.
      assert (Hne : ((lo s + hi s) / 2 <> lo s)%Z).
      { intro E. rewrite E in S. destruct Hlo as [Hs Hp].
        rewrite Hs in S. apply Ok_inj in S. subst mm. lra. }
      apply IH in H; cbn [lo hi metrics_lo] in *.
      * lia.
      * lia.
      * exact Hlo.
Qed.

(** Each step of the bisection at least halves the gap above
    [lo + 1]: after [iters] steps, [hi - lo - 1] has been divided by
    [2 ^ iters]. *)
Lemma bisect_width (iters : nat) :
  forall s s',
    bisect sim target objective iters s = Ok s' ->
    ((hi s' - lo s' - 1) * 2 ^ Z.of_nat iters <= hi s - lo s - 1)%Z.
Proof.
  induction iters as [|iters IH]; intros s s' H.
  - simpl in H. apply Ok_inj in H. subst s'. simpl. lia.
  - cbn [bisect] in H.
    destruct (sim ((lo s + hi s) / 2)%Z) as [mm|e]; [|discriminate].
    cbn [bind] in H.
    pose proof (Z.div_mod (lo s + hi s) 2 ltac:(lia)) as D.
    pose proof (Z.mod_pos_bound (lo s + hi s) 2 ltac:(lia)) as M.
    rewrite Nat2Z.inj_succ, Z.pow_succ_r by lia.
    set (P := (2 ^ Z.of_nat iters)%Z) in *.
    destruct (Qleb target (objective mm)); apply IH in H; cbn [lo hi] in H;
      fold P in H;
      replace ((hi s' - lo s' - 1) * (2 * P))%Z
        with (2 * ((hi s' - lo s' - 1) * P))%Z by ring;
      lia.
Qed.

End SearchBracket.


(** *** Calls of the kernel that return *)

Section KernelReturns.

Variable a : Args.

Lemma column_length (n t : nat) :
  broadcastable a = true -> (0 <= n_sims a)%Z -> n = Z.to_nat (n_sims a) ->
  List.length (column a n t) = n.
Proof.
  unfold broadcastable, column. cbv zeta. intros B Hs ->.
  destruct (rows (returns a)) as [|row [|row' rest]] eqn:R;
    cbn [List.length] in *.
  - apply orb_true_iff in B. destruct B as [B|B]; apply Z.eqb_eq in B;
      [rewrite <- B; reflexivity | discriminate].
  - apply repeat_length.
  - rewrite length_map. cbn [List.length].
    apply orb_true_iff in B. destruct B as [B|B]; apply Z.eqb_eq in B; lia.
Qed.

Lemma run_years_length (pay : Q) (w : list Q) (k : nat) (lanes : list Lane) :
  broadcastable a = true -> (0 <= n_sims a)%Z ->
  run_years a pay w k = Ok lanes ->
  List.length lanes = Z.to_nat (n_sims a).
Proof.
  intros B Hs. revert lanes. induction k as [|k IH]; intros lanes H; simpl in H.
  - apply Ok_inj in H. subst lanes. apply repeat_length.
  - destruct (run_years a pay w k) as [prev|e]; [|discriminate].
    cbn [bind] in H. specialize (IH prev eq_refl).
    unfold year_step in H.
    destruct (next_loan_bal a pay k); [|discriminate].
    cbn [bind] in H. apply Ok_inj in H. subst lanes.
    rewrite length_map, length_combine, (column_length _ _ B Hs IH), IH.
    apply Nat.min_id.
Qed.

(** The metrics of a non-empty run over a non-empty horizon. *)
Lemma metrics_of_defined (lanes : list Lane) :
  lanes <> [] -> (0 < n_years a)%nat -> exists m, metrics_of a lanes = Ok m.
Proof.
  intros Hl Hy. unfold metrics_of.
  rewrite death_weighted_success_value.
  - cbv zeta. cbn [bind]. rewrite mean_bool_share by exact Hl.
    cbn [bind]. eexists. reflexivity.
  - destruct lanes; [congruence | discriminate].
  - destruct (n_years a); [lia | discriminate].
Qed.

(** Without a loan, on a positive horizon and number of paths and with
    returns that broadcast, [simulate_once] returns its metrics. *)
Lemma simulate_once_defined :
  loan_amount a = 0%Z -> (0 < n_years a)%nat -> (0 < n_sims a)%Z ->
  broadcastable a = true -> exists m, simulate_once a = Ok m.
Proof.
  intros H0 Hy Hs Hb.
  assert (L : has_loan a = false) by (unfold has_loan; rewrite H0; reflexivity).
  assert (T : forall k, exists lanes, lanes_after a k = Ok lanes).
  { intro k. unfold lanes_after.
    destruct (n_years a) as [|m] eqn:N; [lia|].
    unfold the_pay, Loan.amort_payment. rewrite H0.
    change (Qleb (inject_Z 0) 0) with true. cbn [bind].
    unfold the_w, build_withdrawals. rewrite N.
    destruct (income_applies_to_actual_spend a); cbn [bind];
      (destruct (n_sims a <? 0)%Z eqn:S1; [apply Z.ltb_lt in S1; lia|]);
      (destruct (n_sims a =? 0)%Z eqn:S2; [apply Z.eqb_eq in S2; lia|]);
      rewrite Hb; cbn [negb]; apply (run_years_defined a L). }
  destruct (T (n_years a)) as [lanes Hl].
  unfold simulate_once. rewrite Hl. cbn [bind].
  apply metrics_of_defined; [|exact Hy].
  destruct (lanes_after_run a _ _ Hl) as (pay & w & _ & _ & Hrun).
  pose proof (run_years_length pay w _ lanes Hb ltac:(lia) Hrun) as Hlen.
  destruct lanes; [simpl in Hlen; lia | discriminate].
Qed.

End KernelReturns.

(** *** The search over the kernel *)

Section FindMaxE.

Import Optimizer.

Lemma evaluated_by_expand (sim : Z -> outcome Metrics) (target : Q)
      (objective : Metrics -> Q) (fuel : nat) :
  forall s mhi s',
    expand sim target objective fuel s mhi = Ok s' ->
    (forall e m, In (e, m) (evaluated s) -> sim e = Ok m) ->
    forall e m, In (e, m) (evaluated s') -> sim e = Ok m.
Proof.
  induction fuel as [|fuel IH]; intros s mhi s' H Hs; simpl in H.
  - destruct (_ && _); [discriminate|]. apply Ok_inj in H. subst s'. exact Hs.
  - destruct (_ && _); [|apply Ok_inj in H; subst s'; exact Hs].
    destruct (sim (py_int (inject_Z (hi s) * (125 # 100)))) as [mh'|e] eqn:S;
      [|discriminate].
    cbn [bind] in H. apply (IH _ _ _ H). cbn [evaluated].
    intros e m Hin. apply in_app_or in Hin. destruct Hin as [Hin|[Hin|[]]].
    + apply Hs. exact Hin.
    + injection Hin as <- <-. exact S.
Qed.

Lemma evaluated_by_bisect (sim : Z -> outcome Metrics) (target : Q)
      (objective : Metrics -> Q) (iters : nat) :
  forall s s',
    bisect sim target objective iters s = Ok s' ->
    (forall e m, In (e, m) (evaluated s) -> sim e = Ok m) ->
    forall e m, In (e, m) (evaluated s') -> sim e = Ok m.
Proof.
  induction iters as [|iters IH]; intros s s' H Hs; simpl in H.
  - apply Ok_inj in H. subst s'. exact Hs.
  - destruct (sim ((lo s + hi s) / 2)%Z) as [mm|e] eqn:S; [|discriminate].
    cbn [bind] in H.
    destruct (Qleb target (objective mm)); apply (IH _ _ H); cbn [evaluated];
      intros e m Hin; apply in_app_or in Hin; destruct Hin as [Hin|[Hin|[]]];
      try (apply Hs; exact Hin); injection Hin as <- <-; exact S.
Qed.

(** C4, as amended.  When the objective at [e_lo] misses the target,
    [find_max_E] returns [e_lo] with the metrics at [e_lo].  When it
    meets the target and the call returns [(E, metrics)], the metrics
    are those of the kernel at [E] and meet the target, and above the
    final bracket either the final [hi] or [hi + 1] was evaluated and
    missed the target or the final [hi] is at the cap of 600000.  The
    call returns whenever the kernel raises nothing and [e_hi >= 4].
    When moreover [e_lo <= e_hi] and [e_hi >= 0], [E] lies in the
    bracket left by the expansion, below the final [hi], and the
    bisection has divided the gap [hi - lo - 1] by [2 ^ iters]; so
    when the budget covers the bracket, the final [hi] is at most
    [E + 1], and a level among [E + 1] and [E + 2] was evaluated and
    missed the target unless the final [hi] is at the cap. *)
Theorem find_max_E_sound :
  forall (fuel : nat) (rets : Returns) (target : Q) (e_lo e_hi iters : Z)
         (metric : string) (both_weight : Q) (kw : Args),
    let sim := invoke kw rets in
    let obj := objective_p metric both_weight in
    let result := find_max_E fuel rets target e_lo e_hi iters metric both_weight kw in
    (forall m0, sim e_lo = Ok m0 -> obj m0 < target -> result = Ok (e_lo, m0))
    /\ (forall m0 E m,
          sim e_lo = Ok m0 -> target <= obj m0 -> result = Ok (E, m) ->
          sim E = Ok m /\ target <= obj m
          /\ exists s,
               find_max_E_state fuel rets target e_lo e_hi iters metric
                                both_weight kw = Ok (false, s)
               /\ E = lo s /\ ceiling sim target obj s)
    /\ ((forall e, exists m, sim e = Ok m) -> (4 <= e_hi)%Z ->
        (600000 <= Z.of_nat fuel)%Z -> exists E m, result = Ok (E, m))
    /\ (forall m0 E m,
          sim e_lo = Ok m0 -> target <= obj m0 ->
          (e_lo <= e_hi)%Z -> (0 <= e_hi)%Z -> result = Ok (E, m) ->
          exists mhi s1 s,
            sim e_hi = Ok mhi
            /\ expand sim target obj fuel
                      (mkSearch e_lo m0 e_hi [(e_lo, m0); (e_hi, mhi)]) mhi = Ok s1
            /\ bisect sim target obj (Z.to_nat iters) s1 = Ok s
            /\ E = lo s
            /\ (e_lo <= lo s1 <= hi s1)%Z /\ (hi s1 <= Z.max e_hi 749999)%Z
            /\ (lo s1 <= E <= hi s)%Z /\ (hi s <= hi s1)%Z
            /\ ((hi s - E - 1) * 2 ^ Z.max 0 iters <= hi s1 - lo s1 - 1)%Z
            /\ ((hi s1 - lo s1 <= 2 ^ Z.max 0 iters)%Z ->
                (hi s <= E + 1)%Z
                /\ ((600000 <= hi s)%Z
                    \/ exists e mh,
                         (E < e <= E + 2)%Z /\ sim e = Ok mh /\ obj mh < target))).
Proof.
  intros fuel rets target e_lo e_hi iters metric bw kw sim obj result.
  subst result. unfold find_max_E, find_max_E_state, search. fold sim obj.
  split; [|split; [|split]].
  - intros m0 H0 Hmiss. rewrite H0. cbn [bind].
    rewrite (proj2 (Qltb_true _ _) Hmiss). reflexivity.
  - intros m0 E m H0 Hmeet. rewrite H0. cbn [bind].
    rewrite (proj2 (Qltb_false _ _) Hmeet).
    destruct (sim e_hi) as [mhi|] eqn:Hhi; [|discriminate]. cbn [bind].
    destruct (expand sim target obj fuel _ mhi) as [s1|] eqn:X; [|discriminate].
    cbn [bind].
    destruct (bisect sim target obj (Z.to_nat iters) s1) as [s2|] eqn:B;
      [|discriminate].
    cbn [bind fst snd]. intro R. apply Ok_inj in R.
    injection R as <- <-.
    destruct (expand_sound sim target obj fuel _ _ _ X) as [L1 [mh [C1 C2]]];
      [split; [exact H0 | exact Hmeet] | exact Hhi |].
    destruct (bisect_sound sim target obj _ _ _ B L1) as [L2 C3];
      [exists mh; left; split; assumption|].
    destruct L2 as [L2 L3].
    split; [exact L2|]. split; [exact L3|].
    exists s2. split; [reflexivity|]. split; [reflexivity | exact C3].
  - intros Hsim H4 Hfuel.
    destruct (Hsim e_lo) as [m0 ->]. cbn [bind].
    destruct (Qltb (obj m0) target); [eexists; eexists; reflexivity|].
    destruct (Hsim e_hi) as [mhi ->]. cbn [bind].
    destruct (expand_returns sim target obj Hsim fuel
                (mkSearch e_lo m0 e_hi [(e_lo, m0); (e_hi, mhi)]) mhi) as [s1 ->];
      cbn [hi]; [exact H4 | lia |].
    cbn [bind].
    destruct (bisect_returns sim target obj Hsim (Z.to_nat iters) s1) as [s2 ->].
    cbn [bind]. eexists. eexists. reflexivity.
  - intros m0 E m H0 Hmeet Hb Hnn. rewrite H0. cbn [bind].
    rewrite (proj2 (Qltb_false _ _) Hmeet).
    destruct (sim e_hi) as [mhi|] eqn:Hhi; [|discriminate]. cbn [bind].
    destruct (expand sim target obj fuel _ mhi) as [s1|] eqn:X; [|discriminate].
    cbn [bind].
    destruct (bisect sim target obj (Z.to_nat iters) s1) as [s2|] eqn:B;
      [|discriminate].
    cbn [bind fst snd]. intro R. apply Ok_inj in R.
    injection R as <- _.
    exists mhi, s1, s2.
    destruct (expand_sound sim target obj fuel _ _ _ X) as [L1 [mh [C1 C2]]];
      [split; [exact H0 | exact Hmeet] | exact Hhi |].
    destruct (bisect_sound sim target obj _ _ _ B L1) as [L2 C3];
      [exists mh; left; split; assumption|].
    pose proof (expand_range sim target obj fuel _ _ _ X) as R1.
    cbn [lo hi] in R1. specialize (R1 Hb Hnn). destruct R1 as (R1 & R2 & R3).
    destruct (bisect_range sim target obj _ _ _ B R2 L1) as (R4 & R5 & R6).
    pose proof (bisect_width sim target obj _ _ _ B) as W.
    assert (En : Z.of_nat (Z.to_nat iters) = Z.max 0 iters) by lia.
    rewrite En in W.
    split; [reflexivity|]. split; [exact X|]. split; [exact B|].
    split; [reflexivity|]. split; [lia|]. split; [exact R3|].
    split; [lia|]. split; [exact R6|]. split; [exact W|].
    intro Hbudget.
    assert (Hpow : (0 < 2 ^ Z.max 0 iters)%Z) by (apply Z.pow_pos_nonneg; lia).
    assert (Hw : (hi s2 <= lo s2 + 1)%Z) by nia.
    split; [exact Hw|].
    destruct C3 as [mc [[Sc [Fc|Cap]]|[Sc Fc]]].
    + right. exists (hi s2), mc.
      assert (hi s2 <> lo s2).
      { intro Eq. destruct L2 as [Sl Pl]. rewrite Eq, Sl in Sc.
        apply Ok_inj in Sc. subst mc. lra. }
      split; [lia|]. split; [exact Sc | exact Fc].
    + left. exact Cap.
    + right. exists (hi s2 + 1)%Z, mc.
      split; [lia|]. split; [exact Sc | exact Fc].
Qed.

(** C5, as amended.  When [e_lo <= e_hi] and the expansion stops at a
    bracket end [cap] whose objective still meets the target, the
    returned [E] was evaluated and met the target, [cap] was evaluated
    too, [E <= cap], and every evaluated level that met the target is
    at most [E] or is [cap] itself. *)
Theorem capped_search_result :
  forall (fuel : nat) (rets : Returns) (target : Q) (e_lo e_hi iters : Z)
         (metric : string) (both_weight : Q) (kw : Args),
    let sim := invoke kw rets in
    let obj := objective_p metric both_weight in
    forall (m0 mhi mcap : Metrics) (s_cap s : Search),
      (e_lo <= e_hi)%Z ->
      sim e_lo = Ok m0 -> target <= obj m0 -> sim e_hi = Ok mhi ->
      expand sim target obj fuel
             (mkSearch e_lo m0 e_hi [(e_lo, m0); (e_hi, mhi)]) mhi = Ok s_cap ->
      sim (hi s_cap) = Ok mcap -> target <= obj mcap ->
      bisect sim target obj (Z.to_nat iters) s_cap = Ok s ->
      find_max_E fuel rets target e_lo e_hi iters metric both_weight kw
      = Ok (lo s, metrics_lo s)
      /\ (600000 <= hi s_cap)%Z
      /\ In (lo s, metrics_lo s) (evaluated s)
      /\ target <= obj (metrics_lo s)
      /\ In (hi s_cap, mcap) (evaluated s)
      /\ (lo s <= hi s_cap)%Z
      /\ (forall e m, In (e, m) (evaluated s) -> sim e = Ok m)
      /\ (forall e m, In (e, m) (evaluated s) -> target <= obj m ->
                      (e <= lo s)%Z \/ e = hi s_cap).
Proof.
  intros fuel rets target e_lo e_hi iters metric bw kw sim obj
         m0 mhi mcap s_cap s Hle H0 Hmeet Hhi X Hcap Hpass B.
  set (s0 := mkSearch e_lo m0 e_hi [(e_lo, m0); (e_hi, mhi)]) in *.
  assert (L0 : lo_passes sim target obj s0) by (split; assumption).
  assert (Hat : (600000 <= hi s_cap)%Z).
  { destruct (expand_sound sim target obj fuel _ _ _ X L0 Hhi) as [_ [mh [C1 C2]]].
    rewrite Hcap in C1. apply Ok_inj in C1. subst mh.
    destruct C2 as [C2|C2]; [lra | exact C2]. }
  assert (E0 : forall e m, In (e, m) (evaluated s0) -> sim e = Ok m).
  { intros e m [Hin|[Hin|[]]]; injection Hin as <- <-; assumption. }
  destruct (expand_evaluated sim target obj fuel _ _ _ X Hat)
    as (A1 & A2 & A3 & A4 & mh & A5 & A6); subst s0; cbn [lo hi metrics_lo evaluated];
    try assumption.
  - unfold passing_below. cbn [lo hi evaluated].
    intros e m [Hin|[Hin|[]]] _; injection Hin as <- _;
      [left; lia | right; reflexivity].
  - left. reflexivity.
  - right. left. reflexivity.
  - rewrite Hcap in A6. apply Ok_inj in A6. subst mh.
    destruct (bisect_evaluated sim target obj (hi s_cap) _ _ _ B A1 ltac:(lia) A2 A3 A4)
      as (B1 & B2 & B3 & B4 & B5 & B6).
    split.
    { unfold find_max_E, find_max_E_state, search. fold sim obj.
      rewrite H0. cbn [bind]. rewrite (proj2 (Qltb_false _ _) Hmeet).
      rewrite Hhi. cbn [bind]. rewrite X. cbn [bind]. rewrite B.
      reflexivity. }
    split; [exact Hat|]. split; [exact B5|]. split; [apply B3|].
    split; [apply B6; exact A5|]. split; [lia|].
    split; [|exact B4].
    apply (evaluated_by_bisect sim target obj _ _ _ B).
    apply (evaluated_by_expand sim target obj _ _ _ _ X). exact E0.
Qed.

End FindMaxE.

(** *** The search on the scenarios *)

Section SearchOnScenarios.

Import Optimizer Scenarios.

(** C4 as stated fails: on [two_years], where exactly the levels up to
    102 meet the target, one bisection step from the bracket
    [100, 106] returns 100 with the final [hi] at 102, although a fresh
    evaluation at 101 meets the target. *)
Lemma short_budget_leaves_gap :
  exists s m101,
    optimize 100 (two_years 0) 100 106 1 = Ok (false, s)
    /\ find_max_E 100 (returns (two_years 0)) (1 # 2) 100 106 1
                  "death_weighted" (1 # 2) (two_years 0)
       = Ok (100%Z, metrics_lo s)
    /\ lo s = 100%Z /\ hi s = 102%Z
    /\ invoke (two_years 0) (returns (two_years 0)) 101 = Ok m101
    /\ (1 # 2) <= objective_p "death_weighted" (1 # 2) m101.
Proof.
  eexists. eexists. split; [vm_compute; reflexivity|].
  split; [vm_compute; reflexivity|].
  split; [reflexivity|]. split; [reflexivity|].
  split; [vm_compute; reflexivity|]. vm_compute. discriminate.
Qed.

(** With the default budget of 19 steps the same search stops at 101:
    the bracket [101, 102] has midpoint 101 and is never narrowed,
    although 102 meets the target. *)
Example bisection_stalls_below_passing_level :
  exists s m102,
    optimize 100 (two_years 0) 100 106 19 = Ok (false, s)
    /\ lo s = 101%Z /\ hi s = 102%Z
    /\ invoke (two_years 0) (returns (two_years 0)) 102 = Ok m102
    /\ (1 # 2) <= objective_p "death_weighted" (1 # 2) m102.
Proof.
  eexists. eexists. split; [vm_compute; reflexivity|].
  split; [reflexivity|]. split; [reflexivity|].
  split; [vm_compute; reflexivity|]. vm_compute. discriminate.
Qed.

(** Every spending level of [two_years] and of [carefree] is evaluated
    without an exception. *)
Lemma two_years_defined (e : Z) :
  exists m, invoke (two_years 0) (returns (two_years 0)) e = Ok m.
Proof.
  unfold invoke. apply simulate_once_defined;
    [reflexivity | cbn; lia | reflexivity | reflexivity].
Defined.

(** The amended C4 on [two_years]: the degenerate bracket [103, 106],
    the search from [100, 106], the return of every call with enough
    fuel, and the final bracket [101, 102] under the level 103 that
    missed the target. *)
Lemma find_max_E_sound_witness :
  (exists m0,
     find_max_E 100 (returns (two_years 0)) (1 # 2) 103 106 19
                "death_weighted" (1 # 2) (two_years 0) = Ok (103%Z, m0))
  /\ (exists m s,
        invoke (two_years 0) (returns (two_years 0)) 101 = Ok m
        /\ (1 # 2) <= objective_p "death_weighted" (1 # 2) m
        /\ optimize 100 (two_years 0) 100 106 19 = Ok (false, s)
        /\ 101%Z = lo s
        /\ ceiling (invoke (two_years 0) (returns (two_years 0))) (1 # 2)
                   (objective_p "death_weighted" (1 # 2)) s)
  /\ (exists E m,
        find_max_E (Z.to_nat 600000) (returns (two_years 0)) (1 # 2) 100 106 19
                   "death_weighted" (1 # 2) (two_years 0) = Ok (E, m))
  /\ (exists s1 s,
        bisect (invoke (two_years 0) (returns (two_years 0))) (1 # 2)
               (objective_p "death_weighted" (1 # 2)) (Z.to_nat 19) s1 = Ok s
        /\ lo s1 = 100%Z /\ hi s1 = 106%Z /\ 101%Z = lo s
        /\ (hi s <= 101 + 1)%Z
        /\ ((600000 <= hi s)%Z
            \/ exists e mh,
                 (101 < e <= 101 + 2)%Z
                 /\ invoke (two_years 0) (returns (two_years 0)) e = Ok mh
                 /\ objective_p "death_weighted" (1 # 2) mh < 1 # 2)).
Proof.
  split; [|split; [|split]].
  - destruct (find_max_E_sound 100 (returns (two_years 0)) (1 # 2) 103 106 19
                "death_weighted" (1 # 2) (two_years 0)) as [A _].
    eexists. apply A; [vm_compute; reflexivity | vm_compute; reflexivity].
  - destruct (find_max_E_sound 100 (returns (two_years 0)) (1 # 2) 100 106 19
                "death_weighted" (1 # 2) (two_years 0)) as [_ [B _]].
    edestruct B as (B1 & B2 & s & B3 & B4 & B5);
      [vm_compute; reflexivity | vm_compute; discriminate
       | vm_compute; reflexivity |].
    eexists. exists s. split; [exact B1|]. split; [exact B2|].
    split; [exact B3|]. split; [exact B4 | exact B5].
  - destruct (find_max_E_sound (Z.to_nat 600000) (returns (two_years 0)) (1 # 2)
                100 106 19 "death_weighted" (1 # 2) (two_years 0)) as [_ [_ [C _]]].
    apply C; [apply two_years_defined | lia | rewrite Z2Nat.id; lia].
  - destruct (find_max_E_sound 100 (returns (two_years 0)) (1 # 2) 100 106 19
                "death_weighted" (1 # 2) (two_years 0)) as [_ [_ [_ D]]].
    edestruct D with (E := 101%Z) as (mhi & s1 & s & D1 & D2 & D3 & D4 & _ & _ & _ & _ & _ & D10);
      [vm_compute; reflexivity | vm_compute; discriminate | lia | lia
       | vm_compute; reflexivity |].
    assert (H12 : lo s1 = 100%Z /\ hi s1 = 106%Z).
    { vm_compute in D1. apply Ok_inj in D1. subst mhi.
      vm_compute in D2. apply Ok_inj in D2. subst s1. split; reflexivity. }
    destruct H12 as [H1 H2].
    exists s1, s. split; [exact D3|]. split; [exact H1|]. split; [exact H2|].
    split; [exact D4|]. apply D10. rewrite H1, H2. vm_compute. discriminate.
Defined.

(** C5 as stated fails: on [carefree] every level meets the target;
    from the bracket [40000, 500000] the expansion stops at 625000,
    which it evaluated, and the search returns 624999. *)
Lemma capped_search_skips_bracket_end :
  exists s mcap,
    optimize 100 (carefree 0) 40000 500000 19 = Ok (false, s)
    /\ lo s = 624999%Z /\ hi s = 625000%Z
    /\ In (625000%Z, mcap) (evaluated s)
    /\ (1 # 2) <= objective_p "death_weighted" (1 # 2) mcap.
Proof.
  eexists. eexists. split; [vm_compute; reflexivity|].
  split; [reflexivity|]. split; [reflexivity|].
  split; [right; right; left; reflexivity|]. vm_compute. discriminate.
Qed.

(** The amended C5 on the same search. *)
Lemma capped_search_result_witness :
  exists s,
    find_max_E 100 (returns (carefree 0)) (1 # 2) 40000 500000 19
               "death_weighted" (1 # 2) (carefree 0)
    = Ok (lo s, metrics_lo s)
    /\ lo s = 624999%Z
    /\ (forall e m, In (e, m) (evaluated s) ->
          (1 # 2) <= objective_p "death_weighted" (1 # 2) m ->
          (e <= lo s)%Z \/ e = 625000%Z).
Proof.
  edestruct (capped_search_result 100 (returns (carefree 0)) (1 # 2)
               40000 500000 19 "death_weighted" (1 # 2) (carefree 0))
    as (R1 & R2 & R3 & R4 & R5 & R6 & R7 & R8);
    [ lia
    | vm_compute; reflexivity | vm_compute; discriminate
    | vm_compute; reflexivity | vm_compute; reflexivity
    | vm_compute; reflexivity | vm_compute; discriminate
    | vm_compute; reflexivity | ].
  eexists. split; [exact R1|]. split; [reflexivity | exact R8].
Defined.

(** The expansion of the source never stops from a passing bracket end
    of 3, where [int(3 * 1.25)] is 3 again. *)
Example expansion_never_stops :
  forall fuel : nat, optimize fuel (carefree 0) 0 3 19 = Raise Diverges.
Proof.
  intro fuel. unfold optimize, find_max_E_state.
  eapply search_stuck;
    [vm_compute; reflexivity | vm_compute; discriminate
     | vm_compute; reflexivity | vm_compute; discriminate].
Qed.

End SearchOnScenarios.

(** ** The request boundary (models/schemas.py, main.py) *)

Section Boundary.

Import Optimizer Api Scenarios.

Variable normal : Z -> nat -> nat -> Q -> Q -> list (list Q).





End Boundary.

Section BoundaryOnScenarios.

Import Optimizer Api Scenarios.


(** A start age of 100 is not rejected before the kernel either: the
    kernel is called on an empty horizon and raises from inside. *)
Example empty_horizon_reaches_kernel :
  (exists call, first_kernel_call flat_draws (config 2 100 (15 # 100)) = Ok (Some call))
  /\ _run_simulation flat_draws 100 (config 2 100 (15 # 100)) = Raise IndexError.
Proof.
  split; [eexists|]; vm_compute; reflexivity.
Qed.


End BoundaryOnScenarios.
(** ** Further properties of the kernel *)

(** *** Auxiliary facts *)

Section StepLemmas.

(** A withdrawal from a non-negative balance empties the account
    before it leaves a remainder; a balance that is not positive gives
    nothing. *)
Lemma take_from_drains (arr amount : Q) :
  0 <= amount ->
  0 <= snd (take_from arr amount) <= amount
  /\ (0 <= arr ->
      snd (take_from arr amount) == 0
      \/ (fst (take_from arr amount) == 0
          /\ snd (take_from arr amount) == amount - arr))
  /\ (arr <= 0 -> snd (take_from arr amount) == amount).
Proof.
  intro Ha. unfold take_from. cbn [fst snd].
  destruct (fmax_cases arr 0) as [[H1 ->]|[H1 ->]];
    [destruct (fmin_cases amount 0) as [[H2 ->]|[H2 ->]]
    |destruct (fmin_cases amount arr) as [[H2 ->]|[H2 ->]]];
    (split; [lra|]);
    (split; [intro; first [left; lra | right; split; lra] | intro; lra]).
Qed.

End StepLemmas.

Section FundingLemmas.

Variable a : Args.

(** The funding order with the remainder it leaves. *)
Lemma funding_fields (drawdown spend : Q) (l : Lane) :
  exists cash1 rem1 base1 rem2 take_loan take_rm risky1 rem5 take_rm2 bucket2,
    take_from (cash l) spend = (cash1, rem1)
    /\ take_from (base_treas l) rem1 = (base1, rem2)
    /\ take_loan =
       (if Qleb (loan_bucket_use_dd a) drawdown && negb (failed l)
           && Qltb 0 (loan_bucket l)
        then fmin (rem2 * loan_bucket_partial_cover a) (loan_bucket l) else 0)
    /\ take_rm =
       (if Qleb (dd2 a) drawdown && negb (failed l)
        then fmin ((rem2 - take_loan) * rm_partial_cover a)
                  (fmax 0 (rm_limit l - rm_bal l))
        else 0)
    /\ take_from (risky l) (rem2 - take_loan - take_rm) = (risky1, rem5)
    /\ take_rm2 = fmin rem5 (fmax 0 (rm_limit l - (rm_bal l + take_rm)))
    /\ bucket2 =
       (if Qleb (loan_bucket_use_dd a) drawdown && negb (failed l)
           && Qltb eps (rem5 - take_rm2)
        then loan_bucket l - take_loan
             - fmin (rem5 - take_rm2) (loan_bucket l - take_loan)
        else loan_bucket l - take_loan)
    /\ fund a drawdown spend l
       = mkLane cash1 base1 risky1 bucket2 (loan_bal l)
                (hwm l) (max_dd_risky l) (hwm_total l) (max_dd_total l)
                (rm_limit l) (rm_bal l + take_rm + take_rm2)
                (rm_ever_used l) (failed l) (fail_idx l)
    /\ unfunded a drawdown spend l
       = (if Qleb (loan_bucket_use_dd a) drawdown && negb (failed l)
             && Qltb eps (rem5 - take_rm2)
          then rem5 - take_rm2 - fmin (rem5 - take_rm2) (loan_bucket l - take_loan)
          else rem5 - take_rm2).
Proof.
  unfold fund, unfunded.
  destruct (take_from (cash l) spend) as [cash1 rem1] eqn:T1.
  destruct (take_from (base_treas l) rem1) as [base1 rem2] eqn:T2.
  cbv zeta.
  destruct (take_from (risky l) _) as [risky1 rem5] eqn:T3.
  exists cash1, rem1, base1, rem2. do 2 eexists. exists risky1, rem5.
  do 2 eexists.
  split; [reflexivity|]. split; [exact T2|].
  split; [reflexivity|]. split; [reflexivity|].
  split; [exact T3|].
  split; [reflexivity|]. split; [reflexivity|]. split; reflexivity.
Qed.

(** On a path that has not failed, with balances in range, the
    unfunded part of a non-negative spending is not negative, and when
    it exceeds [1e-9] every source counted in [max_feasible] has been
    used up. *)
Lemma unfunded_cases (dd sp : Q) (l : Lane) :
  in_range a -> balances_ok l -> failed l = false -> 0 <= sp ->
  0 <= unfunded a dd sp l
  /\ (eps < unfunded a dd sp l ->
      unfunded a dd sp l == sp - max_feasible a dd l).
Proof.
  intros R (H1 & H2 & H3 & H4 & H5 & H6) F Hsp.
  destruct (funding_fields dd sp l)
    as (c1 & r1 & b1 & r2 & tl & tr & k1 & r5 & tr2 & u2
        & T1 & T2 & Etl & Etr & T3 & Etr2 & Eu2 & _ & ->).
  clear Eu2 u2.
  destruct R as [_ _ _ _ _ _ _ _ [Rc0 Rc1] Rb1 _ _ _ _].
  rewrite F in *. cbn [negb] in *. rewrite !andb_true_r in *.
  (* cash and Treasuries *)
  pose proof (take_from_drains (cash l) sp Hsp) as A1.
  rewrite T1 in A1. cbn [fst snd] in A1.
  destruct A1 as (A1r & A1p & _). specialize (A1p H1).
  assert (Hr1 : 0 <= r1) by tauto.
  pose proof (take_from_drains (base_treas l) r1 Hr1) as A2.
  rewrite T2 in A2. cbn [fst snd] in A2.
  destruct A2 as (A2r & A2p & _). specialize (A2p H2).
  assert (Hr2 : 0 <= r2) by tauto.
  (* first draw on the loan bucket *)
  assert (Htl : tl <= loan_bucket l /\ tl <= r2 /\ (r2 == 0 -> tl == 0)
                /\ (Qleb (loan_bucket_use_dd a) dd = false -> tl == 0)).
  { subst tl. destruct (Qleb (loan_bucket_use_dd a) dd); cbn [andb].
    - destruct (Qltb 0 (loan_bucket l)).
      + pose proof (fmin_ub_l (r2 * loan_bucket_partial_cover a) (loan_bucket l)).
        pose proof (fmin_ub_r (r2 * loan_bucket_partial_cover a) (loan_bucket l)).
        split; [lra|]. split; [nra|]. split; [|discriminate].
        intro Z0.
        destruct (fmin_cases (r2 * loan_bucket_partial_cover a) (loan_bucket l))
          as [[? ->]|[? ->]]; nra.
      + repeat split; try lra; discriminate.
    - repeat split; lra. }
  destruct Htl as (Htl1 & Htl2 & Htl3 & Htl4).
  (* first draw on the reverse mortgage *)
  assert (Hav : fmax 0 (rm_limit l - rm_bal l) == rm_limit l - rm_bal l).
  { destruct (fmax_cases 0 (rm_limit l - rm_bal l)) as [[? ->]|[? ->]]; lra. }
  assert (Htr : 0 <= tr /\ tr <= r2 - tl /\ tr <= rm_limit l - rm_bal l).
  { subst tr. destruct (Qleb (dd2 a) dd).
    - pose proof (fmin_ub_l ((r2 - tl) * rm_partial_cover a)
                            (fmax 0 (rm_limit l - rm_bal l))).
      pose proof (fmin_ub_r ((r2 - tl) * rm_partial_cover a)
                            (fmax 0 (rm_limit l - rm_bal l))).
      assert (0 <= fmin ((r2 - tl) * rm_partial_cover a)
                        (fmax 0 (rm_limit l - rm_bal l)))
        by (apply fmin_glb; [nra | lra]).
      repeat split; [lra | nra | lra].
    - repeat split; lra. }
  destruct Htr as (Htr1 & Htr2 & Htr3).
  (* risky *)
  assert (Hr4 : 0 <= r2 - tl - tr) by lra.
  pose proof (take_from_drains (risky l) (r2 - tl - tr) Hr4) as A3.
  rewrite T3 in A3. cbn [fst snd] in A3.
  destruct A3 as (A3r & A3p & A3n).
  assert (Hk : r5 == 0 \/ r5 == r2 - tl - tr - fmax (risky l) 0).
  { destruct (fmax_cases (risky l) 0) as [[K ->]|[K ->]].
    - right. specialize (A3n K). lra.
    - destruct (A3p (Qlt_le_weak _ _ K)) as [Z0|[_ Z0]]; [left; exact Z0 | right; lra]. }
  (* second draw on the reverse mortgage *)
  assert (Hav2 : fmax 0 (rm_limit l - (rm_bal l + tr)) == rm_limit l - rm_bal l - tr).
  { destruct (fmax_cases 0 (rm_limit l - (rm_bal l + tr))) as [[? ->]|[? ->]]; lra. }
  assert (Hrm : 0 <= r5 - tr2
                /\ (r5 - tr2 == 0 \/ tr2 == rm_limit l - rm_bal l - tr)).
  { subst tr2.
    destruct (fmin_cases r5 (fmax 0 (rm_limit l - (rm_bal l + tr)))) as [[? ->]|[? ->]].
    - split; [lra | left; lra].
    - split; [lra | right; lra]. }
  destruct Hrm as (Htr2a & Htr2b).
  set (r6 := r5 - tr2) in *.
  (* last draw on the loan bucket *)
  unfold max_feasible, avail_rm. cbv zeta. rewrite Hav.
  destruct (Qleb (loan_bucket_use_dd a) dd) eqn:Acc; cbn [andb].
  - destruct (Qltb eps r6) eqn:Big.
    + apply Qltb_true in Big.
      destruct (fmin_cases r6 (loan_bucket l - tl)) as [[? ->]|[? ->]].
      * split; [lra|]. intro C. unfold eps in C. lra.
      * split; [lra|]. intros _.
        assert (Z6 : ~ r6 == 0) by (unfold eps in Big; lra).
        assert (Z5 : ~ r5 == 0) by (subst r6; lra).
        assert (Z2 : ~ r2 == 0) by lra.
        assert (Z1 : ~ r1 == 0) by lra.
        destruct Htr2b as [C|Etr2']; [contradiction|].
        destruct Hk as [C|Er5]; [contradiction|].
        destruct A2p as [C|[_ Eb]]; [contradiction|].
        destruct A1p as [C|[_ Ec]]; [contradiction|].
        subst r6. lra.
    + apply Qltb_false in Big. split; [lra|]. intro C. lra.
  - specialize (Htl4 eq_refl). split; [lra|]. intro Big.
    assert (Z6 : ~ r6 == 0) by (unfold eps in Big; lra).
    assert (Z5 : ~ r5 == 0) by (subst r6; lra).
    assert (Z2 : ~ r2 == 0) by lra.
    assert (Z1 : ~ r1 == 0) by lra.
    destruct Htr2b as [C|Etr2']; [contradiction|].
    destruct Hk as [C|Er5]; [contradiction|].
    destruct A2p as [C|[_ Eb]]; [contradiction|].
    destruct A1p as [C|[_ Ec]]; [contradiction|].
    subst r6. lra.
Qed.


(** Without a failure at the feasibility check, the spending from
    assets is at most [1e-9] above what was feasible. *)
Lemma spend_assets_feasible (w : list Q) (t : nat) (dd mf : Q) (l : Lane) :
  failed (check_floor a t mf l) = false ->
  floor_need_assets a t <= spend_assets a w t dd mf (check_floor a t mf l)
  /\ spend_assets a w t dd mf (check_floor a t mf l)
     <= fmax (asset_desired a w t dd) (floor_need_assets a t)
  /\ spend_assets a w t dd mf (check_floor a t mf l) <= mf + eps.
Proof.
  unfold spend_assets, check_floor. lane_simpl.
  destruct (failed l) eqn:F; cbn [negb andb]; [discriminate|].
  destruct (Qltb mf (floor_need_assets a t - eps)) eqn:B; [discriminate|].
  cbn [negb]. intros _. apply Qltb_false in B.
  pose proof (fmin_ub_l (asset_desired a w t dd) mf).
  pose proof (fmin_ub_r (asset_desired a w t dd) mf).
  set (s := fmin _ mf) in *.
  destruct (fmax_cases s (floor_need_assets a t)) as [[? ->]|[? ->]];
    destruct (fmax_cases (asset_desired a w t dd) (floor_need_assets a t))
      as [[? ->]|[? ->]];
    unfold eps in *; repeat split; lra.
Qed.

(** Saved income and the feasibility check do not lower what is
    feasible. *)
Lemma max_feasible_after_income (w : list Q) (t : nat) (dd mf : Q) (l : Lane) :
  max_feasible a dd l
  <= max_feasible a dd (check_floor a t mf (save_surplus a w t dd l)).
Proof.
  destruct (save_surplus_adds a w t dd l) as (S1 & S2 & S3).
  unfold max_feasible, avail_rm. cbv zeta.
  autorewrite with frame.
  assert (fmax (risky l) 0 <= fmax (risky (save_surplus a w t dd l)) 0).
  { destruct (fmax_cases (risky l) 0) as [[? ->]|[? ->]];
      destruct (fmax_cases (risky (save_surplus a w t dd l)) 0) as [[? ->]|[? ->]];
      lra. }
  lra.
Qed.

End FundingLemmas.

Section RunLemmas.

Variable a : Args.

(** Two changes of the failure latch in the same year make one. *)
Lemma latch_step_trans (t : nat) (x y z : Lane) :
  latch_step t x y -> latch_step t y z -> latch_step t x z.
Proof.
  intros [[A1 A2]|(A1 & A2 & A3)] [[B1 B2]|(B1 & B2 & B3)].
  - left. split; congruence.
  - right. repeat split; congruence.
  - right. repeat split; congruence.
  - congruence.
Qed.

Lemma latch_step_refl (t : nat) (x y : Lane) :
  failed y = failed x -> fail_idx y = fail_idx x -> latch_step t x y.
Proof. intros. left. split; assumption. Qed.

(** The failure latch over one year. *)
Lemma year_lane_latch_step (pay : Q) (w : list Q) (t : nat) (nb r : Q) (l : Lane) :
  latch_step t l (year_lane a pay w t nb r l).
Proof.
  unfold year_lane, before_spending, spending. cbv zeta.
  set (l1 := mark (grow a r l)).
  set (dd := drawdown_of (hwm l1) (risky l1)).
  set (l2 := loan_payment a pay t dd nb l1).
  set (l3 := rm_open a t dd l2).
  set (l4 := save_surplus a w t dd (rm_growth a t l3)).
  set (l5 := check_floor a t (max_feasible a dd (rm_growth a t l3)) l4).
  apply (latch_step_trans t l l1);
    [apply latch_step_refl; subst l1; autorewrite with frame; reflexivity|].
  apply (latch_step_trans t l1 l2); [apply loan_payment_latch|].
  apply (latch_step_trans t l2 l3); [apply rm_open_latch|].
  apply (latch_step_trans t l3 l4);
    [apply latch_step_refl; subst l4; autorewrite with frame; reflexivity|].
  apply (latch_step_trans t l4 l5); [apply check_floor_latch|].
  apply latch_step_refl; autorewrite with frame; reflexivity.
Qed.

(** The lanes of a year come from the lanes of the year before, each
    with a return of the year's column. *)
Lemma year_step_column (pay : Q) (w : list Q) (t : nat) (lanes lanes' : list Lane) :
  year_step a pay w t lanes = Ok lanes' ->
  exists nb, next_loan_bal a pay t = Ok nb
    /\ forall i l', nth_error lanes' i = Some l' ->
         exists l r, nth_error lanes i = Some l
                     /\ In r (column a (List.length lanes) t)
                     /\ l' = year_lane a pay w t nb r l.
Proof.
  unfold year_step. destruct (next_loan_bal a pay t) as [nb|e]; [|discriminate].
  cbn [bind]. intro H. apply Ok_inj in H. subst lanes'.
  exists nb. split; [reflexivity|].
  intros i l' Hi. rewrite nth_error_map in Hi.
  destruct (nth_error (combine _ lanes) i) as [[r l]|] eqn:C; [|discriminate].
  injection Hi as <-. cbn [fst snd]. exists l, r.
  apply nth_error_In in C as Hin.
  split; [|split; [apply (in_combine_l _ _ _ _ Hin) | reflexivity]].
  revert i C. clear Hin. generalize (column a (List.length lanes) t) as col.
  induction lanes as [|x xs IH]; intros col i C.
  - destruct col; destruct i; discriminate.
  - destruct col as [|c col]; [destruct i; discriminate|].
    destruct i as [|i]; simpl in *.
    + injection C as _ <-. reflexivity.
    + apply (IH col i C).
Qed.

(** The returns that the lanes read are returns of the array, or 0
    past the end of a row. *)
Lemma column_at_least (b : Q) (n t : nat) (r : Q) :
  returns_at_least b (returns a) -> b <= 0 -> In r (column a n t) -> b <= r.
Proof.
  unfold returns_at_least, column. intros H Hb Hin.
  assert (G : forall row, Forall (fun x => b <= x) row -> b <= nth t row 0).
  { intros row Hrow. destruct (Nat.lt_ge_cases t (List.length row)) as [Lt|Ge].
    - rewrite Forall_forall in Hrow. apply Hrow. apply nth_In. exact Lt.
    - rewrite nth_overflow by exact Ge. exact Hb. }
  assert (M : forall rs, Forall (Forall (fun x => b <= x)) rs ->
              In r (map (fun row => nth t row 0) rs) -> b <= r).
  { intros rs Hrs Hr. apply in_map_iff in Hr. destruct Hr as (row & <- & Hrow).
    rewrite Forall_forall in Hrs. apply G, Hrs, Hrow. }
  destruct (rows (returns a)) as [|row [|row' rest]].
  - destruct Hin.
  - apply repeat_spec in Hin. subst r. apply G. inversion H; assumption.
  - apply (M _ H Hin).
Qed.

(** A year with a return of at least -100% keeps [risky] and the
    high-water mark non-negative and the running maximum drawdown
    between 0 and 1. *)
Lemma year_lane_risky (pay : Q) (w : list Q) (t : nat) (nb r : Q) (l : Lane) :
  -(1) <= r ->
  0 <= risky l /\ 0 <= hwm l /\ 0 <= max_dd_risky l <= 1 ->
  0 <= risky (year_lane a pay w t nb r l)
  /\ 0 <= hwm (year_lane a pay w t nb r l)
  /\ 0 <= max_dd_risky (year_lane a pay w t nb r l) <= 1.
Proof.
  intros Hr (K & Hh & M0 & M1).
  unfold year_lane, before_spending, spending. cbv zeta.
  set (l1 := mark (grow a r l)).
  set (dd := drawdown_of (hwm l1) (risky l1)).
  set (l2 := loan_payment a pay t dd nb l1).
  set (l3 := rm_growth a t (rm_open a t dd l2)).
  set (l4 := check_floor a t (max_feasible a dd l3) (save_surplus a w t dd l3)).
  set (sp := spend_assets a w t dd (max_feasible a dd l3) l4).
  set (l5 := fund a dd sp l4).
  set (l6 := refill a w t dd l5).
  autorewrite with frame.
  (* marks *)
  assert (K1 : 0 <= risky l1).
  { subst l1. autorewrite with frame. unfold grow. lane_simpl. nra. }
  assert (H1 : 0 <= hwm l1 /\ 0 <= max_dd_risky l1 <= 1).
  { subst l1. unfold mark. cbv zeta. lane_simpl.
    assert (Kg : 0 <= risky (grow a r l)) by (unfold grow; lane_simpl; nra).
    replace (hwm (grow a r l)) with (hwm l) by (unfold grow; reflexivity).
    replace (max_dd_risky (grow a r l)) with (max_dd_risky l)
      by (unfold grow; reflexivity).
    set (k := risky (grow a r l)) in *.
    pose proof (fmax_lb_l (hwm l) k). pose proof (fmax_lb_r (hwm l) k).
    set (h := fmax (hwm l) k) in *.
    assert (D : 0 <= drawdown_of h k <= 1).
    { unfold drawdown_of. destruct (Qltb 0 h) eqn:B; [|lra].
      apply Qltb_true in B.
      assert (k / h <= 1) by (apply Qle_shift_div_r; lra).
      assert (0 <= k / h) by (apply Qle_shift_div_l; lra). lra. }
    split; [lra|].
    destruct (fmax_cases (max_dd_risky l) (drawdown_of h k)) as [[? ->]|[? ->]]; lra. }
  assert (E2 : hwm l6 = hwm l1 /\ max_dd_risky l6 = max_dd_risky l1).
  { subst l6 l5 l4 l3 l2. autorewrite with frame. split; reflexivity. }
  destruct E2 as [-> ->]. split; [|exact H1].
  (* risky *)
  assert (K2 : 0 <= risky l2).
  { subst l2. unfold loan_payment.
    destruct (has_loan a && _); [|exact K1].
    destruct (take_from (cash l1) pay) as [c1 r1].
    destruct (take_from (base_treas l1) r1) as [b1 r2].
    destruct (take_from (risky l1) r2) as [k1 r3] eqn:T.
    cbv zeta. lane_simpl. apply take_from_spec in T.
    destruct T as (_ & T & _). apply T, K1. }
  assert (K4 : 0 <= risky l4).
  { subst l4 l3. autorewrite with frame.
    pose proof (save_surplus_adds a w t dd (rm_growth a t (rm_open a t dd l2)))
      as (_ & _ & S).
    autorewrite with frame in S. lra. }
  assert (K5 : 0 <= risky l5).
  { subst l5.
    destruct (fund_fields a dd sp l4)
      as (c1 & r1 & b1 & r2 & tl & tr & k1 & r5 & tr2 & u2
          & _ & _ & _ & _ & T3 & _ & _ & ->).
    lane_simpl. apply take_from_spec in T3.
    destruct T3 as (_ & T & _). apply T, K4. }
  assert (K6 : 0 <= risky l6
               /\ 0 <= risky l6 - repay_take a dd l6).
  { assert (G : 0 <= risky l6).
    { subst l6. unfold refill, refill_add_base, refill_add_cash. cbv zeta.
      destruct (safe_targets _ _ _ _) as [tc tb]. lane_simpl.
      destruct (good a dd l5); [|lra].
      set (ac := fmin (fmax 0 (tc - cash l5)) (fmax (risky l5) 0)).
      assert (ac <= fmax (risky l5) 0) by apply fmin_ub_r.
      pose proof (fmin_ub_r (fmax 0 (tb - base_treas l5)) (fmax (risky l5 - ac) 0)).
      destruct (fmax_cases (risky l5) 0) as [[? E3]|[? E3]]; rewrite E3 in *;
        destruct (fmax_cases (risky l5 - ac) 0) as [[? E4]|[? E4]]; rewrite E4 in *;
        lra. }
    split; [exact G|].
    unfold repay_take. cbv zeta.
    match goal with |- context [fmin ?x ?y] => pose proof (fmin_ub_r x y) end.
    destruct (fmax_cases (risky l6) 0) as [[? E3]|[? E3]]; rewrite E3 in *; lra. }
  unfold repay. cbv zeta. lane_simpl. tauto.
Qed.

(** The loan balance at the end of a year. *)
Lemma year_lane_loan_bal (pay : Q) (w : list Q) (t : nat) (nb r : Q) (l : Lane) :
  loan_bal (year_lane a pay w t nb r l)
  = if has_loan a && (Z.of_nat t <? rm_open_t a)%Z then nb
    else if has_loan a && (Z.of_nat t =? rm_open_t a)%Z then 0
    else loan_bal l.
Proof.
  unfold year_lane, before_spending, spending. cbv zeta.
  autorewrite with frame.
  set (l1 := mark (grow a r l)).
  set (dd := drawdown_of (hwm l1) (risky l1)).
  assert (E1 : loan_bal l1 = loan_bal l)
    by (subst l1; autorewrite with frame; reflexivity).
  unfold rm_open, loan_payment.
  destruct (has_loan a) eqn:L; cbn [andb].
  - destruct (Z.of_nat t <? rm_open_t a)%Z eqn:B.
    + assert (C : (Z.of_nat t =? rm_open_t a)%Z = false)
        by (apply Z.eqb_neq; apply Z.ltb_lt in B; lia).
      rewrite C.
      destruct (take_from (cash l1) pay) as [c1 r1].
      destruct (take_from (base_treas l1) r1) as [b1 r2].
      destruct (take_from (risky l1) r2) as [k1 r3].
      reflexivity.
    + destruct (Z.of_nat t =? rm_open_t a)%Z; [|exact E1].
      cbv zeta.
      repeat match goal with
             | |- context [take_from ?x ?y] => destruct (take_from x y)
             | |- context [if ?c then _ else _] => destruct c
             end;
        reflexivity.
  - destruct (Z.of_nat t =? rm_open_t a)%Z; exact E1.
Qed.

End RunLemmas.

Section RunInvariants.

Variable a : Args.

Lemma init_lane_risky (w : list Q) :
  0 <= risky (init_lane a w) /\ 0 <= hwm (init_lane a w)
  /\ 0 <= max_dd_risky (init_lane a w) <= 1.
Proof.
  unfold init_lane. destruct (safe_targets _ _ _ _) as [tc tb]. cbv zeta. lane_simpl.
  pose proof (fmin_ub_r (tc + tb) (start_portfolio a)). lra.
Qed.

Lemma run_years_risky (pay : Q) (w : list Q) :
  returns_at_least (-(1)) (returns a) ->
  forall k lanes, run_years a pay w k = Ok lanes ->
  Forall (fun l => 0 <= risky l /\ 0 <= hwm l /\ 0 <= max_dd_risky l <= 1) lanes.
Proof.
  intros Hret. induction k as [|k IH]; intros lanes H.
  - simpl in H. apply Ok_inj in H. subst lanes. apply Forall_forall. intros l Hl.
    apply repeat_spec in Hl. subst l. apply init_lane_risky.
  - simpl in H. destruct (run_years a pay w k) as [prev|e]; [|discriminate].
    cbn [bind] in H. specialize (IH prev eq_refl).
    apply year_step_column in H. destruct H as (nb & _ & Hl).
    apply Forall_forall. intros l' Hin.
    apply In_nth_error in Hin. destruct Hin as [i Hi].
    destruct (Hl i l' Hi) as (l & r & Hprev & Hr & ->).
    rewrite Forall_forall in IH.
    apply year_lane_risky; [|apply IH, (nth_error_In _ _ Hprev)].
    apply (column_at_least a (-(1)) (List.length prev) k r Hret); [lra | exact Hr].
Qed.

Lemma run_years_fail_idx_nonneg (pay : Q) (w : list Q) (k : nat) (lanes : list Lane) :
  run_years a pay w k = Ok lanes -> Forall (fun l => (0 <= fail_idx l)%Z) lanes.
Proof.
  revert lanes. induction k as [|k IH]; intros lanes H.
  - simpl in H. apply Ok_inj in H. subst lanes. apply Forall_forall. intros l Hl.
    apply repeat_spec in Hl. subst l.
    unfold init_lane. destruct (safe_targets _ _ _ _). cbv zeta. lane_simpl. lia.
  - simpl in H. destruct (run_years a pay w k) as [prev|e]; [|discriminate].
    cbn [bind] in H. specialize (IH prev eq_refl).
    apply year_step_lanes in H. destruct H as (nb & _ & Hl).
    apply Forall_forall. intros l' Hin.
    apply In_nth_error in Hin. destruct Hin as [i Hi].
    destruct (Hl i l' Hi) as (l & r & Hprev & ->).
    rewrite Forall_forall in IH. specialize (IH l (nth_error_In _ _ Hprev)).
    destruct (year_lane_latch_step a pay w k nb r l) as [[_ E]|(_ & _ & E)];
      rewrite E; lia.
Qed.

(** Until its year of opening the credit line is at 0, nothing is
    drawn on it and the use flag is unset. *)
Lemma run_years_closed (pay : Q) (w : list Q) :
  in_range a -> the_pay a = Ok pay -> (forall t, 0 <= nth t w 0) ->
  forall k lanes, run_years a pay w k = Ok lanes ->
  (Z.of_nat k <= rm_open_t a)%Z ->
  Forall (fun l => rm_limit l == 0 /\ rm_bal l == 0 /\ rm_ever_used l = false) lanes.
Proof.
  intros R Hpay Hw. induction k as [|k IH]; intros lanes H Hk.
  - simpl in H. apply Ok_inj in H. subst lanes. apply Forall_forall. intros l Hl.
    apply repeat_spec in Hl. subst l.
    unfold init_lane. destruct (safe_targets _ _ _ _). cbv zeta. lane_simpl.
    repeat split; reflexivity.
  - pose proof (run_years_ok a pay w R Hpay Hw (S k) lanes H) as Hok.
    simpl in H. destruct (run_years a pay w k) as [prev|e]; [|discriminate].
    cbn [bind] in H. specialize (IH prev eq_refl ltac:(lia)).
    apply year_step_lanes in H. destruct H as (nb & _ & Hl).
    apply Forall_forall. intros l' Hin.
    rewrite Forall_forall in Hok. destruct (Hok l' Hin) as [B C].
    specialize (C Hk). destruct B as (_ & _ & _ & _ & B5 & B6).
    assert (Z0 : rm_bal l' == 0) by lra.
    split; [exact C|]. split; [exact Z0|].
    apply In_nth_error in Hin. destruct Hin as [i Hi].
    destruct (Hl i l' Hi) as (l & r & Hprev & E).
    rewrite Forall_forall in IH.
    destruct (IH l (nth_error_In _ _ Hprev)) as (_ & _ & U).
    rewrite E, year_lane_latch, U, <- E. cbn [orb].
    apply Qltb_false. lra.
Qed.

(** The loan balance is the same on every path. *)
Lemma run_years_loan_bal (pay : Q) (w : list Q) (k : nat) (lanes : list Lane) :
  run_years a pay w k = Ok lanes ->
  Forall (fun l =>
            ((0 <= rm_open_t a < Z.of_nat k)%Z -> loan_bal l = 0)
            /\ (has_loan a = true -> (1 <= Z.of_nat k <= rm_open_t a)%Z ->
                next_loan_bal a pay (k - 1) = Ok (loan_bal l))
            /\ ((rm_open_t a < 0)%Z \/ k = 0%nat ->
                loan_bal l = if has_loan a then inject_Z (loan_amount a) else 0)
            /\ (has_loan a = false -> loan_bal l = 0)) lanes.
Proof.
  revert lanes. induction k as [|k IH]; intros lanes H.
  - simpl in H. apply Ok_inj in H. subst lanes. apply Forall_forall. intros l Hl.
    apply repeat_spec in Hl. subst l.
    unfold init_lane. destruct (safe_targets _ _ _ _). cbv zeta. lane_simpl.
    split; [lia|]. split; [lia|]. split; [reflexivity|].
    intros ->. reflexivity.
  - simpl in H. destruct (run_years a pay w k) as [prev|e]; [|discriminate].
    cbn [bind] in H. specialize (IH prev eq_refl).
    apply year_step_lanes in H. destruct H as (nb & Hnb & Hl).
    apply Forall_forall. intros l' Hin.
    apply In_nth_error in Hin. destruct Hin as [i Hi].
    destruct (Hl i l' Hi) as (l & r & Hprev & ->).
    rewrite Forall_forall in IH.
    destruct (IH l (nth_error_In _ _ Hprev)) as (I1 & I2 & I3 & I4).
    rewrite year_lane_loan_bal.
    replace (S k - 1)%nat with k by lia.
    destruct (has_loan a) eqn:L; cbn [andb].
    + destruct (Z.of_nat k <? rm_open_t a)%Z eqn:B;
        [apply Z.ltb_lt in B | apply Z.ltb_ge in B].
      * split; [lia|]. split; [intros _ _; exact Hnb|].
        split; [intros [C|C]; [lia | discriminate] | discriminate].
      * destruct (Z.of_nat k =? rm_open_t a)%Z eqn:C;
          [apply Z.eqb_eq in C | apply Z.eqb_neq in C].
        -- split; [reflexivity|]. split; [lia|].
           split; [intros [D|D]; [lia | discriminate] | discriminate].
        -- split; [intro D; apply I1; lia|]. split; [lia|].
           split; [|discriminate].
           intros [D|D]; [apply I3; left; exact D | discriminate].
    + destruct (Z.of_nat k =? rm_open_t a)%Z;
        (split; [intros _; apply I4; reflexivity|]);
        (split; [discriminate|]);
        (split; intros _; apply I4; reflexivity).
Qed.

End RunInvariants.

Section MetricLemmas.

Import Mortality.

Lemma insert_sorted_perm (x : Q) (l : list Q) : Permutation (x :: l) (insert_sorted x l).
Proof.
  induction l as [|y l IH]; simpl; [reflexivity|].
  destruct (Qleb x y); [reflexivity|].
  rewrite perm_swap. apply perm_skip. exact IH.
Qed.

Lemma sort_perm (l : list Q) : Permutation l (sort l).
Proof.
  induction l as [|x l IH]; simpl; [reflexivity|].
  rewrite <- insert_sorted_perm. apply perm_skip. exact IH.
Qed.

(** The median of a non-empty array is an entry of the array or the
    mean of two of its entries. *)
Lemma np_median_entries (l : list Q) :
  l <> [] ->
  exists x y, In x l /\ In y l /\ np_median l == (x + y) / 2.
Proof.
  intro Hl. unfold np_median. cbv zeta.
  pose proof (sort_perm l) as P.
  assert (Hlen : List.length (sort l) = List.length l)
    by (symmetry; apply Permutation_length, P).
  assert (Hpos : (0 < List.length (sort l))%nat)
    by (rewrite Hlen; destruct l; [congruence | simpl; lia]).
  set (s := sort l) in *. set (n := List.length s) in *.
  assert (Hin : forall i, (i < n)%nat -> In (nth i s 0) l).
  { intros i Hi. apply (Permutation_in _ (Permutation_sym P)). apply nth_In, Hi. }
  assert (Hhalf : (n / 2 < n)%nat) by (apply Nat.div_lt; lia).
  destruct (Nat.even n).
  - exists (nth (n / 2 - 1) s 0), (nth (n / 2) s 0).
    split; [apply Hin; lia|]. split; [apply Hin, Hhalf | reflexivity].
  - exists (nth (n / 2) s 0), (nth (n / 2) s 0).
    split; [apply Hin, Hhalf|]. split; [apply Hin, Hhalf | field].
Qed.

Lemma np_median_lower (l : list Q) (lo : Q) :
  l <> [] -> Forall (fun x => lo <= x) l -> lo <= np_median l.
Proof.
  intros Hl H. destruct (np_median_entries l Hl) as (x & y & Hx & Hy & ->).
  rewrite Forall_forall in H. specialize (H x Hx) as Bx. specialize (H y Hy) as By.
  apply Qle_shift_div_l; lra.
Qed.

Lemma np_median_upper (l : list Q) (hi : Q) :
  l <> [] -> Forall (fun x => x <= hi) l -> np_median l <= hi.
Proof.
  intros Hl H. destruct (np_median_entries l Hl) as (x & y & Hx & Hy & ->).
  rewrite Forall_forall in H. specialize (H x Hx) as Bx. specialize (H y Hy) as By.
  apply Qle_shift_div_r; lra.
Qed.

(** The share of a test that holds everywhere or nowhere. *)
Lemma share_all {A : Type} (f : A -> bool) (l : list A) :
  l <> [] -> (forall x, In x l -> f x = true) -> share f l == 1.
Proof.
  intros Hl H. unfold share.
  assert (E : filter f l = l).
  { clear Hl. induction l as [|x l IH]; simpl; [reflexivity|].
    rewrite (H x (or_introl eq_refl)). f_equal. apply IH.
    intros y Hy. apply H. right. exact Hy. }
  rewrite E. field.
  destruct l; [congruence|]. simpl List.length.
  intro C. apply (Qeq_bool_neq (inject_Z (Z.of_nat (S (List.length l)))) 0); [|exact C].
  unfold Qeq_bool, inject_Z. simpl. reflexivity.
Qed.

Lemma share_none {A : Type} (f : A -> bool) (l : list A) :
  (forall x, In x l -> f x = false) -> share f l == 0.
Proof.
  intro H. unfold share.
  assert (E : filter f l = []).
  { induction l as [|x l IH]; simpl; [reflexivity|].
    rewrite (H x (or_introl eq_refl)). apply IH.
    intros y Hy. apply H. right. exact Hy. }
  rewrite E. simpl. unfold Qdiv. ring.
Qed.

(** A weighted sum of equal values. *)
Lemma weighted_sum_const (c : Q) (ps vs : list Q) :
  List.length ps = List.length vs -> Forall (fun v => v == c) vs ->
  total (np_mul ps vs) == c * total ps.
Proof.
  revert vs. induction ps as [|p ps IH]; intros [|v vs] Hlen H;
    try discriminate.
  - simpl. ring.
  - inversion H as [|? ? Hv Hvs]; subst.
    change (total (np_mul (p :: ps) (v :: vs))) with (p * v + total (np_mul ps vs)).
    change (total (p :: ps)) with (p + total ps).
    simpl in Hlen. rewrite (IH vs ltac:(lia) Hvs). rewrite Hv. ring.
Qed.

(** The entries of the ruin-by-age table are values of the ruin
    curve. *)
Lemma ruin_by_age_entries (fail_idx ages_model : list Z) (P : Q -> Prop) :
  ages_model <> [] ->
  (forall t, (t < List.length ages_model)%nat ->
             P (share (fun f => (f <=? Z.of_nat t)%Z) fail_idx)) ->
  let n := List.length ages_model in
  Forall P
    (map (fun a => nth (Z.to_nat (dict_get (age_to_t ages_model) a (Z.of_nat n - 1)))
                       (map (fun t => share (fun f => (f <=? Z.of_nat t)%Z) fail_idx)
                            (seq 0 n)) 0)
         (fst mortality_weights)).
Proof.
  intros Ha H n. apply Forall_map. apply Forall_forall. intros age _.
  assert (Hn : (0 < n)%nat)
    by (subst n; destruct ages_model; [congruence | simpl; lia]).
  pose proof (dict_get_range (age_to_t ages_model) age (Z.of_nat n - 1) (Z.of_nat n)
                             ltac:(lia) (age_to_t_range ages_model)) as Hr.
  set (i := Z.to_nat _). assert (Hi : (i < n)%nat) by (subst i; lia).
  rewrite (nth_indep _ 0 (share (fun f => (f <=? Z.of_nat 0)%Z) fail_idx))
    by (rewrite length_map, length_seq; exact Hi).
  rewrite (map_nth (fun t => share (fun f => (f <=? Z.of_nat t)%Z) fail_idx)).
  rewrite seq_nth by exact Hi. apply H. exact Hi.
Qed.

(** Both success probabilities are between 0 and 1. *)
Lemma death_weighted_success_range (fail_idx ages_model : list Z) (pp : Q * Q) :
  death_weighted_success fail_idx ages_model = Ok pp ->
  0 <= fst pp <= 1 /\ 0 <= snd pp <= 1.
Proof.
  intro H. destruct (death_weighted_success_inputs _ _ _ H) as [Hf Ha].
  rewrite (death_weighted_success_value _ _ Hf Ha) in H. cbv zeta in H.
  apply Ok_inj in H. subst pp. cbn [fst snd].
  split; [|apply share_bounds, Hf].
  rewrite np_sum_total. pose proof weights_total as Htot.
  match goal with
  | |- 0 <= total (np_mul _ ?vs) <= 1 =>
      pose proof (weighted_sum_bounds (snd mortality_weights) vs weights_nonneg) as Hb
  end.
  rewrite <- Htot. apply Hb. apply Forall_map.
  apply (Forall_impl (fun r => 0 <= 1 - r <= 1) (P := fun r => 0 <= r <= 1));
    [intros r Hr; lra|].
  apply (ruin_by_age_entries fail_idx ages_model (fun r => 0 <= r <= 1) Ha).
  intros t _. apply share_bounds, Hf.
Qed.

(** What [simulate_once] computes from the final lanes. *)
Lemma simulate_once_metrics (a : Args) (m : Metrics) :
  simulate_once a = Ok m ->
  exists lanes pp,
    lanes_after a (n_years a) = Ok lanes /\ lanes <> []
    /\ death_weighted_success (map fail_idx lanes)
                              (map (age_of a) (seq 0 (n_years a))) = Ok pp
    /\ m = mkMetrics (fst pp) (snd pp)
             (np_median (map max_dd_risky lanes))
             (np_median (map max_dd_total lanes))
             (np_median (map (home_equity_remaining a) lanes))
             (share rm_ever_used lanes)
             (np_median (map rm_bal lanes))
             (np_median (map risky lanes))
             (np_median (map total_net_end lanes))
             (np_median (map (fun l => total_net_end l + home_equity_remaining a l)
                             lanes)).
Proof.
  unfold simulate_once. destruct (lanes_after a (n_years a)) as [lanes|e] eqn:L;
    [|discriminate].
  cbn [bind]. unfold metrics_of.
  destruct (death_weighted_success _ _) as [pp|e] eqn:D; [|discriminate].
  cbn [bind].
  assert (Hl : lanes <> []).
  { destruct (death_weighted_success_inputs _ _ _ D) as [Hf _].
    intro C. subst lanes. apply Hf. reflexivity. }
  rewrite (mean_bool_share rm_ever_used lanes Hl). cbn [bind].
  intro H. apply Ok_inj in H. exists lanes, pp.
  split; [reflexivity|]. split; [exact Hl|]. split; [exact D|].
  symmetry. exact H.
Qed.

End MetricLemmas.

Section SearchLemmas.

Import Optimizer.

Variable sim : Z -> outcome Metrics.
Variable target : Q.
Variable objective : Metrics -> Q.

(** A bracket end that passes and that the growth step maps to itself
    keeps the expansion running. *)
Lemma expand_stuck (h : Z) (mh : Metrics) :
  (h < 600000)%Z -> Z.quot (h * 125) 100 = h ->
  sim h = Ok mh -> target <= objective mh ->
  forall fuel s, hi s = h -> expand sim target objective fuel s mh = Raise Diverges.
Proof.
  intros Hcap Hfix Hs Hp. apply Qleb_true in Hp. apply Z.ltb_lt in Hcap.
  induction fuel as [|fuel IH]; intros s E; cbn [expand];
    rewrite Hp, E, Hcap; cbn [andb]; [reflexivity|].
  rewrite grow_bracket, Hfix, Hs. cbn [bind]. apply IH. reflexivity.
Qed.

End SearchLemmas.

Section ApiLemmas.

Import Mortality.

Lemma collect_Forall2 {A B : Type} (f : A -> outcome B) (l : list A) (rows : list B) :
  collect (map f l) = Ok rows -> Forall2 (fun x r => f x = Ok r) l rows.
Proof.
  revert rows. induction l as [|x l IH]; intros rows H; simpl in H.
  - apply Ok_inj in H. subst rows. constructor.
  - destruct (f x) as [r|e] eqn:F; [|discriminate]. cbn [bind] in H.
    destruct (collect (map f l)) as [rs|e]; [|discriminate]. cbn [bind] in H.
    apply Ok_inj in H. subst rows. constructor; [exact F | apply IH; reflexivity].
Qed.

Lemma flat_map_length_const {A B : Type} (f : A -> list B) (l : list A) (n : nat) :
  (forall x, List.length (f x) = n) ->
  List.length (flat_map f l) = (List.length l * n)%nat.
Proof.
  intro H. induction l as [|x l IH]; simpl; [reflexivity|].
  rewrite length_app, H, IH. reflexivity.
Qed.

End ApiLemmas.
(** ** Account helpers, guardrails and the withdrawal schedule *)

Section AccountFacts.

(** X1.  [take_from] with a non-negative amount: what leaves the
    account is what the remainder misses; the remainder is between 0
    and the amount; a non-negative balance stays non-negative and is
    emptied before any remainder is left; a balance that is not
    positive is left as it is and the whole amount comes back. *)
Theorem take_from_accounting :
  forall arr amount : Q, 0 <= amount ->
    let arr' := fst (take_from arr amount) in
    let rem := snd (take_from arr amount) in
    arr - arr' == amount - rem
    /\ 0 <= rem <= amount
    /\ (0 <= arr -> 0 <= arr' /\ (rem == 0 \/ arr' == 0))
    /\ (arr <= 0 -> arr' == arr /\ rem == amount).
Proof.
  intros arr amount Ha. unfold take_from. cbn [fst snd].
  destruct (fmax_cases arr 0) as [[H1 ->]|[H1 ->]];
    [destruct (fmin_cases amount 0) as [[H2 ->]|[H2 ->]]
    |destruct (fmin_cases amount arr) as [[H2 ->]|[H2 ->]]];
    (split; [lra|]); (split; [lra|]);
    (split; [intro; split; [lra|first [left; lra | right; lra]]
            |intro; split; lra]).
Qed.

Lemma take_from_accounting_witness :
  let arr' := fst (take_from 3 5) in
  let rem := snd (take_from 3 5) in
  3 - arr' == 5 - rem /\ 0 <= rem <= 5
  /\ (0 <= 3 -> 0 <= arr' /\ (rem == 0 \/ arr' == 0))
  /\ (3 <= 0 -> arr' == 3 /\ rem == 5).
Proof. apply (take_from_accounting 3 5). lra. Defined.

(** X2.  [safe_targets] as a call.  On an empty schedule it raises
    [IndexError], for every [t].  On a schedule with at least one entry
    and for [t >= 0] it returns the pair that the kernel uses
    ([Accounts.safe_targets]): the two targets add up to
    [reserve_years] times the planned withdrawal of year [t + 1], or of
    the last year once [t + 1] is past the end, so that every year from
    the second-to-last on has the same targets; and with
    [reserve_years >= 0], a cash fraction between 0 and 1 and a
    non-negative schedule, neither target is negative. *)
Theorem safe_targets_split :
  forall (w : list Q) (t : Z) (ry rcf : Q),
    (w = [] -> Raising.safe_targets w t ry rcf = Raise IndexError)
    /\ (w <> [] -> (0 <= t)%Z ->
        exists tgt_cash tgt_base,
          Raising.safe_targets w t ry rcf = Ok (tgt_cash, tgt_base)
          /\ Accounts.safe_targets w (Z.to_nat t) ry rcf = (tgt_cash, tgt_base)
          /\ ((t + 1 < Z.of_nat (List.length w))%Z ->
              tgt_cash + tgt_base == ry * nth (Z.to_nat (t + 1)) w 0)
          /\ ((Z.of_nat (List.length w) <= t + 1)%Z ->
              tgt_cash + tgt_base == ry * last w 0)
          /\ (forall t', (Z.of_nat (List.length w) - 2 <= t <= t')%Z ->
                Raising.safe_targets w t' ry rcf = Ok (tgt_cash, tgt_base))
          /\ (0 <= ry -> 0 <= rcf <= 1 -> Forall (fun x => 0 <= x) w ->
              0 <= tgt_cash /\ 0 <= tgt_base)).
Proof.
  intros w t ry rcf. split.
  - intros ->. unfold Raising.safe_targets, Mortality.np_get. cbn [List.length].
    change (Z.of_nat 0) with 0%Z.
    destruct (Z.min (t + 1) (0 - 1) <? 0)%Z eqn:B;
      [|apply Z.ltb_ge in B; lia].
    destruct ((0 + Z.min (t + 1) (0 - 1) <? 0) || _)%Z eqn:C; [reflexivity|].
    apply orb_false_iff in C. destruct C as [C _]. apply Z.ltb_ge in C. lia.
  - intros Hw Ht.
    assert (Hn : (0 < List.length w)%nat)
      by (destruct w; [congruence | simpl; lia]).
    assert (Hidx : forall u, (0 <= u)%Z ->
               Mortality.np_get w (Z.min (u + 1) (Z.of_nat (List.length w) - 1))
               = Ok (nth (Nat.min (Z.to_nat u + 1) (List.length w - 1)) w 0)).
    { intros u Hu.
      rewrite (np_get_in_range w _ 0) by lia.
      do 2 f_equal. lia. }
    unfold Raising.safe_targets. rewrite (Hidx t Ht). cbn [bind].
    do 2 eexists. split; [reflexivity|]. split; [reflexivity|].
    split; [|split; [|split]].
    + intro Hlt. replace (Nat.min (Z.to_nat t + 1) (List.length w - 1))
        with (Z.to_nat (t + 1)) by lia. ring.
    + intro Hge. replace (Nat.min (Z.to_nat t + 1) (List.length w - 1))
        with (List.length w - 1)%nat by lia.
      assert (L : nth (List.length w - 1) w 0 = last w 0).
      { clear -Hw. induction w as [|x [|y l] IH]; [congruence | reflexivity|].
        specialize (IH ltac:(discriminate)).
        change (last (x :: y :: l) 0) with (last (y :: l) 0). rewrite <- IH.
        simpl. rewrite Nat.sub_0_r. reflexivity. }
      rewrite L. ring.
    + intros t' Ht'. rewrite (Hidx t' ltac:(lia)). cbn [bind].
      replace (Nat.min (Z.to_nat t' + 1) (List.length w - 1))
        with (Nat.min (Z.to_nat t + 1) (List.length w - 1)) by lia.
      reflexivity.
    + intros Hry Hrcf Hall.
      assert (Hx : 0 <= nth (Nat.min (Z.to_nat t + 1) (List.length w - 1)) w 0).
      { rewrite Forall_forall in Hall. apply Hall. apply nth_In. lia. }
      set (x := nth _ w 0) in *.
      assert (Hp : 0 <= ry * x) by nra.
      set (p := ry * x) in *. split; nra.
Qed.

Lemma safe_targets_split_witness :
  Raising.safe_targets [] 0 2 (1 # 4) = Raise IndexError
  /\ exists tgt_cash tgt_base,
       Raising.safe_targets [10; 20; 30] 1 2 (1 # 4) = Ok (tgt_cash, tgt_base)
       /\ tgt_cash + tgt_base == 2 * 30
       /\ Raising.safe_targets [10; 20; 30] 5 2 (1 # 4) = Ok (tgt_cash, tgt_base)
       /\ 0 <= tgt_cash /\ 0 <= tgt_base.
Proof.
  split.
  - apply (safe_targets_split [] 0 2 (1 # 4)). reflexivity.
  - destruct (safe_targets_split [10; 20; 30] 1 2 (1 # 4)) as [_ H].
    destruct (H ltac:(discriminate) ltac:(lia))
      as (tc & tb & H1 & _ & H3 & _ & H5 & H6).
    exists tc, tb. split; [exact H1|].
    split; [apply H3; simpl; lia|].
    split; [apply H5; simpl; lia|].
    apply H6; [lra | lra | repeat constructor; lra].
Defined.

(** X3.  The guardrail cut is [cut2] from [dd2] on, [cut1] on
    [dd1 <= drawdown < dd2], and 0 below both thresholds; when [dd2]
    is not above [dd1] the first band is empty, and the cut is 0 below
    [dd2] and [cut2] from there on. *)
Theorem compute_cuts_bands :
  forall drawdown dd1 dd2 cut1 cut2 : Q,
    (dd2 <= drawdown -> compute_cuts drawdown dd1 dd2 cut1 cut2 = cut2)
    /\ (dd1 <= drawdown -> drawdown < dd2 ->
        compute_cuts drawdown dd1 dd2 cut1 cut2 = cut1)
    /\ (drawdown < dd1 -> drawdown < dd2 ->
        compute_cuts drawdown dd1 dd2 cut1 cut2 = 0)
    /\ (dd2 <= dd1 -> drawdown < dd2 ->
        compute_cuts drawdown dd1 dd2 cut1 cut2 = 0).
Proof.
  intros dd d1 d2 c1 c2. unfold compute_cuts. cbv zeta.
  repeat split; intros; qcompare; cbn [andb]; try reflexivity; exfalso; lra.
Qed.

Lemma compute_cuts_bands_witness :
  compute_cuts (3 # 10) (15 # 100) (25 # 100) (1 # 2) 1 = 1
  /\ compute_cuts (2 # 10) (15 # 100) (25 # 100) (1 # 2) 1 = 1 # 2
  /\ compute_cuts (1 # 10) (15 # 100) (25 # 100) (1 # 2) 1 = 0
  /\ compute_cuts (2 # 10) (25 # 100) (25 # 100) (1 # 2) 1 = 0.
Proof.
  destruct (compute_cuts_bands (3 # 10) (15 # 100) (25 # 100) (1 # 2) 1) as (H1 & _).
  destruct (compute_cuts_bands (2 # 10) (15 # 100) (25 # 100) (1 # 2) 1) as (_ & H2 & _).
  destruct (compute_cuts_bands (1 # 10) (15 # 100) (25 # 100) (1 # 2) 1) as (_ & _ & H3 & _).
  destruct (compute_cuts_bands (2 # 10) (25 # 100) (25 # 100) (1 # 2) 1) as (_ & _ & _ & H4).
  split; [apply H1; lra|]. split; [apply H2; lra|].
  split; [apply H3; lra|]. apply H4; lra.
Defined.

(** X4.  With [0 <= cut1 <= cut2] the cut never decreases when the
    drawdown grows, and it stays between 0 and [cut2]. *)
Theorem compute_cuts_monotone :
  forall dd1 dd2 cut1 cut2 x y : Q,
    0 <= cut1 -> cut1 <= cut2 -> x <= y ->
    compute_cuts x dd1 dd2 cut1 cut2 <= compute_cuts y dd1 dd2 cut1 cut2
    /\ 0 <= compute_cuts x dd1 dd2 cut1 cut2 <= cut2.
Proof.
  intros d1 d2 c1 c2 x y H1 H2 Hxy. unfold compute_cuts. cbv zeta.
  qcompare; cbn [andb]; split; lra.
Qed.

Lemma compute_cuts_monotone_witness :
  compute_cuts (1 # 10) (15 # 100) (25 # 100) (1 # 2) 1
  <= compute_cuts (2 # 10) (15 # 100) (25 # 100) (1 # 2) 1
  /\ 0 <= compute_cuts (1 # 10) (15 # 100) (25 # 100) (1 # 2) 1 <= 1.
Proof.
  apply (compute_cuts_monotone (15 # 100) (25 # 100) (1 # 2) 1 (1 # 10) (2 # 10)); lra.
Defined.

End AccountFacts.
Section ScheduleFacts.

(** X5.  [build_withdrawals] raises [IndexError] on an empty horizon;
    otherwise it returns one planned withdrawal per year, none of them
    negative, and in the income-applies mode every year after the first
    plans [max(0, E)]. *)
Theorem build_withdrawals_schedule :
  forall (E : Q) (n : nat) (ages : nat -> Z) (pyf : Q) (mode : bool)
         (ss : Q) (ss_age : Z) (ei : Q) (ei_start ei_end : Z),
    (n = 0%nat ->
     build_withdrawals E n ages pyf mode ss ss_age ei ei_start ei_end
     = Raise IndexError)
    /\ ((0 < n)%nat ->
        exists w,
          build_withdrawals E n ages pyf mode ss ss_age ei ei_start ei_end = Ok w
          /\ List.length w = n
          /\ (forall t, 0 <= nth t w 0)
          /\ (mode = true -> forall t, (1 <= t < n)%nat -> nth t w 0 = fmax 0 E)).
Proof.
  intros E n ages pyf mode ss ss_age ei ei_start ei_end. split.
  - intros ->. reflexivity.
  - intro Hn. unfold build_withdrawals.
    destruct n as [|m] eqn:N; [lia|]. rewrite <- N. clear Hn.
    assert (G : forall f : nat -> Q, (forall i, 0 <= f i) ->
                forall t, 0 <= nth t (map f (seq 0 n)) 0).
    { intros f Hf t. destruct (Nat.lt_ge_cases t n) as [Lt|Ge].
      - rewrite (nth_indep _ 0 (f O)) by (rewrite length_map, length_seq; exact Lt).
        rewrite map_nth. apply Hf.
      - rewrite nth_overflow by (rewrite length_map, length_seq; exact Ge). lra. }
    destruct mode; eexists; (split; [reflexivity|]);
      (split; [rewrite length_map, length_seq; reflexivity|]);
      (split; [apply G; intros [|i]; apply fmax_lb_l|]).
    + intros _ t Ht.
      set (f := fun t : nat => match t with O => fmax 0 (E * pyf) | S _ => fmax 0 E end).
      rewrite (nth_indep _ 0 (f O)) by (rewrite length_map, length_seq; lia).
      rewrite map_nth. rewrite seq_nth by lia.
      destruct t; [lia | reflexivity].
    + discriminate.
Qed.

Lemma build_withdrawals_schedule_witness :
  build_withdrawals 100 0 (fun t => (60 + Z.of_nat t)%Z) (1 # 2) true 30 62 0 0 0
  = Raise IndexError
  /\ exists w,
       build_withdrawals 100 3 (fun t => (60 + Z.of_nat t)%Z) (1 # 2) true 30 62 0 0 0
       = Ok w
       /\ List.length w = 3%nat
       /\ (forall t, 0 <= nth t w 0)
       /\ (true = true -> forall t, (1 <= t < 3)%nat -> nth t w 0 = fmax 0 100).
Proof.
  split.
  - apply (build_withdrawals_schedule
             100 0 (fun t => (60 + Z.of_nat t)%Z) (1 # 2) true 30 62 0 0 0).
    reflexivity.
  - apply (build_withdrawals_schedule
             100 3 (fun t => (60 + Z.of_nat t)%Z) (1 # 2) true 30 62 0 0 0).
    lia.
Defined.

(** X6.  With non-negative Social Security and a non-negative first-year
    fraction, the legacy mode never plans more than the income-applies
    mode, year by year. *)
Theorem legacy_schedule_below_plan :
  forall (E : Q) (n : nat) (ages : nat -> Z) (pyf ss : Q) (ss_age : Z) (ei : Q)
         (ei_start ei_end : Z) (w_legacy w_plan : list Q),
    0 <= ss -> 0 <= pyf ->
    build_withdrawals E n ages pyf false ss ss_age ei ei_start ei_end = Ok w_legacy ->
    build_withdrawals E n ages pyf true ss ss_age ei ei_start ei_end = Ok w_plan ->
    Forall2 Qle w_legacy w_plan.
Proof.
  intros E n ages pyf ss ss_age ei ei_start ei_end wl wp Hss Hpyf.
  unfold build_withdrawals. destruct n as [|m] eqn:N; [discriminate|].
  rewrite <- N. intros H1 H2. apply Ok_inj in H1, H2. subst wl wp.
  generalize (seq 0 n) as ts. clear N.
  assert (Hei : forall age,
             0 <= (if Qleb ei 0 then 0
                   else if ((age <? ei_start) || (ei_end <? age))%Z then 0 else ei)).
  { intro age. destruct (Qleb ei 0) eqn:B; [lra|]. apply Qleb_false in B.
    destruct (_ || _); lra. }
  assert (Hmax : forall x y, x <= y -> fmax 0 x <= fmax 0 y).
  { intros x y Hxy.
    destruct (fmax_cases 0 x) as [[? ->]|[? ->]];
      destruct (fmax_cases 0 y) as [[? ->]|[? ->]]; lra. }
  induction ts as [|t ts IH]; simpl; constructor; [|exact IH].
  destruct t as [|t]; apply Hmax.
  - pose proof (Hei (ages O)) as H0.
    set (e0 := if Qleb ei 0 then 0 else _) in *.
    destruct (ss_age <=? ages O)%Z; nra.
  - pose proof (Hei (ages (S t))) as H0.
    set (e0 := if Qleb ei 0 then 0 else _) in *.
    destruct (ss_age <=? ages (S t))%Z; lra.
Qed.

Lemma legacy_schedule_below_plan_witness :
  Forall2 Qle
    (schedule_of (build_withdrawals 100 3 (fun t => (61 + Z.of_nat t)%Z) (1 # 2)
                                    false 30 62 10 0 61))
    (schedule_of (build_withdrawals 100 3 (fun t => (61 + Z.of_nat t)%Z) (1 # 2)
                                    true 30 62 10 0 61)).
Proof.
  apply (legacy_schedule_below_plan
           100 3 (fun t => (61 + Z.of_nat t)%Z) (1 # 2) 30 62 10 0 61);
    [lra | lra | reflexivity | reflexivity].
Defined.

End ScheduleFacts.
(** ** The substeps of a year *)

Section StepFacts.

Variable a : Args.

(** X7.  Before the first year the three asset accounts add up to the
    starting portfolio, the reserve is at most its target, and [risky]
    holds the rest and is not negative; the loan bucket equals the loan
    balance, so the total net worth starts at the starting portfolio. *)
Theorem opening_balances :
  forall w : list Q,
    let l := init_lane a w in
    let tgt := safe_targets w 0 (reserve_years a) (reserve_cash_fraction a) in
    cash l + base_treas l + risky l == start_portfolio a
    /\ cash l + base_treas l <= fst tgt + snd tgt
    /\ 0 <= risky l
    /\ hwm l = risky l
    /\ loan_bucket l = loan_bal l
    /\ hwm_total l == start_portfolio a.
Proof.
  intro w. unfold init_lane. destruct (safe_targets _ _ _ _) as [tc tb].
  cbv zeta. lane_simpl.
  set (safe0 := fmin (tc + tb) (start_portfolio a)).
  pose proof (fmin_ub_l (tc + tb) (start_portfolio a)) as H1.
  pose proof (fmin_ub_r (tc + tb) (start_portfolio a)) as H2.
  fold safe0 in H1, H2.
  pose proof (fmin_ub_r tc safe0) as H3.
  destruct (fmax_cases 0 (safe0 - fmin tc safe0)) as [[H4 ->]|[H4 ->]];
    repeat split; try reflexivity; lra.
Qed.

(** X8.  With a non-negative plan for the year, a non-negative flexible
    share and cuts between 0 and 1, the guardrails only reduce the
    flexible part: the desired spending is between the protected part
    and the plan, and it is the plan below both thresholds. *)
Theorem desired_within_plan :
  forall (w : list Q) (t : nat) (drawdown : Q),
    0 <= nth t w 0 -> 0 <= flex_pct a t ->
    0 <= cut1 a <= 1 -> 0 <= cut2 a <= 1 ->
    0 <= floor_amt a w t
    /\ floor_amt a w t <= desired a w t drawdown
    /\ desired a w t drawdown <= nth t w 0
    /\ (drawdown < dd1 a -> drawdown < dd2 a ->
        desired a w t drawdown == nth t w 0).
Proof.
  intros w t dd Hw Hf Hc1 Hc2.
  unfold desired, floor_amt, flex_amt. cbv zeta.
  set (x := nth t w 0) in *. set (p := flex_pct a t) in *.
  assert (Hfa : 0 <= fmin (p * x) x <= x).
  { split; [apply fmin_glb; nra | apply fmin_ub_r]. }
  set (fa := fmin (p * x) x) in *.
  assert (Hc : 0 <= compute_cuts dd (dd1 a) (dd2 a) (cut1 a) (cut2 a) <= 1).
  { unfold compute_cuts. cbv zeta. qcompare; cbn [andb]; lra. }
  set (c := compute_cuts _ _ _ _ _) in *.
  split; [lra|]. split; [nra|]. split; [nra|].
  intros L1 L2. subst c. unfold compute_cuts. cbv zeta.
  apply Qleb_false in L2. rewrite L2.
  apply Qleb_false in L1. rewrite L1. cbn [andb]. ring.
Qed.

(** X9.  After the feasibility check, a path that has failed spends
    nothing from assets, and a path that has not spends at least the
    asset-funded floor, at most the larger of the floor and what it
    wanted, and at most [1e-9] more than was feasible. *)
Theorem spend_assets_range :
  forall (w : list Q) (t : nat) (drawdown mf : Q) (l : Lane),
    let l1 := check_floor a t mf l in
    let spend := spend_assets a w t drawdown mf l1 in
    (failed l1 = true -> spend = 0)
    /\ (failed l1 = false ->
        floor_need_assets a t <= spend
        /\ spend <= fmax (asset_desired a w t drawdown) (floor_need_assets a t)
        /\ spend <= mf + eps).
Proof.
  intros w t dd mf l. cbv zeta. unfold spend_assets, check_floor. lane_simpl.
  destruct (failed l) eqn:F; cbn [negb andb].
  - split; [reflexivity | discriminate].
  - destruct (Qltb mf (floor_need_assets a t - eps)) eqn:B.
    + split; [reflexivity | discriminate].
    + cbn [negb]. split; [discriminate|]. intros _.
      apply Qltb_false in B.
      pose proof (fmin_ub_l (asset_desired a w t dd) mf).
      pose proof (fmin_ub_r (asset_desired a w t dd) mf).
      set (s := fmin _ mf) in *.
      destruct (fmax_cases s (floor_need_assets a t)) as [[? ->]|[? ->]];
        destruct (fmax_cases (asset_desired a w t dd) (floor_need_assets a t))
          as [[? ->]|[? ->]];
        unfold eps in *; repeat split; lra.
Qed.

(** X10.  Funding moves money and creates none: what the four accounts
    lose, plus what is drawn on the reverse mortgage, is the spending
    less the part left unfunded. *)
Theorem funding_conserves :
  forall (drawdown spend : Q) (l : Lane),
    liquid l - liquid (fund a drawdown spend l)
    == spend - unfunded a drawdown spend l.
Proof.
  intros dd sp l.
  destruct (funding_fields a dd sp l)
    as (c1 & r1 & b1 & r2 & tl & tr & k1 & r5 & tr2 & u2
        & T1 & T2 & Etl & Etr & T3 & Etr2 & Eu2 & -> & ->).
  apply take_from_spec in T1, T2, T3.
  destruct T1 as [T1 _]. destruct T2 as [T2 _]. destruct T3 as [T3 _].
  unfold liquid. lane_simpl. subst u2.
  destruct (Qleb (loan_bucket_use_dd a) dd && negb (failed l) && Qltb eps (r5 - tr2));
    lra.
Qed.

(** X11.  On a path that is still alive after the feasibility check,
    the funding order pays for the whole of the year's spending from
    assets, up to [1e-9], when the arguments and the balances are in
    range. *)
Theorem surviving_path_is_funded :
  forall (w : list Q) (t : nat) (drawdown : Q) (l : Lane),
    in_range a -> balances_ok l ->
    let mf := max_feasible a drawdown l in
    let l1 := check_floor a t mf (save_surplus a w t drawdown l) in
    let spend := spend_assets a w t drawdown mf l1 in
    failed l1 = false ->
    0 <= unfunded a drawdown spend l1 <= eps.
Proof.
  intros w t dd l R Hl mf l1 spend F.
  assert (H1 : balances_ok l1)
    by (apply check_floor_ok, save_surplus_ok; assumption).
  assert (Hs : 0 <= spend) by (apply spend_assets_nonneg; exact R).
  destruct (unfunded_cases a dd spend l1 R H1 F Hs) as [U0 U1].
  split; [exact U0|].
  destruct (Qlt_le_dec eps (unfunded a dd spend l1)) as [Big|Small]; [|exact Small].
  specialize (U1 Big).
  destruct (spend_assets_feasible a w t dd mf (save_surplus a w t dd l) F)
    as (_ & _ & Hf).
  fold l1 in Hf. fold spend in Hf.
  pose proof (max_feasible_after_income a w t dd mf l) as Hm.
  fold l1 in Hm. fold mf in Hm. lra.
Qed.

End StepFacts.
Section MoreStepFacts.

Variable a : Args.

(** X12.  The refill moves money from [risky] to the reserve and
    creates none; cash and Treasuries never go down and never pass the
    larger of their balance and their target; a non-negative [risky]
    stays non-negative; and nothing moves in a year whose drawdown has
    reached [dd1] or on a failed path. *)
Theorem refill_tops_up_reserve :
  forall (w : list Q) (t : nat) (drawdown : Q) (l : Lane),
    let tgt := safe_targets w t (reserve_years a) (reserve_cash_fraction a) in
    let l' := refill a w t drawdown l in
    cash l' + base_treas l' + risky l' == cash l + base_treas l + risky l
    /\ cash l <= cash l' <= fmax (cash l) (fst tgt)
    /\ base_treas l <= base_treas l' <= fmax (base_treas l) (snd tgt)
    /\ (0 <= risky l -> 0 <= risky l')
    /\ (dd1 a <= drawdown \/ failed l = true ->
        cash l' == cash l /\ base_treas l' == base_treas l /\ risky l' == risky l).
Proof.
  intros w t dd l. cbv zeta.
  unfold refill, refill_add_base, refill_add_cash. cbv zeta.
  destruct (safe_targets _ _ _ _) as [tc tb]. lane_simpl.
  unfold good.
  destruct (Qltb dd (dd1 a)) eqn:G; cbn [andb];
    [apply Qltb_true in G | apply Qltb_false in G];
    (destruct (failed l) eqn:F; cbn [negb]).
  - pose proof (fmax_lb_l (cash l) tc). pose proof (fmax_lb_l (base_treas l) tb).
    repeat split; intros; lra.
  - assert (Never : dd1 a <= dd \/ false = true -> False)
      by (intros [C|C]; [lra | discriminate]).
    set (ac := fmin (fmax 0 (tc - cash l)) (fmax (risky l) 0)).
    assert (Hac : 0 <= ac /\ ac <= fmax 0 (tc - cash l) /\ ac <= fmax (risky l) 0).
    { subst ac. split; [apply fmin_glb; [apply fmax_lb_l | apply fmax_lb_r]|].
      split; [apply fmin_ub_l | apply fmin_ub_r]. }
    set (ab := fmin (fmax 0 (tb - base_treas l)) (fmax (risky l - ac) 0)).
    assert (Hab : 0 <= ab /\ ab <= fmax 0 (tb - base_treas l)
                  /\ ab <= fmax (risky l - ac) 0).
    { subst ab. split; [apply fmin_glb; [apply fmax_lb_l | apply fmax_lb_r]|].
      split; [apply fmin_ub_l | apply fmin_ub_r]. }
    destruct (fmax_cases 0 (tc - cash l)) as [[? E1]|[? E1]]; rewrite E1 in *;
      destruct (fmax_cases 0 (tb - base_treas l)) as [[? E2]|[? E2]]; rewrite E2 in *;
      destruct (fmax_cases (risky l) 0) as [[? E3]|[? E3]]; rewrite E3 in *;
      destruct (fmax_cases (risky l - ac) 0) as [[? E4]|[? E4]]; rewrite E4 in *;
      destruct (fmax_cases (cash l) tc) as [[? ->]|[? ->]];
      destruct (fmax_cases (base_treas l) tb) as [[? ->]|[? ->]];
      repeat split; intros; try lra; exfalso; apply Never; assumption.
  - pose proof (fmax_lb_l (cash l) tc). pose proof (fmax_lb_l (base_treas l) tb).
    repeat split; intros; lra.
  - pose proof (fmax_lb_l (cash l) tc). pose proof (fmax_lb_l (base_treas l) tb).
    repeat split; intros; lra.
Qed.

(** X13.  In the year the reverse mortgage opens with a loan
    outstanding, the loan balance is set to 0 and [risky] keeps its
    value: the payoff is taken from the temporary array [risky[mask]].
    On a path whose drawdown is at most [payoff_dd_threshold] and whose
    [risky] covers the loan balance, no account is debited, nothing is
    drawn on the reverse mortgage and the failure latch is left as it
    was. *)
Theorem lien_payoff_spares_accounts :
  forall (t : nat) (drawdown : Q) (l : Lane),
    Z.of_nat t = rm_open_t a -> has_loan a = true ->
    let l' := rm_open a t drawdown l in
    risky l' = risky l
    /\ loan_bal l' = 0
    /\ (drawdown <= payoff_dd_threshold a -> 0 <= loan_bal l <= risky l ->
        cash l' == cash l /\ base_treas l' == base_treas l
        /\ loan_bucket l' == loan_bucket l /\ rm_bal l' == rm_bal l
        /\ failed l' = failed l /\ fail_idx l' = fail_idx l).
Proof.
  intros t dd l Ht L. cbv zeta. unfold rm_open.
  apply Z.eqb_eq in Ht. rewrite Ht, L. cbv zeta.
  destruct (Qleb dd (payoff_dd_threshold a)) eqn:RF.
  - destruct (take_from (risky l) (loan_bal l)) as [k1 p1] eqn:T0.
    lane_simpl.
    destruct (take_from (base_treas l) _) as [b1 p2] eqn:T1.
    destruct (take_from (cash l) p2) as [c1 p3] eqn:T2.
    destruct (take_from (loan_bucket l) p3) as [u1 p4] eqn:T3.
    lane_simpl. split; [reflexivity|]. split; [reflexivity|].
    intros _ [Hlb Hk].
    pose proof (take_from_drains (risky l) (loan_bal l) Hlb) as D.
    rewrite T0 in D. cbn [fst snd] in D.
    destruct D as (D1 & D2 & _).
    assert (Z1 : p1 == 0) by (destruct (D2 ltac:(lra)) as [Z|[_ Z]]; lra).
    set (lim := rm_limit_open a * (1 + rm_limit_real_growth a)) in *.
    pose proof (fmax_lb_l 0 (lim - rm_bal l)) as Hav.
    assert (Z2 : fmin p1 (fmax 0 (lim - rm_bal l)) == 0).
    { destruct (fmin_cases p1 (fmax 0 (lim - rm_bal l))) as [[? ->]|[? ->]]; lra. }
    assert (Z3 : p1 - fmin p1 (fmax 0 (lim - rm_bal l)) == 0) by lra.
    destruct (take_from_zero (base_treas l) _ Z3) as [B1 B2].
    rewrite T1 in B1, B2. cbn [fst snd] in B1, B2.
    destruct (take_from_zero (cash l) _ B2) as [C1 C2].
    rewrite T2 in C1, C2. cbn [fst snd] in C1, C2.
    destruct (take_from_zero (loan_bucket l) _ C2) as [U1 U2].
    rewrite T3 in U1, U2. cbn [fst snd] in U1, U2.
    assert (NF : Qltb eps p4 = false) by (apply Qltb_false; unfold eps; lra).
    rewrite NF, andb_false_r.
    repeat split; try reflexivity; lra.
  - destruct (take_from (risky l) _) as [k1 p1] eqn:T0.
    lane_simpl.
    destruct (take_from (base_treas l) p1) as [b1 p2] eqn:T1.
    destruct (take_from (cash l) p2) as [c1 p3] eqn:T2.
    destruct (take_from (loan_bucket l) p3) as [u1 p4] eqn:T3.
    lane_simpl. split; [reflexivity|]. split; [reflexivity|].
    intro C. apply Qleb_false in RF. exfalso. lra.
Qed.

(** X14.  The yearly marks: the high-water mark never goes down and is
    at least [risky]; the year's drawdown is not negative, is at most 1
    when [risky] is not negative, and is 0 on a path whose high-water
    mark is not positive; the running maximum never goes down and is at
    least the year's drawdown. *)
Theorem drawdown_range :
  forall l : Lane,
    let l' := mark l in
    let drawdown := drawdown_of (hwm l') (risky l') in
    hwm l <= hwm l' /\ risky l <= hwm l'
    /\ 0 <= drawdown
    /\ (0 <= risky l -> drawdown <= 1)
    /\ (hwm l' <= 0 -> drawdown = 0)
    /\ max_dd_risky l <= max_dd_risky l'
    /\ drawdown <= max_dd_risky l'.
Proof.
  intro l. cbv zeta. unfold mark. cbv zeta. lane_simpl.
  split; [apply fmax_lb_l|]. split; [apply fmax_lb_r|].
  pose proof (fmax_lb_r (hwm l) (risky l)) as Hk.
  set (h := fmax (hwm l) (risky l)) in *.
  assert (D : 0 <= drawdown_of h (risky l)
              /\ (0 <= risky l -> drawdown_of h (risky l) <= 1)
              /\ (h <= 0 -> drawdown_of h (risky l) = 0)).
  { unfold drawdown_of. destruct (Qltb 0 h) eqn:B.
    - apply Qltb_true in B.
      assert (risky l / h <= 1) by (apply Qle_shift_div_r; lra).
      split; [lra|]. split.
      + intro K. assert (0 <= risky l / h) by (apply Qle_shift_div_l; lra). lra.
      + intro C. exfalso. lra.
    - split; [lra|]. split; [intros _; lra | reflexivity]. }
  destruct D as (D1 & D2 & D3).
  split; [exact D1|]. split; [exact D2|]. split; [exact D3|].
  split; [apply fmax_lb_l | apply fmax_lb_r].
Qed.

End MoreStepFacts.

Section IncomeFacts.

Variable a : Args.

(** X30.  Income above the desired spending is saved in full: the
    three asset accounts together gain exactly
    [max(0, income - desired)] in a year with income and nothing
    otherwise, and none of them goes down.  With
    [surplus_allocation = "risky_first"] all of it goes to [risky];
    with any other value cash and Treasuries are filled first, each at
    most up to its target. *)
Theorem income_surplus_is_saved :
  forall (w : list Q) (t : nat) (drawdown : Q) (l : Lane),
    let l' := save_surplus a w t drawdown l in
    let tgt := safe_targets w t (reserve_years a) (reserve_cash_fraction a) in
    let surplus :=
      if Qltb 0 (income_scalar a t)
      then fmax 0 (income_scalar a t - desired a w t drawdown) else 0 in
    cash l' + base_treas l' + risky l' == cash l + base_treas l + risky l + surplus
    /\ cash l <= cash l' /\ base_treas l <= base_treas l' /\ risky l <= risky l'
    /\ loan_bucket l' = loan_bucket l /\ rm_bal l' = rm_bal l
    /\ (if String.eqb (surplus_allocation a) "risky_first"
        then cash l' == cash l /\ base_treas l' == base_treas l
        else cash l' <= fmax (cash l) (fst tgt)
             /\ base_treas l' <= fmax (base_treas l) (snd tgt)).
Proof.
  intros w t dd l. cbv zeta.
  destruct (save_surplus_adds a w t dd l) as (S1 & S2 & S3).
  split; [|split; [exact S1|split; [exact S2|split; [exact S3|]]]].
  - unfold save_surplus.
    destruct (Qltb 0 (income_scalar a t)); [|lra]. cbv zeta.
    set (s := fmax 0 (income_scalar a t - desired a w t dd)).
    destruct (Qltb 0 s) eqn:B.
    + destruct (String.eqb _ _); [lane_simpl; lra|].
      destruct (safe_targets _ _ _ _) as [tc tb]. lane_simpl. lra.
    + apply Qltb_false in B. pose proof (fmax_lb_l 0 (income_scalar a t - desired a w t dd)).
      fold s in H. lra.
  - split; [autorewrite with frame; reflexivity|].
    split; [autorewrite with frame; reflexivity|].
    unfold save_surplus.
    destruct (safe_targets _ _ _ _) as [tc tb] eqn:T. cbn [fst snd].
    pose proof (fmax_lb_l (cash l) tc). pose proof (fmax_lb_l (base_treas l) tb).
    destruct (Qltb 0 (income_scalar a t));
      [|destruct (String.eqb _ _); split; lra].
    cbv zeta. set (s := fmax 0 (income_scalar a t - desired a w t dd)).
    destruct (Qltb 0 s);
      [|destruct (String.eqb _ _); split; lra].
    destruct (String.eqb _ _); [lane_simpl; split; lra|].
    lane_simpl.
    pose proof (fmin_ub_l (fmax 0 (tc - cash l)) s).
    pose proof (fmin_ub_l (fmax 0 (tb - base_treas l))
                          (s - fmin (fmax 0 (tc - cash l)) s)).
    destruct (fmax_cases 0 (tc - cash l)) as [[? E1]|[? E1]]; rewrite E1 in *;
      destruct (fmax_cases 0 (tb - base_treas l)) as [[? E2]|[? E2]]; rewrite E2 in *;
      destruct (fmax_cases (cash l) tc) as [[? ->]|[? ->]];
      destruct (fmax_cases (base_treas l) tb) as [[? ->]|[? ->]];
      split; lra.
Qed.

End IncomeFacts.
(** ** Whole runs *)

Section RunFacts.

(** X15.  When no return is below -100%, after every year [risky] and
    its high-water mark are non-negative on every path and the running
    maximum drawdown of [risky] is between 0 and 1. *)
Theorem risky_never_negative :
  forall (a : Args) (k : nat) (lanes : list Lane),
    returns_at_least (-(1)) (returns a) ->
    lanes_after a k = Ok lanes ->
    Forall (fun l => 0 <= risky l /\ 0 <= hwm l /\ 0 <= max_dd_risky l <= 1) lanes.
Proof.
  intros a k lanes Hret H.
  destruct (lanes_after_run a k lanes H) as (pay & w & _ & _ & Hrun).
  apply (run_years_risky a pay w Hret k lanes Hrun).
Qed.

(** X16.  The failure latch over the years.  After [k] years of the
    horizon, [fail_idx] is between 0 and [n_years] on every path, a
    path has failed exactly when its [fail_idx] is below [k], and it
    has not exactly when [fail_idx] is still [n_years].  One year
    later a failed path is still failed with the same [fail_idx], and a
    path that fails during year [k] gets [fail_idx = k]. *)
Theorem failure_index_latched :
  forall (a : Args) (k : nat) (lanes : list Lane),
    lanes_after a k = Ok lanes -> (k <= n_years a)%nat ->
    Forall (fun l => (0 <= fail_idx l <= Z.of_nat (n_years a))%Z
                     /\ (failed l = true <-> (fail_idx l < Z.of_nat k)%Z)
                     /\ (failed l = false <-> fail_idx l = Z.of_nat (n_years a)))
           lanes
    /\ forall (lanes' : list Lane) (i : nat) (l l' : Lane),
         lanes_after a (S k) = Ok lanes' ->
         nth_error lanes i = Some l -> nth_error lanes' i = Some l' ->
         (failed l = true -> failed l' = true /\ fail_idx l' = fail_idx l)
         /\ (failed l = false -> failed l' = true -> fail_idx l' = Z.of_nat k).
Proof.
  intros a k lanes H Hk.
  destruct (lanes_after_run a k lanes H) as (pay & w & Hpay & Hw & Hrun).
  split.
  - pose proof (run_years_latch_index a pay w k lanes Hrun) as L.
    pose proof (run_years_fail_idx_nonneg a pay w k lanes Hrun) as N.
    rewrite Forall_forall in *. intros l Hl.
    destruct (L l Hl) as [L1 L2]. specialize (N l Hl).
    destruct (failed l) eqn:F.
    + specialize (L1 eq_refl). split; [lia|]. split.
      * split; [intros _; exact L1 | reflexivity].
      * split; [discriminate | intro C; lia].
    + specialize (L2 eq_refl). split; [lia|]. split.
      * split; [discriminate | intro C; lia].
      * split; [intros _; exact L2 | reflexivity].
  - intros lanes' i l l' H' Hi Hi'.
    rewrite (lanes_after_loop a k lanes pay w H Hpay Hw (S k)) in H'.
    simpl in H'. rewrite Hrun in H'. cbn [bind] in H'.
    apply year_step_lanes in H'. destruct H' as (nb & _ & Hl).
    destruct (Hl i l' Hi') as (l0 & r & Hprev & ->).
    assert (l0 = l) by congruence. subst l0.
    destruct (year_lane_latch_step a pay w k nb r l) as [[E1 E2]|(E1 & E2 & E3)].
    + split; [intro F; split; congruence | intros F F'; congruence].
    + split; [intro F; congruence | intros _ _; exact E3].
Qed.

(** X17.  With arguments in range, through the years before the one in
    which the reverse mortgage opens the credit line is 0 on every
    path, nothing is drawn on it, and the use flag is unset. *)
Theorem line_closed_before_opening :
  forall (a : Args) (k : nat) (lanes : list Lane),
    in_range a -> lanes_after a k = Ok lanes ->
    (Z.of_nat k <= rm_open_t a)%Z ->
    Forall (fun l => rm_limit l == 0 /\ rm_bal l == 0 /\ rm_ever_used l = false)
           lanes.
Proof.
  intros a k lanes R H Hk.
  destruct (lanes_after_run a k lanes H) as (pay & w & Hpay & Hw & Hrun).
  apply (run_years_closed a pay w R Hpay (the_w_nonneg a w Hw) k lanes Hrun Hk).
Qed.

(** X18.  The loan balance is one scalar for all paths.  It is 0 after
    the year in which the reverse mortgage opens; with a loan, through
    the years before that it is the value that the payment block stored
    in the latest year (the amortized balance, or 0 past the term);
    and when the reverse mortgage would open before the first year the
    loan is never serviced: the balance stays at the loan amount. *)
Theorem loan_balance_schedule :
  forall (a : Args) (k : nat) (lanes : list Lane) (pay : Q),
    lanes_after a k = Ok lanes -> the_pay a = Ok pay ->
    Forall (fun l =>
              ((0 <= rm_open_t a < Z.of_nat k)%Z -> loan_bal l = 0)
              /\ (has_loan a = true -> (1 <= Z.of_nat k <= rm_open_t a)%Z ->
                  next_loan_bal a pay (k - 1) = Ok (loan_bal l))
              /\ ((rm_open_t a < 0)%Z ->
                  loan_bal l = if has_loan a then inject_Z (loan_amount a) else 0))
           lanes.
Proof.
  intros a k lanes pay H Hpay.
  destruct (lanes_after_run a k lanes H) as (pay' & w & Hpay' & _ & Hrun).
  assert (pay' = pay) by congruence. subst pay'.
  pose proof (run_years_loan_bal a pay w k lanes Hrun) as L.
  rewrite Forall_forall in *. intros l Hl.
  destruct (L l Hl) as (L1 & L2 & L3 & _).
  split; [exact L1|]. split; [exact L2|].
  intro C. apply L3. left. exact C.
Qed.

End RunFacts.
(** ** The loan *)

Section LoanRuns.

Import Loan.

(** X19.  A loan at a zero rate, over a zero term, or at a rate of
    -100% over a positive term makes the payment formula divide by
    zero: the kernel raises [ZeroDivisionError] in its set-up, before
    any year is simulated. *)
Theorem degenerate_loan_raises :
  forall a : Args,
    (0 < loan_amount a)%Z -> (0 < n_years a)%nat ->
    loan_real_rate a == 0 \/ loan_term_years a = 0%Z
    \/ (loan_real_rate a == -(1) /\ (0 < loan_term_years a)%Z) ->
    the_pay a = Raise ZeroDivisionError
    /\ (forall k, lanes_after a k = Raise ZeroDivisionError)
    /\ simulate_once a = Raise ZeroDivisionError.
Proof.
  intros a HP Hn Hdeg.
  assert (Hpay : the_pay a = Raise ZeroDivisionError).
  { unfold the_pay, amort_payment.
    assert (P0 : 0 < inject_Z (loan_amount a)).
    { change 0 with (inject_Z 0). rewrite <- Zlt_Qlt. exact HP. }
    rewrite (positive_principal _ P0). cbv zeta.
    destruct Hdeg as [Z0|[Z0|[Z0 Ht]]].
    - rewrite py_pow_defined by (intros [C _]; lra). cbn [bind].
      unfold py_div.
      assert (E : 1 - (1 + loan_real_rate a) ^ (- loan_term_years a) == 0).
      { assert (E1 : 1 + loan_real_rate a == 1) by lra.
        rewrite E1. rewrite Qpower_1. lra. }
      apply Qeq_bool_iff in E. rewrite E. reflexivity.
    - rewrite Z0. rewrite py_pow_defined by (intros [_ C]; lia). cbn [bind].
      unfold py_div.
      assert (E : 1 - (1 + loan_real_rate a) ^ (- 0) == 0).
      { change ((1 + loan_real_rate a) ^ (- 0)) with 1. lra. }
      apply Qeq_bool_iff in E. rewrite E. reflexivity.
    - unfold py_pow.
      assert (E : 1 + loan_real_rate a == 0) by lra.
      apply Qeq_bool_iff in E. rewrite E.
      assert (N : (- loan_term_years a <? 0)%Z = true) by (apply Z.ltb_lt; lia).
      rewrite N. reflexivity. }
  assert (Hl : forall k, lanes_after a k = Raise ZeroDivisionError).
  { intro k. unfold lanes_after. destruct (n_years a); [lia|].
    rewrite Hpay. reflexivity. }
  split; [exact Hpay|]. split; [exact Hl|].
  unfold simulate_once. rewrite Hl. reflexivity.
Qed.

(** X20.  The amortization schedule of a loan at a positive rate over
    a positive term: the payment exceeds the first year's interest;
    each balance is the balance before it with a year's interest less
    the payment, and is below it and not above the principal; the
    balance is not negative within the term and is 0 after the last
    payment. *)
Theorem amortization_schedule :
  forall (P r pay : Q) (n : Z),
    0 < P -> 0 < r -> (0 < n)%Z ->
    amort_payment P r n = Ok pay ->
    r * P < pay
    /\ (exists b, loan_balance_after_k P r pay n = Ok b /\ b == 0)
    /\ forall k : Z, (0 <= k)%Z ->
         exists b b',
           loan_balance_after_k P r pay k = Ok b
           /\ loan_balance_after_k P r pay (k + 1) = Ok b'
           /\ b' == b * (1 + r) - pay
           /\ b' < b /\ b <= P
           /\ ((k <= n)%Z -> 0 <= b).
Proof.
  intros P r pay n HP Hr Hn Hpay.
  assert (Hq : ~ 1 + r == 0) by lra.
  assert (Hbal : forall k, loan_balance_after_k P r pay k
                           = Ok (P * (1 + r) ^ k - pay * (((1 + r) ^ k - 1) / r))).
  { intro k. unfold loan_balance_after_k. rewrite (positive_principal _ HP).
    cbv zeta. rewrite py_pow_defined by tauto. cbn [bind].
    rewrite py_div_defined by lra. reflexivity. }
  pose proof Hpay as Hpay'.
  unfold amort_payment in Hpay. rewrite (positive_principal _ HP) in Hpay.
  cbv zeta in Hpay. rewrite py_pow_defined in Hpay by tauto.
  cbn [bind] in Hpay. unfold py_div in Hpay.
  destruct (Qeq_bool _ 0); [discriminate|]. apply Ok_inj in Hpay.
  assert (Hv : 1 < (1 + r) ^ n) by (apply Qpower_1_lt; [lra | lia]).
  assert (Epay : pay == r * P * (1 + r) ^ n / ((1 + r) ^ n - 1)).
  { rewrite <- Hpay. rewrite Qpower_opp. field. split; lra. }
  clear Hpay. set (v := (1 + r) ^ n) in *.
  assert (Hpos : r * P < pay).
  { rewrite Epay. apply Qlt_shift_div_l; nra. }
  split; [exact Hpos|]. split.
  - eexists. split; [apply Hbal|]. fold v. rewrite Epay. field. split; lra.
  - intros k Hk. do 2 eexists. split; [apply Hbal|]. split; [apply Hbal|].
    assert (Hu : 1 <= (1 + r) ^ k) by (apply Qpower_1_le; [lra | lia]).
    assert (Eu : (1 + r) ^ (k + 1) == (1 + r) ^ k * (1 + r)).
    { rewrite Qpower_plus by exact Hq. change ((1 + r) ^ 1) with (1 + r).
      reflexivity. }
    rewrite Eu. set (u := (1 + r) ^ k) in *.
    assert (Eb : P * u - pay * ((u - 1) / r) == P - (u - 1) * (pay / r - P)).
    { field. lra. }
    assert (Hpr : 0 < pay / r - P).
    { assert (P < pay / r) by (apply Qlt_shift_div_l; lra). lra. }
    split; [field; lra|].
    split.
    { assert (E' : P * (u * (1 + r)) - pay * ((u * (1 + r) - 1) / r)
                   == P * u - pay * ((u - 1) / r) - u * r * (pay / r - P)).
      { field. lra. }
      rewrite E'. set (d := pay / r - P) in *.
      assert (0 < u * r) by nra.
      assert (0 < u * r * d) by nra. lra. }
    split.
    { rewrite Eb. set (d := pay / r - P) in *.
      assert (0 <= (u - 1) * d) by nra. lra. }
    intro Hkn.
    destruct (Z.eq_dec k 0) as [->|Hk0].
    + subst u. change ((1 + r) ^ 0) with 1.
      assert (E0 : P * 1 - pay * ((1 - 1) / r) == P) by (field; lra).
      rewrite E0. lra.
    + apply (amortized_balance_nonneg P r pay _ n k HP Hr ltac:(lia) Hpay').
      apply Hbal.
Qed.

(** X21.  What a returning call has passed.  Whenever [simulate_once]
    returns, the horizon is not empty, there is at least one path, the
    returns array has [n_sims] rows or a single one, the loan payment
    was computed, and every year of the horizon was reached with one
    lane per path.  So a call with [n_years = 0], with [n_sims <= 0] or
    with an array of another number of rows always raises. *)
Theorem simulate_once_requires :
  forall (a : Args) (m : Metrics),
    simulate_once a = Ok m ->
    (0 < n_years a)%nat /\ (0 < n_sims a)%Z /\ broadcastable a = true
    /\ (exists pay, the_pay a = Ok pay)
    /\ forall k, (k <= n_years a)%nat ->
         exists lanes, lanes_after a k = Ok lanes
                       /\ List.length lanes = Z.to_nat (n_sims a).
Proof.
  intros a m H. unfold simulate_once in H.
  destruct (lanes_after a (n_years a)) as [final|e] eqn:L; [|discriminate].
  clear H.
  destruct (lanes_after_run a _ _ L) as (pay & w & Hpay & Hw & Hrun).
  assert (Hshape : (0 < n_years a)%nat /\ (0 < n_sims a)%Z
                   /\ broadcastable a = true).
  { revert L. unfold lanes_after. destruct (n_years a); [discriminate|].
    rewrite Hpay, Hw. cbn [bind].
    destruct (n_sims a <? 0)%Z eqn:S1; [discriminate|].
    destruct (n_sims a =? 0)%Z eqn:S2; [discriminate|].
    destruct (broadcastable a); [|discriminate].
    intros _. apply Z.ltb_ge in S1. apply Z.eqb_neq in S2.
    split; [lia|]. split; [lia | reflexivity]. }
  destruct Hshape as (Hy & Hs & Hb).
  split; [exact Hy|]. split; [exact Hs|]. split; [exact Hb|].
  split; [exists pay; exact Hpay|].
  assert (Hdown : forall j k, (k + j = n_years a)%nat ->
            exists lanes, lanes_after a k = Ok lanes).
  { induction j as [|j IH]; intros k Hk.
    - replace k with (n_years a) by lia. exists final. exact L.
    - destruct (IH (S k) ltac:(lia)) as [next Hn].
      apply (lanes_after_earlier a k next Hn). }
  intros k Hk. destruct (Hdown (n_years a - k)%nat k ltac:(lia)) as [lanes Hl].
  exists lanes. split; [exact Hl|].
  rewrite (lanes_after_loop a _ _ pay w L Hpay Hw k) in Hl.
  apply (run_years_length a pay w k lanes Hb ltac:(lia) Hl).
Qed.

End LoanRuns.
(** ** Metrics *)

Section MetricFacts.

Import Mortality.

(** X22.  Whenever [simulate_once] returns, the two success
    probabilities and the share of paths that drew on the reverse
    mortgage are between 0 and 1, and the median remaining home equity
    is not negative.  When no return is below -100%, the median of the
    maximum drawdown of [risky] is between 0 and 1 and the median final
    [risky] is not negative. *)
Theorem metrics_in_range :
  forall (a : Args) (m : Metrics),
    simulate_once a = Ok m ->
    0 <= p_success_death_weighted m <= 1
    /\ 0 <= p_success_to_age_99 m <= 1
    /\ 0 <= p_any_rm_draw m <= 1
    /\ 0 <= home_equity_remaining_median m
    /\ (returns_at_least (-(1)) (returns a) ->
        0 <= median_max_dd_risky m <= 1 /\ 0 <= risky_end_median m).
Proof.
  intros a m H.
  destruct (simulate_once_metrics a m H) as (lanes & pp & Hl & Hne & Hd & ->).
  cbn [p_success_death_weighted p_success_to_age_99 p_any_rm_draw
       home_equity_remaining_median median_max_dd_risky risky_end_median].
  destruct (death_weighted_success_range _ _ _ Hd) as [D1 D2].
  assert (Hmap : forall f : Lane -> Q, map f lanes <> []).
  { intros f C. apply map_eq_nil in C. contradiction. }
  split; [exact D1|]. split; [exact D2|].
  split; [apply share_bounds, Hne|].
  split.
  - apply np_median_lower; [apply Hmap|]. apply Forall_map, Forall_forall.
    intros l _. unfold home_equity_remaining. apply fmax_lb_l.
  - intro Hret.
    destruct (lanes_after_run a _ lanes Hl) as (pay & w & _ & _ & Hrun).
    pose proof (run_years_risky a pay w Hret _ lanes Hrun) as K.
    split; [split|].
    + apply np_median_lower; [apply Hmap|]. apply Forall_map.
      apply (Forall_impl _ (P := fun l => 0 <= risky l /\ 0 <= hwm l
                                     /\ 0 <= max_dd_risky l <= 1));
        [intros l Hx; tauto | exact K].
    + apply np_median_upper; [apply Hmap|]. apply Forall_map.
      apply (Forall_impl _ (P := fun l => 0 <= risky l /\ 0 <= hwm l
                                     /\ 0 <= max_dd_risky l <= 1));
        [intros l Hx; tauto | exact K].
    + apply np_median_lower; [apply Hmap|]. apply Forall_map.
      apply (Forall_impl _ (P := fun l => 0 <= risky l /\ 0 <= hwm l
                                     /\ 0 <= max_dd_risky l <= 1));
        [intros l Hx; tauto | exact K].
Qed.

(** X23.  The extremes of the success metrics on a non-empty horizon
    and a non-empty array of paths: when no path has failed both
    probabilities are 1, and when every path failed in the first year
    both are 0. *)
Theorem success_at_the_extremes :
  forall fail_idx ages_model : list Z,
    fail_idx <> [] -> ages_model <> [] ->
    let horizon := Z.of_nat (List.length ages_model) in
    (Forall (fun f => (horizon <= f)%Z) fail_idx ->
     exists p_dw p99,
       death_weighted_success fail_idx ages_model = Ok (p_dw, p99)
       /\ p_dw == 1 /\ p99 == 1)
    /\ (Forall (fun f => (f <= 0)%Z) fail_idx ->
        exists p_dw p99,
          death_weighted_success fail_idx ages_model = Ok (p_dw, p99)
          /\ p_dw == 0 /\ p99 == 0).
Proof.
  intros fail_idx ages_model Hf Ha horizon.
  assert (Hn : (0 < List.length ages_model)%nat)
    by (destruct ages_model; [congruence | simpl; lia]).
  pose proof weights_length as [WL1 WL2].
  split; intro H; rewrite Forall_forall in H;
    rewrite (death_weighted_success_value _ _ Hf Ha); cbv zeta;
    do 2 eexists; (split; [reflexivity|]); rewrite np_sum_total.
  - split.
    + rewrite (weighted_sum_const 1).
      * generalize weights_total. generalize (total (snd mortality_weights)).
        intros T W. lra.
      * rewrite !length_map. congruence.
      * apply Forall_map.
        apply (Forall_impl (fun r => 1 - r == 1) (P := fun r => r == 0));
          [intros r Hr; lra|].
        apply (ruin_by_age_entries fail_idx ages_model (fun r => r == 0) Ha).
        intros t Ht. apply share_none. intros f Hin. specialize (H f Hin).
        apply Z.leb_gt. subst horizon. lia.
    + apply share_all; [exact Hf|]. intros f Hin. specialize (H f Hin).
      apply Z.leb_le. exact H.
  - split.
    + rewrite (weighted_sum_const 0).
      * generalize (total (snd mortality_weights)). intro T. lra.
      * rewrite !length_map. congruence.
      * apply Forall_map.
        apply (Forall_impl (fun r => 1 - r == 0) (P := fun r => r == 1));
          [intros r Hr; lra|].
        apply (ruin_by_age_entries fail_idx ages_model (fun r => r == 1) Ha).
        intros t Ht. apply share_all; [exact Hf|]. intros f Hin.
        specialize (H f Hin). apply Z.leb_le. lia.
    + apply share_none. intros f Hin. specialize (H f Hin).
      apply Z.leb_gt. lia.
Qed.

Lemma success_at_the_extremes_witness :
  (exists p_dw p99,
     death_weighted_success [2%Z; 2%Z] [98%Z; 99%Z] = Ok (p_dw, p99)
     /\ p_dw == 1 /\ p99 == 1)
  /\ (exists p_dw p99,
        death_weighted_success [0%Z; 0%Z] [98%Z; 99%Z] = Ok (p_dw, p99)
        /\ p_dw == 0 /\ p99 == 0).
Proof.
  split.
  - apply (success_at_the_extremes [2%Z; 2%Z] [98%Z; 99%Z]);
      [discriminate | discriminate |].
    repeat constructor; simpl; lia.
  - apply (success_at_the_extremes [0%Z; 0%Z] [98%Z; 99%Z]);
      [discriminate | discriminate |].
    repeat constructor; simpl; lia.
Defined.

(** X24.  With arguments in range, when the reverse mortgage would
    open only after the horizon, no path ever draws on it: the share
    of paths with a draw and the median final balance are 0, and the
    median remaining home equity is the home value (or 0 when that is
    negative). *)
Theorem unopened_line_reports_no_draw :
  forall (a : Args) (m : Metrics),
    in_range a -> (Z.of_nat (n_years a) <= rm_open_t a)%Z ->
    simulate_once a = Ok m ->
    p_any_rm_draw m == 0
    /\ rm_balance_end_median m == 0
    /\ home_equity_remaining_median m == fmax 0 (home_value_real a).
Proof.
  intros a m R Hopen H.
  destruct (simulate_once_metrics a m H) as (lanes & pp & Hl & Hne & _ & ->).
  cbn [p_any_rm_draw rm_balance_end_median home_equity_remaining_median].
  destruct (lanes_after_run a _ lanes Hl) as (pay & w & Hpay & Hw & Hrun).
  pose proof (run_years_closed a pay w R Hpay (the_w_nonneg a w Hw) _ lanes Hrun Hopen)
    as C.
  assert (Hmap : forall f : Lane -> Q, map f lanes <> []).
  { intros f E. apply map_eq_nil in E. contradiction. }
  split; [|split].
  - apply share_none. intros l Hin. rewrite Forall_forall in C.
    apply (C l Hin).
  - apply Qle_antisym.
    + apply np_median_upper; [apply Hmap|]. apply Forall_map.
      apply (Forall_impl _ (P := fun l => rm_limit l == 0 /\ rm_bal l == 0
                                     /\ rm_ever_used l = false));
        [intros l (_ & Z0 & _); lra | exact C].
    + apply np_median_lower; [apply Hmap|]. apply Forall_map.
      apply (Forall_impl _ (P := fun l => rm_limit l == 0 /\ rm_bal l == 0
                                     /\ rm_ever_used l = false));
        [intros l (_ & Z0 & _); lra | exact C].
  - assert (E : forall l, rm_bal l == 0 ->
                  home_equity_remaining a l == fmax 0 (home_value_real a)).
    { intros l Z0. unfold home_equity_remaining.
      destruct (fmax_cases 0 (home_value_real a - rm_bal l)) as [[? ->]|[? ->]];
        destruct (fmax_cases 0 (home_value_real a)) as [[? ->]|[? ->]]; lra. }
    apply Qle_antisym.
    + apply np_median_upper; [apply Hmap|]. apply Forall_map.
      apply (Forall_impl _ (P := fun l => rm_limit l == 0 /\ rm_bal l == 0
                                     /\ rm_ever_used l = false));
        [intros l (_ & Z0 & _); rewrite (E l Z0); lra | exact C].
    + apply np_median_lower; [apply Hmap|]. apply Forall_map.
      apply (Forall_impl _ (P := fun l => rm_limit l == 0 /\ rm_bal l == 0
                                     /\ rm_ever_used l = false));
        [intros l (_ & Z0 & _); rewrite (E l Z0); lra | exact C].
Qed.

End MetricFacts.
(** ** The optimizer and the API *)

Section OptimizerFacts.

Import Optimizer.

(** X25.  With a weight between 0 and 1, every choice of the objective
    lies between the smaller and the larger of the two success
    probabilities; ["both_min"] is never above any other choice; and a
    metric name that is none of ["age_99"], ["both_min"] and
    ["both_weighted"] selects the death-weighted probability. *)
Theorem objective_between_metrics :
  forall (metric : string) (both_weight : Q) (m : Metrics),
    0 <= both_weight <= 1 ->
    let p_dw := p_success_death_weighted m in
    let p99 := p_success_to_age_99 m in
    fmin p_dw p99 <= objective_p metric both_weight m
    /\ objective_p metric both_weight m <= fmax p_dw p99
    /\ objective_p "both_min" both_weight m <= objective_p metric both_weight m
    /\ (String.eqb metric "age_99" = false -> String.eqb metric "both_min" = false ->
        String.eqb metric "both_weighted" = false ->
        objective_p metric both_weight m = p_dw).
Proof.
  intros metric bw m Hbw. cbv zeta. unfold objective_p. cbv zeta.
  change (String.eqb "both_min" "age_99") with false.
  change (String.eqb "both_min" "both_min") with true. cbv iota.
  set (x := p_success_death_weighted m). set (y := p_success_to_age_99 m).
  pose proof (fmin_ub_l x y). pose proof (fmin_ub_r x y).
  pose proof (fmax_lb_l x y). pose proof (fmax_lb_r x y).
  assert (fmin x y <= fmax x y) by lra.
  assert (W : fmin x y <= bw * x + (1 - bw) * y <= fmax x y).
  { destruct (fmin_cases x y) as [[? ->]|[? ->]];
      destruct (fmax_cases x y) as [[? ->]|[? ->]]; split; nra. }
  destruct (String.eqb metric "age_99");
    [|destruct (String.eqb metric "both_min");
      [|destruct (String.eqb metric "both_weighted")]];
    repeat split; intros; try lra; try discriminate; reflexivity.
Qed.

(** X26.  When [e_lo <= e_hi] and [e_hi] is not negative, the spending
    level that [find_max_E] returns is at least [e_lo] and at most the
    larger of [e_hi] and 749999. *)
Theorem find_max_E_bracket :
  forall (fuel : nat) (rets : Returns) (target : Q) (e_lo e_hi iters : Z)
         (metric : string) (both_weight : Q) (kw : Args) (E : Z) (m : Metrics),
    (e_lo <= e_hi)%Z -> (0 <= e_hi)%Z ->
    find_max_E fuel rets target e_lo e_hi iters metric both_weight kw = Ok (E, m) ->
    (e_lo <= E <= Z.max e_hi 749999)%Z.
Proof.
  intros fuel rets target e_lo e_hi iters metric bw kw E m Hb H0.
  unfold find_max_E, find_max_E_state, search.
  set (sim := invoke kw rets). set (obj := objective_p metric bw).
  destruct (sim e_lo) as [m0|e] eqn:S0; [|discriminate]. cbn [bind].
  destruct (Qltb (obj m0) target) eqn:B.
  - cbn [bind snd lo metrics_lo]. intro H. apply Ok_inj in H.
    injection H as <- _. lia.
  - apply Qltb_false in B.
    destruct (sim e_hi) as [mhi|e] eqn:Shi; [|discriminate]. cbn [bind].
    destruct (expand sim target obj fuel _ mhi) as [s1|e] eqn:X; [|discriminate].
    cbn [bind].
    destruct (bisect sim target obj (Z.to_nat iters) s1) as [s2|e] eqn:Y;
      [|discriminate].
    cbn [bind snd]. intro H. apply Ok_inj in H. injection H as <- _.
    assert (P0 : lo_passes sim target obj
                   (mkSearch e_lo m0 e_hi [(e_lo, m0); (e_hi, mhi)]))
      by (split; [exact S0 | exact B]).
    destruct (expand_sound sim target obj fuel _ mhi s1 X P0 Shi) as [P1 _].
    apply expand_range in X; cbn [lo hi] in X; [|exact Hb | exact H0].
    apply bisect_range in Y; [|lia | exact P1]. lia.
Qed.

(** X27.  The expansion never ends when both [e_lo] and [e_hi] meet the
    target and [e_hi] is 0, 1, 2 or 3: [int(hi * 1.25)] is [hi] again,
    so the loop evaluates the same level for ever. *)
Theorem expansion_stalls_below_four :
  forall (fuel : nat) (rets : Returns) (target : Q) (e_lo e_hi iters : Z)
         (metric : string) (both_weight : Q) (kw : Args) (m0 mhi : Metrics),
    (0 <= e_hi <= 3)%Z ->
    invoke kw rets e_lo = Ok m0 -> target <= objective_p metric both_weight m0 ->
    invoke kw rets e_hi = Ok mhi -> target <= objective_p metric both_weight mhi ->
    find_max_E fuel rets target e_lo e_hi iters metric both_weight kw
    = Raise Diverges.
Proof.
  intros fuel rets target e_lo e_hi iters metric bw kw m0 mhi Hh S0 P0 Sh Ph.
  unfold find_max_E, find_max_E_state, search.
  rewrite S0. cbn [bind]. rewrite (proj2 (Qltb_false _ _) P0).
  rewrite Sh. cbn [bind].
  rewrite (expand_stuck (invoke kw rets) target (objective_p metric bw) e_hi mhi);
    [reflexivity | lia | | exact Sh | exact Ph | reflexivity].
  assert (C : (e_hi = 0 \/ e_hi = 1 \/ e_hi = 2 \/ e_hi = 3)%Z) by lia.
  destruct C as [-> | [-> | [-> | ->]]]; reflexivity.
Qed.

End OptimizerFacts.

Section ApiFacts.

Import Optimizer Api.

Variable normal : Z -> nat -> nat -> Q -> Q -> list (list Q).

(** X28.  The rows of a response follow the grid: one row per grid
    point, in sweep order (start portfolio outermost, loan amount
    innermost), each carrying its own coordinates; in ["single"] mode
    a row holds [E_real_per_year = int(e_fixed)] and no
    [max_E_real_per_year], in any other mode the reverse.  With an
    empty grid list and a returns array that can be generated the
    response has no rows. *)
Theorem response_follows_grid :
  forall (fuel : nat) (cfg : ScenarioConfig),
    (forall rows,
        _run_simulation normal fuel cfg = Ok rows ->
        map coordinates rows = grid cfg
        /\ List.length rows
           = (List.length (start_portfolios cfg)
              * (List.length (reserve_years_list cfg)
                 * List.length (loan_amounts cfg)))%nat
        /\ Forall (fun g =>
                     if String.eqb (mode cfg) "single"
                     then max_E_real_per_year g = None
                          /\ E_real_per_year g = Some (py_int (e_fixed cfg))
                     else E_real_per_year g = None
                          /\ max_E_real_per_year g <> None) rows)
    /\ (forall rets,
          request_returns normal cfg = Ok rets -> grid cfg = [] ->
          _run_simulation normal fuel cfg = Ok []).
Proof.
  intros fuel cfg. split.
  - intros rows H. unfold _run_simulation in H.
    destruct (request_returns normal cfg) as [rets|e]; [|discriminate].
    cbn [bind] in H. apply collect_Forall2 in H.
    assert (Hlen : List.length (grid cfg)
                   = (List.length (start_portfolios cfg)
                      * (List.length (reserve_years_list cfg)
                         * List.length (loan_amounts cfg)))%nat).
    { unfold grid. apply flat_map_length_const. intro sp.
      apply flat_map_length_const. intro ry. apply length_map. }
    assert (Hrow : forall p g,
               grid_point fuel cfg rets p = Ok g ->
               coordinates g = p
               /\ (if String.eqb (mode cfg) "single"
                   then max_E_real_per_year g = None
                        /\ E_real_per_year g = Some (py_int (e_fixed cfg))
                   else E_real_per_year g = None
                        /\ max_E_real_per_year g <> None)).
    { intros [[sp ry] la] g Hg. unfold grid_point in Hg.
      destruct (String.eqb (mode cfg) "single").
      - destruct (invoke _ _ _); [|discriminate]. cbn [bind] in Hg.
        apply Ok_inj in Hg. subst g. repeat split; reflexivity.
      - destruct (find_max_E _ _ _ _ _ _ _ _ _); [|discriminate].
        cbn [bind] in Hg. apply Ok_inj in Hg. subst g.
        split; [reflexivity|]. split; [reflexivity | discriminate]. }
    split; [|split].
    + clear Hlen. induction H as [|p g ps gs Hg _ IH]; [reflexivity|].
      simpl. f_equal; [apply (Hrow p g Hg) | exact IH].
    + rewrite <- Hlen. symmetry. apply (Forall2_length H).
    + clear Hlen. induction H as [|p g ps gs Hg _ IH]; constructor;
        [apply (Hrow p g Hg) | exact IH].
  - intros rets Hr Hg. unfold _run_simulation. rewrite Hr, Hg. reflexivity.
Qed.

(** X29.  [generate_returns] refuses a negative number of paths or of
    years and a negative volatility with [ValueError].  The array it
    returns has no entry below -99%, so in every run of the kernel on
    an array generated for a request, [risky] is never negative at the
    end of a year. *)
Theorem generated_returns_clipped :
  forall (seed n_sims n_years : Z) (mu vol : Q),
    ((n_sims < 0)%Z \/ (n_years < 0)%Z \/ vol < 0 ->
     generate_returns normal seed n_sims n_years mu vol = Raise ValueError)
    /\ (forall rets,
          generate_returns normal seed n_sims n_years mu vol = Ok rets ->
          shape1 rets = Z.to_nat n_years
          /\ returns_at_least (-(99 # 100)) rets
          /\ forall (a : Args) (k : nat) (lanes : list Lane),
               returns a = rets -> lanes_after a k = Ok lanes ->
               Forall (fun l => 0 <= risky l) lanes).
Proof.
  intros seed n_sims n_years mu vol. unfold generate_returns. split.
  - intro H. destruct (seed <? 0)%Z; [reflexivity|].
    destruct H as [H|[H|H]].
    + apply Z.ltb_lt in H. rewrite H. reflexivity.
    + apply Z.ltb_lt in H. rewrite H, orb_true_r. reflexivity.
    + destruct (_ || _); [reflexivity|].
      apply Qltb_true in H. rewrite H. reflexivity.
  - intros rets H.
    destruct (seed <? 0)%Z; [discriminate|].
    destruct ((n_sims <? 0) || (n_years <? 0))%Z; [discriminate|].
    destruct (Qltb vol 0); [discriminate|].
    apply Ok_inj in H. subst rets. cbn [shape1].
    assert (C : forall b, b <= -(99 # 100) ->
                returns_at_least b
                  (mkReturns
                     (map (map (fun x => fmax x (-(99 # 100))))
                          (normal seed (Z.to_nat n_sims) (Z.to_nat n_years) mu vol))
                     (Z.to_nat n_years))).
    { intros b Hb. unfold returns_at_least. cbn [rows].
      apply Forall_map, Forall_forall. intros row _.
      apply Forall_map, Forall_forall. intros x _.
      pose proof (fmax_lb_r x (-(99 # 100))). lra. }
    split; [reflexivity|]. split; [apply C; lra|].
    intros a k lanes Ha Hl.
    destruct (lanes_after_run a k lanes Hl) as (pay & w & _ & _ & Hrun).
    assert (Hret : returns_at_least (-(1)) (returns a)) by (rewrite Ha; apply C; lra).
    pose proof (run_years_risky a pay w Hret k lanes Hrun) as K.
    apply (Forall_impl _ (P := fun l => 0 <= risky l /\ 0 <= hwm l
                                   /\ 0 <= max_dd_risky l <= 1));
      [intros l Hx; tauto | exact K].
Qed.

End ApiFacts.
(** ** The further properties on the scenarios *)

Section ExtrasOnScenarios.

Import Optimizer Api Scenarios.

Lemma scenario_in_range (p : Q) (age : Z) (rets : list Q) (e : Z) (floor : Q)
      (rm_age : Z) (home rm_rate : Q) (loan : Z) :
  0 <= p -> 0 <= floor -> 0 <= home -> -(1) <= rm_rate <= 0 ->
  in_range (scenario p age rets e floor rm_age home rm_rate loan).
Proof.
  intros Hp Hf Hh Hr. constructor; cbn; try split; lra.
Defined.

Lemma crash_in_range : in_range (crash 60).
Proof. apply scenario_in_range; lra. Defined.

Lemma indebted_in_range : in_range indebted.
Proof. apply scenario_in_range; lra. Defined.

(** X8 on the first year of [crash] at a drawdown of 20%. *)
Lemma desired_within_plan_witness :
  0 <= floor_amt (crash 60) [60; 60; 60; 60] 0
  /\ floor_amt (crash 60) [60; 60; 60; 60] 0
     <= desired (crash 60) [60; 60; 60; 60] 0 (2 # 10)
  /\ desired (crash 60) [60; 60; 60; 60] 0 (2 # 10) <= 60.
Proof.
  destruct (desired_within_plan (crash 60) [60; 60; 60; 60] 0 (2 # 10))
    as (H1 & H2 & H3 & _);
    [simpl; lra | vm_compute; discriminate | cbn; lra | cbn; lra |].
  split; [exact H1|]. split; [exact H2 | exact H3].
Defined.

(** X9 on [sample_lane] in the first year of [crash]. *)
Lemma spend_assets_range_witness :
  let l1 := check_floor (crash 60) 0 110 sample_lane in
  let spend := spend_assets (crash 60) [60; 60; 60; 60] 0 0 110 l1 in
  floor_need_assets (crash 60) 0 <= spend /\ spend <= 110 + eps.
Proof.
  destruct (spend_assets_range (crash 60) [60; 60; 60; 60] 0 0 110 sample_lane)
    as [_ H].
  destruct (H eq_refl) as (H1 & _ & H3). split; [exact H1 | exact H3].
Defined.

(** X11 on [sample_lane] in the first year of [crash]. *)
Lemma surviving_path_is_funded_witness :
  let mf := max_feasible (crash 60) 0 sample_lane in
  let l1 := check_floor (crash 60) 0 mf
              (save_surplus (crash 60) [60; 60; 60; 60] 0 0 sample_lane) in
  let spend := spend_assets (crash 60) [60; 60; 60; 60] 0 0 mf l1 in
  0 <= unfunded (crash 60) 0 spend l1 <= eps.
Proof.
  apply (surviving_path_is_funded (crash 60) [60; 60; 60; 60] 0 0 sample_lane
                                  crash_in_range).
  - unfold balances_ok, sample_lane. lane_simpl. repeat split; lra.
  - reflexivity.
Defined.

(** X12 on [sample_lane], whose reserve is below its targets. *)
Lemma refill_tops_up_reserve_witness :
  let l' := refill (crash 60) [60; 60; 60; 60] 0 0 sample_lane in
  0 <= risky l'
  /\ cash l' + base_treas l' + risky l'
     == cash sample_lane + base_treas sample_lane + risky sample_lane.
Proof.
  destruct (refill_tops_up_reserve (crash 60) [60; 60; 60; 60] 0 0 sample_lane)
    as (H1 & _ & _ & H4 & _).
  split; [apply H4; simpl; lra | exact H1].
Defined.

(** X13 on [sample_lane] in the year the reverse mortgage of [indebted]
    opens. *)
Lemma lien_payoff_spares_accounts_witness :
  let l' := rm_open indebted 103 0 sample_lane in
  risky l' = 100 /\ loan_bal l' = 0
  /\ cash l' == 5 /\ base_treas l' == 5 /\ loan_bucket l' == 10 /\ rm_bal l' == 0.
Proof.
  destruct (lien_payoff_spares_accounts indebted 103 0 sample_lane eq_refl eq_refl)
    as (H1 & H2 & H3).
  destruct H3 as (C1 & C2 & C3 & C4 & _); [cbn; lra | simpl; lra |].
  split; [exact H1|]. split; [exact H2|].
  split; [exact C1|]. split; [exact C2|]. split; [exact C3 | exact C4].
Defined.

(** X14 on [sample_lane]: a drawdown of one half. *)
Lemma drawdown_range_witness :
  let l' := mark sample_lane in
  0 <= drawdown_of (hwm l') (risky l') <= 1.
Proof.
  destruct (drawdown_range sample_lane) as (_ & _ & H3 & H4 & _).
  split; [exact H3 | apply H4; simpl; lra].
Defined.

(** X15 on [crash], whose returns are -50%. *)
Lemma risky_never_negative_witness :
  Forall (fun l => 0 <= risky l /\ 0 <= hwm l /\ 0 <= max_dd_risky l <= 1)
         (lanes_of (lanes_after (crash 60) 4)).
Proof.
  apply (risky_never_negative (crash 60) 4).
  - repeat constructor; lra.
  - vm_compute. reflexivity.
Defined.

(** X16 on [crash] after two years. *)
Lemma failure_index_latched_witness :
  Forall (fun l => (0 <= fail_idx l <= 4)%Z
                   /\ (failed l = true <-> (fail_idx l < 2)%Z)
                   /\ (failed l = false <-> fail_idx l = 4%Z))
         (lanes_of (lanes_after (crash 60) 2)).
Proof.
  destruct (failure_index_latched (crash 60) 2 (lanes_of (lanes_after (crash 60) 2)))
    as [H _]; [vm_compute; reflexivity | vm_compute; lia | exact H].
Defined.

(** X17 on [crash], whose reverse mortgage never opens. *)
Lemma line_closed_before_opening_witness :
  Forall (fun l => rm_limit l == 0 /\ rm_bal l == 0 /\ rm_ever_used l = false)
         (lanes_of (lanes_after (crash 60) 4)).
Proof.
  apply (line_closed_before_opening (crash 60) 4 _ crash_in_range).
  - vm_compute. reflexivity.
  - vm_compute. discriminate.
Defined.

(** X18 on [indebted] after two years. *)
Lemma loan_balance_schedule_witness :
  Forall (fun l => next_loan_bal indebted (value_of (the_pay indebted)) 1
                   = Ok (loan_bal l))
         (lanes_of (lanes_after indebted 2)).
Proof.
  pose proof (loan_balance_schedule indebted 2 (lanes_of (lanes_after indebted 2))
                (value_of (the_pay indebted))) as H.
  specialize (H ltac:(vm_compute; reflexivity) ltac:(vm_compute; reflexivity)).
  apply (Forall_impl _ (P := fun l =>
           ((0 <= rm_open_t indebted < Z.of_nat 2)%Z -> loan_bal l = 0)
           /\ (has_loan indebted = true -> (1 <= Z.of_nat 2 <= rm_open_t indebted)%Z ->
               next_loan_bal indebted (value_of (the_pay indebted)) (2 - 1)
               = Ok (loan_bal l))
           /\ ((rm_open_t indebted < 0)%Z ->
               loan_bal l = if has_loan indebted
                            then inject_Z (loan_amount indebted) else 0)));
    [|exact H].
  intros l (_ & H2 & _). apply H2; [reflexivity | vm_compute; split; discriminate].
Defined.

(** X19 on [indebted] at a loan rate of 0. *)
Lemma degenerate_loan_raises_witness :
  simulate_once (with_loan_rate indebted 0) = Raise ZeroDivisionError.
Proof.
  apply (degenerate_loan_raises (with_loan_rate indebted 0));
    [reflexivity | cbn; lia | left; reflexivity].
Defined.

(** X20 on a loan of 100 at 100% over two years. *)
Lemma amortization_schedule_witness :
  1 * 100 < value_of (Loan.amort_payment 100 1 2)
  /\ exists b, Loan.loan_balance_after_k 100 1 (value_of (Loan.amort_payment 100 1 2)) 2
               = Ok b /\ b == 0.
Proof.
  destruct (amortization_schedule 100 1 (value_of (Loan.amort_payment 100 1 2)) 2)
    as (H1 & H2 & _); [lra | lra | lia | vm_compute; reflexivity |].
  split; [exact H1 | exact H2].
Defined.

(** X21 on [indebted]. *)
Lemma simulate_once_requires_witness :
  (0 < n_years indebted)%nat /\ (0 < n_sims indebted)%Z
  /\ exists lanes, lanes_after indebted 2 = Ok lanes
                   /\ List.length lanes = Z.to_nat (n_sims indebted).
Proof.
  assert (E : exists m, simulate_once indebted = Ok m)
    by (eexists; vm_compute; reflexivity).
  destruct E as [m E].
  destruct (simulate_once_requires indebted m E) as (H1 & H2 & _ & _ & H5).
  split; [exact H1|]. split; [exact H2|]. apply H5. vm_compute. lia.
Defined.

(** X22 on [crash]. *)
Lemma metrics_in_range_witness :
  exists m, simulate_once (crash 60) = Ok m
            /\ 0 <= p_success_death_weighted m <= 1
            /\ 0 <= median_max_dd_risky m <= 1.
Proof.
  eexists. split; [vm_compute; reflexivity|].
  match goal with
  | |- 0 <= p_success_death_weighted ?m <= 1 /\ _ =>
      destruct (metrics_in_range (crash 60) m) as (H1 & _ & _ & _ & H5);
        [vm_compute; reflexivity|]
  end.
  split; [exact H1|]. apply H5. repeat constructor; lra.
Defined.

(** X24 on [crash]. *)
Lemma unopened_line_reports_no_draw_witness :
  exists m, simulate_once (crash 60) = Ok m
            /\ p_any_rm_draw m == 0 /\ rm_balance_end_median m == 0.
Proof.
  eexists. split; [vm_compute; reflexivity|].
  match goal with
  | |- p_any_rm_draw ?m == 0 /\ _ =>
      destruct (unopened_line_reports_no_draw (crash 60) m crash_in_range)
        as (H1 & H2 & _); [vm_compute; discriminate | vm_compute; reflexivity |]
  end.
  split; [exact H1 | exact H2].
Defined.

(** X25 on metrics of 90% and 80% at an even weight. *)
Lemma objective_between_metrics_witness :
  let m := mkMetrics (9 # 10) (8 # 10) 0 0 0 0 0 0 0 0 in
  objective_p "both_min" (1 # 2) m <= objective_p "both_weighted" (1 # 2) m.
Proof.
  intro m.
  destruct (objective_between_metrics "both_weighted" (1 # 2) m) as (_ & _ & H & _);
    [lra | exact H].
Defined.

(** X26 on the search of [two_years] from the bracket [100, 106]. *)
Lemma find_max_E_bracket_witness :
  exists m,
    find_max_E 100 (returns (two_years 0)) (1 # 2) 100 106 19
               "death_weighted" (1 # 2) (two_years 0) = Ok (101%Z, m)
    /\ (100 <= 101 <= Z.max 106 749999)%Z.
Proof.
  eexists. split; [vm_compute; reflexivity|].
  eapply (find_max_E_bracket 100 (returns (two_years 0)) (1 # 2) 100 106 19
                             "death_weighted" (1 # 2) (two_years 0) 101);
    [lia | lia | vm_compute; reflexivity].
Defined.

(** X27 on [carefree] from the bracket [0, 3]. *)
Lemma expansion_stalls_below_four_witness :
  find_max_E 100 (returns (carefree 0)) (1 # 2) 0 3 19
             "death_weighted" (1 # 2) (carefree 0) = Raise Diverges.
Proof.
  eapply (expansion_stalls_below_four 100 (returns (carefree 0)) (1 # 2) 0 3 19
                                      "death_weighted" (1 # 2) (carefree 0));
    [lia | vm_compute; reflexivity | vm_compute; discriminate
     | vm_compute; reflexivity | vm_compute; discriminate].
Defined.

(** X28 on a request for one path from age 99. *)
Lemma response_follows_grid_witness :
  exists rows,
    _run_simulation flat_draws 100 (config 1 99 (15 # 100)) = Ok rows
    /\ map coordinates rows = grid (config 1 99 (15 # 100))
    /\ List.length rows = 1%nat.
Proof.
  assert (E : exists rows,
             _run_simulation flat_draws 100 (config 1 99 (15 # 100)) = Ok rows)
    by (eexists; vm_compute; reflexivity).
  destruct E as [rows E]. exists rows. split; [exact E|].
  destruct (response_follows_grid flat_draws 100 (config 1 99 (15 # 100))) as [H _].
  destruct (H rows E) as (H1 & H2 & _). split; [exact H1 | exact H2].
Defined.

(** X29 on draws that all equal the mean. *)
Lemma generated_returns_clipped_witness :
  generate_returns flat_draws 1 (-(1)) 3 (4 # 100) (1 # 10) = Raise ValueError
  /\ exists rets,
       generate_returns flat_draws 1 2 3 (4 # 100) (1 # 10) = Ok rets
       /\ shape1 rets = 3%nat /\ returns_at_least (-(99 # 100)) rets.
Proof.
  split.
  - apply (generated_returns_clipped flat_draws 1 (-(1)) 3 (4 # 100) (1 # 10)).
    left. lia.
  - eexists. split; [reflexivity|].
    destruct (generated_returns_clipped flat_draws 1 2 3 (4 # 100) (1 # 10))
      as [_ H].
    destruct (H _ eq_refl) as (H1 & H2 & _). split; [exact H1 | exact H2].
Defined.

End ExtrasOnScenarios.
